(** * media-toolkit: the bulk image converter and its ZIP writer

    A shallow embedding of [static/js/image.js]: the handlers of the page,
    the sequential bulk conversion loop [convertBulkWithProgress] and the
    hand-written store-only ZIP writer [createZipFromBase64Images], together
    with the platform primitives they call ([atob], [TextEncoder.encode],
    [DataView.setUint16], [DataView.setUint32], [Uint8Array.set], [Blob]).

    Conventions
    - a JavaScript number that holds a length or an offset is a [Z]; the
      source never leaves the exactly representable integers (below 2^53) on
      any input that fits in memory;
    - a JavaScript string is the list of its UTF-16 code units, each a [Z]
      in [0, 65536);
    - a [Uint8Array] / [ArrayBuffer] is a [list Z] of bytes in [0, 256);
    - an exception, or the rejection of the promise of an [async] function,
      is a [Throw] in the [result] monad;
    - the page is an event loop: a handler runs to its return or to its
      next [await], and at an [await] the page can handle any other event
      before the handler goes on. What the conversion endpoints answer is a
      parameter. *)

From Stdlib Require Import ZArith List Lia String Ascii.
From stdpp Require Import base tactics option list numbers.

Local Open Scope Z_scope.

(** ** Exceptions *)

Inductive exception : Type :=
  | InvalidCharacterError   (* DOMException raised by atob *)
  | RangeError.             (* DataView / typed array access out of bounds *)

Inductive result (A : Type) : Type :=
  | Ok (a : A)
  | Throw (e : exception).
Arguments Ok {A} a.
Arguments Throw {A} e.

Global Instance result_ret : MRet result := @Ok.

Global Instance result_bind : MBind result := fun A B k m =>
  match m with
  | Ok a => k a
  | Throw e => Throw e
  end.

(** [for (const x of xs) body] over a loop state, leaving at the first
    exception. *)
Fixpoint for_of {A S : Type} (body : S -> A -> result S) (xs : list A) (s : S)
  : result S :=
  match xs with
  | [] => Ok s
  | x :: xs' => s' ← body s x; for_of body xs' s'
  end.

(** ** JavaScript strings *)

Definition jsstring : Type := list Z.

(** The code units of an ASCII literal. *)
Fixpoint js (s : string) : jsstring :=
  match s with
  | EmptyString => []
  | String c s' => Z.of_N (N_of_ascii c) :: js s'
  end.

(** ** atob: the forgiving-base64 decode of the HTML standard *)

Definition is_ascii_whitespace (c : Z) : bool :=
  (c =? 9) || (c =? 10) || (c =? 12) || (c =? 13) || (c =? 32).

Definition b64_value (c : Z) : option Z :=
  if (65 <=? c) && (c <=? 90) then Some (c - 65)
  else if (97 <=? c) && (c <=? 122) then Some (c - 71)
  else if (48 <=? c) && (c <=? 57) then Some (c + 4)
  else if c =? 43 then Some 62
  else if c =? 47 then Some 63
  else None.

(** Remove one or two trailing U+003D when the length is a multiple of 4. *)
Definition strip_padding (s : jsstring) : jsstring :=
  if (length s mod 4 =? 0)%nat then
    match rev s with
    | 61 :: 61 :: r => rev r
    | 61 :: r => rev r
    | _ => s
    end
  else s.

Fixpoint b64_values (s : jsstring) : option (list Z) :=
  match s with
  | [] => Some []
  | c :: s' =>
      match b64_value c, b64_values s' with
      | Some v, Some vs => Some (v :: vs)
      | _, _ => None
      end
  end.

(** Groups of four sextets give three bytes; a final group of three gives
    two bytes and a final group of two gives one (the low bits are dropped). *)
Fixpoint b64_bytes (vs : list Z) : list Z :=
  match vs with
  | a :: b :: c :: d :: rest =>
      let n := a * 262144 + b * 4096 + c * 64 + d in
      (n / 65536) :: (n / 256) mod 256 :: n mod 256 :: b64_bytes rest
  | [a; b; c] =>
      let n := (a * 4096 + b * 64 + c) / 4 in
      [n / 256; n mod 256]
  | [a; b] => [(a * 64 + b) / 16]
  | _ => []
  end.

Definition atob (data : jsstring) : result jsstring :=
  let s := strip_padding (List.filter (fun c => negb (is_ascii_whitespace c)) data) in
  if (length s mod 4 =? 1)%nat then Throw InvalidCharacterError
  else match b64_values s with
       | Some vs => Ok (b64_bytes vs)
       | None => Throw InvalidCharacterError
       end.

(** ** TextEncoder.encode: UTF-8 of the string's scalar values *)

Definition is_lead_surrogate (c : Z) : bool := (55296 <=? c) && (c <=? 56319).
Definition is_trail_surrogate (c : Z) : bool := (56320 <=? c) && (c <=? 57343).

(** Conversion to scalar values: a surrogate pair is one code point, an
    unpaired surrogate becomes U+FFFD. *)
Fixpoint scalar_values (s : jsstring) : list Z :=
  match s with
  | [] => []
  | c :: rest =>
      if is_lead_surrogate c then
        match rest with
        | d :: rest' =>
            if is_trail_surrogate d
            then (65536 + (c - 55296) * 1024 + (d - 56320)) :: scalar_values rest'
            else 65533 :: scalar_values rest
        | [] => [65533]
        end
      else if is_trail_surrogate c then 65533 :: scalar_values rest
      else c :: scalar_values rest
  end.

Definition utf8_of_scalar (u : Z) : list Z :=
  if u <? 128 then [u]
  else if u <? 2048 then [192 + u / 64; 128 + u mod 64]
  else if u <? 65536 then [224 + u / 4096; 128 + (u / 64) mod 64; 128 + u mod 64]
  else [240 + u / 262144; 128 + (u / 4096) mod 64; 128 + (u / 64) mod 64;
        128 + u mod 64].

Definition TextEncoder_encode (s : jsstring) : list Z :=
  concat (map utf8_of_scalar (scalar_values s)).

(** ** ArrayBuffer, DataView and typed arrays *)

(** [new ArrayBuffer(n)]: [n] zero bytes. *)
Definition ArrayBuffer (n : nat) : list Z := replicate n 0.

(** [new Uint8Array(n)] filled by [bytes[i] = s.charCodeAt(i)]: each element
    is stored modulo 256. *)
Definition Uint8Array_of_charCodes (s : jsstring) : list Z :=
  map (fun c => c mod 256) s.

(** A bounds-checked write of [bs] at [byteOffset]; out of range is a
    RangeError, as for every DataView setter and for [TypedArray.set]. *)
Definition store (buf : list Z) (byteOffset : nat) (bs : list Z)
  : result (list Z) :=
  if (byteOffset + length bs <=? length buf)%nat
  then Ok (take byteOffset buf ++ bs ++ drop (byteOffset + length bs) buf)
  else Throw RangeError.

Definition ToUint16 (v : Z) : Z := v mod 65536.
Definition ToUint32 (v : Z) : Z := v mod 4294967296.

Definition le16 (v : Z) : list Z := [v mod 256; (v / 256) mod 256].
Definition le32 (v : Z) : list Z :=
  [v mod 256; (v / 256) mod 256; (v / 65536) mod 256; (v / 16777216) mod 256].

(** [view.setUint16(byteOffset, value, true)] and
    [view.setUint32(byteOffset, value, true)]. *)
Definition setUint16 (view : list Z) (byteOffset : nat) (value : Z)
  : result (list Z) :=
  store view byteOffset (le16 (ToUint16 value)).

Definition setUint32 (view : list Z) (byteOffset : nat) (value : Z)
  : result (list Z) :=
  store view byteOffset (le32 (ToUint32 value)).

(** [new Uint8Array(buffer, byteOffset).set(source)]. *)
Definition Uint8Array_set (buffer : list Z) (byteOffset : nat) (source : list Z)
  : result (list Z) :=
  store buffer byteOffset source.

(** [new Blob(parts)]: the parts one after the other. *)
Definition Blob (parts : list (list Z)) : list Z := concat parts.

(** ** createZipFromBase64Images (image.js, lines 606-713) *)

(** One converted image as the conversion endpoint returns it: the fields
    [img.data] (base64) and [img.filename] that the writer reads. *)
Record image : Type := Image { data : jsstring; filename : jsstring }.

Module Entry.
(** What the first loop remembers of an image for the central directory. *)
Record t : Type := Make { offset : Z; filenameBytes : list Z; size : Z }.
End Entry.

Definition LOCAL_FILE_HEADER_SIG : Z := 0x04034b50.
Definition CENTRAL_DIR_HEADER_SIG : Z := 0x02014b50.
Definition END_OF_CENTRAL_DIR_SIG : Z := 0x06054b50.

Record zip_state : Type := ZipState {
  zipParts : list (list Z);
  offset : Z;
  centralDirectory : list Entry.t
}.

(** Lines 633-649: the local file header of one image. *)
Definition localHeader_of (filenameBytes : list Z) (bytes_length : Z)
  : result (list Z) :=
  let localView := ArrayBuffer (30 + length filenameBytes) in
  v ← setUint32 localView 0 LOCAL_FILE_HEADER_SIG;
  v ← setUint16 v 4 20;
  v ← setUint16 v 6 0;
  v ← setUint16 v 8 0;
  v ← setUint16 v 10 0;
  v ← setUint16 v 12 0;
  v ← setUint32 v 14 0;
  v ← setUint32 v 18 bytes_length;
  v ← setUint32 v 22 bytes_length;
  v ← setUint16 v 26 (Z.of_nat (length filenameBytes));
  v ← setUint16 v 28 0;
  Uint8Array_set v 30 filenameBytes.

(** Lines 621-662: the body of [for (const img of images)]. *)
Definition add_image (st : zip_state) (img : image) : result zip_state :=
  binaryString ← atob (data img);
  let bytes := Uint8Array_of_charCodes binaryString in
  let filenameBytes := TextEncoder_encode (filename img) in
  localHeader ← localHeader_of filenameBytes (Z.of_nat (length bytes));
  Ok {| zipParts := zipParts st ++ [localHeader; bytes];
        offset := offset st + (Z.of_nat (length localHeader)
                               + Z.of_nat (length bytes));
        centralDirectory :=
          centralDirectory st
            ++ [Entry.Make (offset st) filenameBytes (Z.of_nat (length bytes))] |}.

(** Lines 668-689: the central directory header of one entry. *)
Definition centralHeader_of (entry : Entry.t) : result (list Z) :=
  let centralView := ArrayBuffer (46 + length (Entry.filenameBytes entry)) in
  v ← setUint32 centralView 0 CENTRAL_DIR_HEADER_SIG;
  v ← setUint16 v 4 20;
  v ← setUint16 v 6 20;
  v ← setUint16 v 8 0;
  v ← setUint16 v 10 0;
  v ← setUint16 v 12 0;
  v ← setUint16 v 14 0;
  v ← setUint32 v 16 0;
  v ← setUint32 v 20 (Entry.size entry);
  v ← setUint32 v 24 (Entry.size entry);
  v ← setUint16 v 28 (Z.of_nat (length (Entry.filenameBytes entry)));
  v ← setUint16 v 30 0;
  v ← setUint16 v 32 0;
  v ← setUint16 v 34 0;
  v ← setUint16 v 36 0;
  v ← setUint32 v 38 0;
  v ← setUint32 v 42 (Entry.offset entry);
  Uint8Array_set v 46 (Entry.filenameBytes entry).

(** Lines 667-693: the body of [for (const entry of centralDirectory)]. *)
Definition add_central (st : zip_state) (entry : Entry.t) : result zip_state :=
  centralHeader ← centralHeader_of entry;
  Ok {| zipParts := zipParts st ++ [centralHeader];
        offset := offset st + Z.of_nat (length centralHeader);
        centralDirectory := centralDirectory st |}.

(** Lines 698-708: the end of central directory record. *)
Definition endRecord_of (entries : Z) (centralDirSize centralDirOffset : Z)
  : result (list Z) :=
  let endView := ArrayBuffer 22 in
  v ← setUint32 endView 0 END_OF_CENTRAL_DIR_SIG;
  v ← setUint16 v 4 0;
  v ← setUint16 v 6 0;
  v ← setUint16 v 8 entries;
  v ← setUint16 v 10 entries;
  v ← setUint32 v 12 centralDirSize;
  v ← setUint32 v 16 centralDirOffset;
  setUint16 v 20 0.

(** The state after the first loop: local headers and contents emitted,
    offsets recorded. *)
Definition local_pass (images : list image) : result zip_state :=
  for_of add_image images
    {| zipParts := []; offset := 0; centralDirectory := [] |}.

Definition createZipFromBase64Images (images : list image) : result (list Z) :=
  st ← local_pass images;
  let centralDirOffset := offset st in
  st' ← for_of add_central (centralDirectory st) st;
  let centralDirSize := offset st' - centralDirOffset in
  endRecord ← endRecord_of (Z.of_nat (length (centralDirectory st')))
                           centralDirSize centralDirOffset;
  Ok (Blob (zipParts st' ++ [endRecord])).


(** ** The three record layouts, field by field *)

Definition local_record (name : list Z) (size : Z) : list Z :=
  le32 (ToUint32 LOCAL_FILE_HEADER_SIG) ++ le16 (ToUint16 20)
    ++ le16 (ToUint16 0) ++ le16 (ToUint16 0) ++ le16 (ToUint16 0)
    ++ le16 (ToUint16 0) ++ le32 (ToUint32 0)
    ++ le32 (ToUint32 size) ++ le32 (ToUint32 size)
    ++ le16 (ToUint16 (Z.of_nat (length name))) ++ le16 (ToUint16 0) ++ name.

Definition central_record (entry : Entry.t) : list Z :=
  le32 (ToUint32 CENTRAL_DIR_HEADER_SIG) ++ le16 (ToUint16 20)
    ++ le16 (ToUint16 20) ++ le16 (ToUint16 0) ++ le16 (ToUint16 0)
    ++ le16 (ToUint16 0) ++ le16 (ToUint16 0) ++ le32 (ToUint32 0)
    ++ le32 (ToUint32 (Entry.size entry)) ++ le32 (ToUint32 (Entry.size entry))
    ++ le16 (ToUint16 (Z.of_nat (length (Entry.filenameBytes entry))))
    ++ le16 (ToUint16 0) ++ le16 (ToUint16 0) ++ le16 (ToUint16 0)
    ++ le16 (ToUint16 0) ++ le32 (ToUint32 0)
    ++ le32 (ToUint32 (Entry.offset entry)) ++ Entry.filenameBytes entry.

Definition trailer_record (entries centralDirSize centralDirOffset : Z)
  : list Z :=
  le32 (ToUint32 END_OF_CENTRAL_DIR_SIG) ++ le16 (ToUint16 0)
    ++ le16 (ToUint16 0) ++ le16 (ToUint16 entries) ++ le16 (ToUint16 entries)
    ++ le32 (ToUint32 centralDirSize) ++ le32 (ToUint32 centralDirOffset)
    ++ le16 (ToUint16 0).


(** ** The archive as the format describes it

    The second description of the output, written region by region from the
    decoded entries; [createZipFromBase64Images_layout] shows that the
    writer computes exactly this. *)

Record archive_entry : Type := ArchiveEntry { name : list Z; content : list Z }.

(** What the first loop extracts from an image before it writes anything. *)
Definition decode_image (img : image) : result archive_entry :=
  binaryString ← atob (data img);
  Ok (ArchiveEntry (TextEncoder_encode (filename img))
                   (Uint8Array_of_charCodes binaryString)).

Fixpoint decode_images (images : list image) : result (list archive_entry) :=
  match images with
  | [] => Ok []
  | img :: rest =>
      e ← decode_image img; es ← decode_images rest; Ok (e :: es)
  end.

Definition total {A : Type} (f : A -> Z) (l : list A) : Z :=
  foldr (fun a acc => f a + acc) 0 l.

Definition content_size (e : archive_entry) : Z := Z.of_nat (length (content e)).

(** Bytes taken by an entry in the entries region and in the index region. *)
Definition local_span (e : archive_entry) : Z :=
  30 + Z.of_nat (length (name e)) + content_size e.
Definition index_span (e : archive_entry) : Z :=
  46 + Z.of_nat (length (name e)).

(** The directory built while a cursor runs over the entries. *)
Fixpoint directory_from (cursor : Z) (es : list archive_entry) : list Entry.t :=
  match es with
  | [] => []
  | e :: es' =>
      Entry.Make cursor (name e) (content_size e)
        :: directory_from (cursor + local_span e) es'
  end.

Definition local_part (e : archive_entry) : list Z :=
  local_record (name e) (content_size e) ++ content e.

Definition entries_region (es : list archive_entry) : list Z :=
  concat (map local_part es).

Definition index_region (es : list archive_entry) : list Z :=
  concat (map central_record (directory_from 0 es)).

Definition trailer_of (es : list archive_entry) : list Z :=
  trailer_record (Z.of_nat (length es)) (total index_span es)
                 (total local_span es).

Definition archive_of (es : list archive_entry) : list Z :=
  entries_region es ++ index_region es ++ trailer_of es.

(** ** Reading a buffer back *)

(** The [n] bytes at byte position [pos], when they are all there. *)
Definition slice (buf : list Z) (pos : Z) (n : nat) : option (list Z) :=
  if (0 <=? pos) && (pos + Z.of_nat n <=? Z.of_nat (length buf))
  then Some (take n (drop (Z.to_nat pos) buf))
  else None.

Definition le_value (bs : list Z) : Z :=
  foldr (fun b acc => b + 256 * acc) 0 bs.

(** [view.getUint16(pos, true)] and [view.getUint32(pos, true)]. *)
Definition getUint16 (buf : list Z) (pos : Z) : option Z :=
  le_value <$> slice buf pos 2.
Definition getUint32 (buf : list Z) (pos : Z) : option Z :=
  le_value <$> slice buf pos 4.

(** Where the first loop left the parts of the decoded entries. *)
Definition local_parts (es : list archive_entry) : list (list Z) :=
  concat (map (fun e => [local_record (name e) (content_size e); content e]) es).

(** Where the index record of entry [k] starts: after the entries region
    and the index records of the entries before it. *)
Definition index_record_pos (st : zip_state) (k : nat) : Z :=
  offset st
  + total (fun en => 46 + Z.of_nat (length (Entry.filenameBytes en)))
          (take k (centralDirectory st)).

(** The offset field of the index record of entry [k], used as a position
    in the buffer, is where a local header signature stands. *)
Definition index_offset_hits_local_header (st : zip_state) (buf : list Z)
    (k : nat) : Prop :=
  exists p, getUint32 buf (index_record_pos st k + 42) = Some p
            /\ slice buf p 4 = Some [80; 75; 3; 4].

(** ** Inputs beyond the 32-bit and 16-bit fields *)

(** [m] images whose payload is [4 * n] letters A, that is [3 * n] zero
    bytes each, followed by an empty one. *)
Definition zero_images (m n : nat) : list image :=
  replicate m (Image (replicate (4 * n) 65) (js "a")) ++ [Image [] (js "b")].

(** 2^26 groups of three bytes are 192 MiB; 22 entries of that size end
    beyond 2^32. *)
Definition large : nat := Z.to_nat 67108864.

(** The third part of the offset claim as it is stated, for every entry. *)
Definition index_offsets_hit_local_headers (images : list image) : Prop :=
  forall st buf,
    local_pass images = Ok st ->
    createZipFromBase64Images images = Ok buf ->
    forall k, (k < length (centralDirectory st))%nat ->
              index_offset_hits_local_header st buf k.

(** Both count fields of the trailer as the trailer claim states them: equal
    to the number of entries. *)
Definition trailer_counts_entries (images : list image) : Prop :=
  forall buf,
    createZipFromBase64Images images = Ok buf ->
    let trailer := Z.of_nat (length buf) - 22 in
    getUint16 buf (trailer + 8) = Some (Z.of_nat (length images))
    /\ getUint16 buf (trailer + 10) = Some (Z.of_nat (length images)).

Definition empty_image : image := Image [] [].

(** ** The reference side: CRC-32 and an archive reader

    Neither is part of the application; they are the standard's side of the
    checksum and round-trip claims. *)

(** CRC-32 (reflected polynomial EDB88320, initial value and final
    complement FFFFFFFF), bit by bit. *)
Definition crc32_shift (c : Z) : Z :=
  if Z.odd c then Z.lxor (Z.shiftr c 1) 0xEDB88320 else Z.shiftr c 1.

Definition crc32_update (crc byte : Z) : Z :=
  Nat.iter 8 crc32_shift (Z.lxor crc byte).

Definition crc32 (bytes : list Z) : Z :=
  Z.lxor (fold_left crc32_update bytes 0xFFFFFFFF) 0xFFFFFFFF.

Module ZipReader.
Inductive failure : Type :=
  | NoTrailer
  | BadIndexRecord
  | BadLocalHeader
  | UnsupportedMethod
  | BadChecksum.

Record index_entry : Type := IndexEntry {
  ie_method : Z; ie_crc : Z; ie_compressed : Z; ie_uncompressed : Z;
  ie_name : list Z; ie_offset : Z
}.

Record member : Type := Member {
  member_name : list Z; member_method : Z; member_content : list Z
}.

(** The trailer is the last record whose comment runs to the end of the
    buffer; look for it from the end backwards. *)
Fixpoint find_trailer (buf : list Z) (tries : nat) (pos : Z) : option Z :=
  match tries with
  | O => None
  | S tries' =>
      if decide (slice buf pos 4 = Some [80; 75; 5; 6]
                 /\ (fun c => pos + 22 + c) <$> getUint16 buf (pos + 20)
                    = Some (Z.of_nat (length buf)))
      then Some pos
      else find_trailer buf tries' (pos - 1)
  end.

Definition read_index_entry (buf : list Z) (pos : Z)
  : option (index_entry * Z) :=
  sig ← slice buf pos 4;
  if decide (sig = [80; 75; 1; 2]) then
    method ← getUint16 buf (pos + 10);
    crc ← getUint32 buf (pos + 16);
    csize ← getUint32 buf (pos + 20);
    usize ← getUint32 buf (pos + 24);
    nlen ← getUint16 buf (pos + 28);
    elen ← getUint16 buf (pos + 30);
    clen ← getUint16 buf (pos + 32);
    off ← getUint32 buf (pos + 42);
    nm ← slice buf (pos + 46) (Z.to_nat nlen);
    Some (IndexEntry method crc csize usize nm off,
          pos + 46 + nlen + elen + clen)
  else None.

Fixpoint read_index (buf : list Z) (count : nat) (pos : Z)
  : option (list index_entry) :=
  match count with
  | O => Some []
  | S count' =>
      '(ie, next) ← read_index_entry buf pos;
      rest ← read_index buf count' next;
      Some (ie :: rest)
  end.

(** The content of a member: found through its local header, stored
    only, and, for a reader that verifies, with the recorded checksum. *)
Definition read_member (verify : bool) (buf : list Z) (ie : index_entry)
  : failure + member :=
  match slice buf (ie_offset ie) 4,
        getUint16 buf (ie_offset ie + 26),
        getUint16 buf (ie_offset ie + 28) with
  | Some sig, Some nlen, Some elen =>
      if decide (sig = [80; 75; 3; 4]
                 /\ slice buf (ie_offset ie + 30) (Z.to_nat nlen)
                    = Some (ie_name ie))
      then
        if decide (ie_method ie = 0 /\ ie_compressed ie = ie_uncompressed ie)
        then
          match slice buf (ie_offset ie + 30 + nlen + elen)
                      (Z.to_nat (ie_compressed ie)) with
          | Some bytes =>
              if verify && negb (crc32 bytes =? ie_crc ie)
              then inl BadChecksum
              else inr (Member (ie_name ie) (ie_method ie) bytes)
          | None => inl BadLocalHeader
          end
        else inl UnsupportedMethod
      else inl BadLocalHeader
  | _, _, _ => inl BadLocalHeader
  end.

Fixpoint read_members (verify : bool) (buf : list Z)
    (ies : list index_entry) : failure + list member :=
  match ies with
  | [] => inr []
  | ie :: rest =>
      match read_member verify buf ie with
      | inl f => inl f
      | inr m =>
          match read_members verify buf rest with
          | inl f => inl f
          | inr ms => inr (m :: ms)
          end
      end
  end.

Definition read (verify : bool) (buf : list Z) : failure + list member :=
  let len := Z.of_nat (length buf) in
  match find_trailer buf (Z.to_nat (Z.min (len - 21) 65536)) (len - 22) with
  | None => inl NoTrailer
  | Some trailer =>
      match getUint16 buf (trailer + 10), getUint32 buf (trailer + 16) with
      | Some count, Some index_start =>
          match read_index buf (Z.to_nat count) index_start with
          | Some ies => read_members verify buf ies
          | None => inl BadIndexRecord
          end
      | _, _ => inl NoTrailer
      end
  end.
End ZipReader.

(** The two entries of the round-trip example, as the conversion endpoint
    would deliver them: base64 of [hello] and of [world!]. *)
Definition x_txt : image := Image (js "aGVsbG8=") (js "x.txt").
Definition y_txt : image := Image (js "d29ybGQh") (js "y.txt").

(** ** Malformed entries *)

(** A name that UTF-8 cannot encode: one with an unpaired surrogate. *)
Fixpoint has_unpaired_surrogate (s : jsstring) : bool :=
  match s with
  | [] => false
  | c :: rest =>
      if is_lead_surrogate c then
        match rest with
        | d :: rest' =>
            if is_trail_surrogate d then has_unpaired_surrogate rest' else true
        | [] => true
        end
      else if is_trail_surrogate c then true
      else has_unpaired_surrogate rest
  end.

Definition malformed (img : image) : Prop :=
  has_unpaired_surrogate (filename img) = true
  \/ exists s, atob (data img) = Ok s /\ 4294967296 <= Z.of_nat (length s).

(** The encoder-time error claim as it is stated: a malformed entry makes
    the whole build fail. *)
Definition rejects_malformed (images : list image) : Prop :=
  Exists malformed images ->
  exists e, createZipFromBase64Images images = Throw e.

Definition unpaired_name : image := Image (js "aGVsbG8=") [55296].


(** ** What a reader is expected to find *)

(** The member a reader should return for an entry: its name, the store
    method, its content. *)
Definition member_of (e : archive_entry) : ZipReader.member :=
  ZipReader.Member (name e) 0 (content e).

(** An entry whose content has a CRC-32 other than the zero the writer
    records. *)
Definition checksum_differs (e : archive_entry) : bool :=
  negb (crc32 (content e) =? 0).

(** The index entries a reader should collect while a cursor runs over the
    entries. *)
Fixpoint index_entries_from (cursor : Z) (es : list archive_entry)
  : list ZipReader.index_entry :=
  match es with
  | [] => []
  | e :: es' =>
      ZipReader.IndexEntry 0 0 (content_size e) (content_size e) (name e) cursor
        :: index_entries_from (cursor + local_span e) es'
  end.

(** Entries that the 16-bit and 32-bit fields hold without reduction: fewer
    than 65536 of them, names shorter than 65536 bytes, and an entries
    region shorter than 2^32 bytes. *)
Definition fits_the_fields (es : list archive_entry) : Prop :=
  Z.of_nat (length es) < 65536
  /\ total local_span es < 4294967296
  /\ Forall (fun e => Z.of_nat (length (name e)) < 65536) es.

(** ** Bytes and code units *)

Definition is_byte (b : Z) : Prop := 0 <= b < 256.
Definition is_code_unit (c : Z) : Prop := 0 <= c < 65536.
Definition is_scalar_value (u : Z) : Prop := 0 <= u < 1114112.

Definition is_ascii (c : Z) : Prop := 0 <= c < 128.
Definition is_sextet (v : Z) : Prop := 0 <= v < 64.

(** ** The reference side: the base64 encoding of RFC 4648

    The conversion endpoint sends the bytes of a converted image in this
    encoding; it is the sender's side of the payload decoding at the head of
    the writer's loop. *)

Definition b64_char (v : Z) : Z :=
  if v <? 26 then v + 65
  else if v <? 52 then v + 71
  else if v <? 62 then v - 4
  else if v =? 62 then 43
  else 47.

(** Three bytes give four sextets; a final group of two bytes gives three
    and a final single byte gives two. *)
Fixpoint base64_sextets (bs : list Z) : list Z :=
  match bs with
  | a :: b :: c :: rest =>
      a / 4 :: (a mod 4) * 16 + b / 16 :: (b mod 16) * 4 + c / 64 :: c mod 64
        :: base64_sextets rest
  | [a; b] => [a / 4; (a mod 4) * 16 + b / 16; (b mod 16) * 4]
  | [a] => [a / 4; (a mod 4) * 16]
  | [] => []
  end.

(** One [=] after a final group of two bytes, two after a single byte. *)
Fixpoint base64_padding (bs : list Z) : jsstring :=
  match bs with
  | _ :: _ :: _ :: rest => base64_padding rest
  | [_; _] => [61]
  | [_] => [61; 61]
  | [] => []
  end.

Definition base64_encode (bs : list Z) : jsstring :=
  map b64_char (base64_sextets bs) ++ base64_padding bs.

(** A file as the endpoint holds it: a name and the bytes of the image. *)
Definition sent_image (f : jsstring * list Z) : image :=
  Image (base64_encode f.2) f.1.

Definition sent_entry (f : jsstring * list Z) : archive_entry :=
  ArchiveEntry (TextEncoder_encode f.1) f.2.


(** * The page: image.js as an event loop

    The module keeps its state in variables that all its handlers share
    ([currentFiles], [selectedFormat]) and in the elements of the page. A
    handler runs from its call to its return, or to its next [await]; at an
    [await] the page is free to handle any other event before the handler
    goes on. The model follows that: a synchronous handler is a function on
    the page; an [async] function is cut at its awaits, and what is suspended
    waits in a table of tasks, with the values of its local variables, until
    its answer arrives. *)

Module Status.
(** The status strings of a file-list item. *)
Inductive t : Type := pending | converting | done | error.
End Status.

(** What one POST to [/api/image/convert-single] comes to inside the [try]:
    the parsed JSON body of an ok response, or anything that lands in the
    [catch] (a rejected fetch, a response that is not ok, a body that does
    not parse). *)
Inductive reply : Type :=
  | Converted (result : image)
  | Failed.

Definition converted_image (r : reply) : option image :=
  match r with
  | Converted result => Some result
  | Failed => None
  end.

Definition status_of_reply (r : reply) : Status.t :=
  match r with
  | Converted _ => Status.done
  | Failed => Status.error
  end.

Definition is_failed (r : reply) : bool :=
  match r with
  | Converted _ => false
  | Failed => true
  end.

(** The files with their positions, from position [i] on. *)
Fixpoint indexed {A : Type} (i : nat) (l : list A) : list (nat * A) :=
  match l with
  | [] => []
  | a :: l' => (i, a) :: indexed (S i) l'
  end.

(** The gateway's replies to the files of a list, each asked at its
    position, in the order of the list. *)
Definition replies {File : Type} (gateway : nat -> File -> reply)
    (files : list File) : list reply :=
  map (fun '(i, f) => gateway i f) (indexed 0 files).

(** ** The state of the page *)

(** A file of the browser: what the handlers read of it. *)
Record file : Type := BrowserFile {
  file_name : jsstring;
  file_type : jsstring;
  file_size : Z
}.

(** What the [catch] of [convertImage] catches. *)
Inductive caught : Type :=
  | EndpointError                  (* a rejected fetch, a response not ok *)
  | NoFileSelected                 (* TypeError: currentFiles[0] is undefined *)
  | WriterError (e : exception).   (* the ZIP writer threw *)

Inductive toast : Type :=
  | SelectValidFiles               (* 'Please select valid image files (...)' *)
  | SelectFirst                    (* 'Please select an image first' *)
  | ImageConverted                 (* 'Image converted successfully!' *)
  | ImagesConverted (n : nat)      (* `${n} images converted successfully!` *)
  | NoImagesCouldBeConverted       (* 'No images could be converted' *)
  | ErrorMessage (c : caught).     (* showToast(error.message, 'error') *)

(** What the module does that is not a change of the page: the requests it
    sends, the calls of the ZIP writer, the toasts. *)
Inductive event : Type :=
  | Fetch (index : nat) (f : file)     (* POST /api/image/convert-single *)
  | ConvertRequest (f : file)          (* POST /api/image/convert *)
  | CreateZip (images : list image)
  | ShowToast (message : toast).

(** The first span of the header of the file list. *)
Inductive header_text : Type :=
  | FilesSelected (n : nat)            (* `${n} files selected` *)
  | ConvertedOf (doneCount total : nat).   (* `${doneCount}/${total} converted` *)

(** The content of the file list container. [showFileList] writes the file
    names into [innerHTML] as they are. A name without [<] adds text only,
    and the container then holds the header and one item per file, each
    with its [data-index] and the class of its status. A name with [<] can
    add elements of its own, with any class or attribute; what the container
    holds then is not modelled. *)
Inductive file_list : Type :=
  | Items (header : option header_text) (items : list Status.t)
  | Markup.

(** What a click on the download button saves. *)
Inductive download : Type :=
  | ConvertedFile (original format : jsstring)
  | ZipArchive (zipBlob : list Z).

(** The numbers in the text of the result. *)
Inductive result_text : Type :=
  | SingleResult
  | BulkResult (converted failed : nat).

(** The variables of the module and the elements it switches. The other
    texts of the page, the preview image and the quality value are left
    out. *)
Record page : Type := Page {
  currentFiles : list file;
  selectedFormat : jsstring;
  previewContainer_hidden : bool;
  fileListContainer_hidden : bool;
  fileListContainer_content : file_list;
  resultContainer_hidden : bool;
  qualityContainer_hidden : bool;
  dropZone_has_file : bool;
  convertBtn_disabled : bool;
  downloadBtn_target : option download;
  resultInfo : option result_text;
  page_log : list event
}.

Definition log_event (ev : event) (pg : page) : page :=
  {| currentFiles := currentFiles pg; selectedFormat := selectedFormat pg;
     previewContainer_hidden := previewContainer_hidden pg;
     fileListContainer_hidden := fileListContainer_hidden pg;
     fileListContainer_content := fileListContainer_content pg;
     resultContainer_hidden := resultContainer_hidden pg;
     qualityContainer_hidden := qualityContainer_hidden pg;
     dropZone_has_file := dropZone_has_file pg;
     convertBtn_disabled := convertBtn_disabled pg;
     downloadBtn_target := downloadBtn_target pg;
     resultInfo := resultInfo pg;
     page_log := page_log pg ++ [ev] |}.

Definition showToast (message : toast) (pg : page) : page :=
  log_event (ShowToast message) pg.

Definition set_currentFiles (files : list file) (pg : page) : page :=
  {| currentFiles := files; selectedFormat := selectedFormat pg;
     previewContainer_hidden := previewContainer_hidden pg;
     fileListContainer_hidden := fileListContainer_hidden pg;
     fileListContainer_content := fileListContainer_content pg;
     resultContainer_hidden := resultContainer_hidden pg;
     qualityContainer_hidden := qualityContainer_hidden pg;
     dropZone_has_file := dropZone_has_file pg;
     convertBtn_disabled := convertBtn_disabled pg;
     downloadBtn_target := downloadBtn_target pg;
     resultInfo := resultInfo pg;
     page_log := page_log pg |}.

Definition set_fileListContainer_content (content : file_list) (pg : page)
  : page :=
  {| currentFiles := currentFiles pg; selectedFormat := selectedFormat pg;
     previewContainer_hidden := previewContainer_hidden pg;
     fileListContainer_hidden := fileListContainer_hidden pg;
     fileListContainer_content := content;
     resultContainer_hidden := resultContainer_hidden pg;
     qualityContainer_hidden := qualityContainer_hidden pg;
     dropZone_has_file := dropZone_has_file pg;
     convertBtn_disabled := convertBtn_disabled pg;
     downloadBtn_target := downloadBtn_target pg;
     resultInfo := resultInfo pg;
     page_log := page_log pg |}.

Definition set_resultContainer_hidden (b : bool) (pg : page) : page :=
  {| currentFiles := currentFiles pg; selectedFormat := selectedFormat pg;
     previewContainer_hidden := previewContainer_hidden pg;
     fileListContainer_hidden := fileListContainer_hidden pg;
     fileListContainer_content := fileListContainer_content pg;
     resultContainer_hidden := b;
     qualityContainer_hidden := qualityContainer_hidden pg;
     dropZone_has_file := dropZone_has_file pg;
     convertBtn_disabled := convertBtn_disabled pg;
     downloadBtn_target := downloadBtn_target pg;
     resultInfo := resultInfo pg;
     page_log := page_log pg |}.

Definition set_convertBtn_disabled (b : bool) (pg : page) : page :=
  {| currentFiles := currentFiles pg; selectedFormat := selectedFormat pg;
     previewContainer_hidden := previewContainer_hidden pg;
     fileListContainer_hidden := fileListContainer_hidden pg;
     fileListContainer_content := fileListContainer_content pg;
     resultContainer_hidden := resultContainer_hidden pg;
     qualityContainer_hidden := qualityContainer_hidden pg;
     dropZone_has_file := dropZone_has_file pg;
     convertBtn_disabled := b;
     downloadBtn_target := downloadBtn_target pg;
     resultInfo := resultInfo pg;
     page_log := page_log pg |}.

(** [downloadBtn.onclick = ...] and [resultInfo.textContent = ...]. *)
Definition set_result (target : download) (text : result_text) (pg : page)
  : page :=
  {| currentFiles := currentFiles pg; selectedFormat := selectedFormat pg;
     previewContainer_hidden := previewContainer_hidden pg;
     fileListContainer_hidden := fileListContainer_hidden pg;
     fileListContainer_content := fileListContainer_content pg;
     resultContainer_hidden := resultContainer_hidden pg;
     qualityContainer_hidden := qualityContainer_hidden pg;
     dropZone_has_file := dropZone_has_file pg;
     convertBtn_disabled := convertBtn_disabled pg;
     downloadBtn_target := Some target;
     resultInfo := Some text;
     page_log := page_log pg |}.

(** ** The synchronous handlers *)

(** Lines 138-172, [showSingleFilePreview]: the list is hidden, the preview
    is shown, the drop zone has a file. *)
Definition showSingleFilePreview (pg : page) : page :=
  {| currentFiles := currentFiles pg; selectedFormat := selectedFormat pg;
     previewContainer_hidden := false;
     fileListContainer_hidden := true;
     fileListContainer_content := fileListContainer_content pg;
     resultContainer_hidden := resultContainer_hidden pg;
     qualityContainer_hidden := qualityContainer_hidden pg;
     dropZone_has_file := true;
     convertBtn_disabled := convertBtn_disabled pg;
     downloadBtn_target := downloadBtn_target pg;
     resultInfo := resultInfo pg;
     page_log := page_log pg |}.

Definition is_done (s : Status.t) : bool :=
  match s with Status.done => true | _ => false end.

Definition is_error (s : Status.t) : bool :=
  match s with Status.error => true | _ => false end.

(** A file name that [innerHTML] takes as text: one without [<]. *)
Definition plain_name (name : jsstring) : bool := negb (existsb (Z.eqb 60) name).

Definition plain_names (files : list file) : bool :=
  forallb (fun f => plain_name (file_name f)) files.

(** Lines 177-262, [showFileList(files, statuses)]: the preview is hidden,
    the list is shown, the drop zone has a file, and the container is
    written anew, with one item per file. Without statuses every item is
    pending and the header counts the files; with statuses the item at
    [index] has [statuses[index]] (every call passes one status per file)
    and the header counts the done ones. *)
Definition showFileList (files : list file)
    (statuses : option (list Status.t)) (pg : page) : page :=
  let headerText :=
    match statuses with
    | Some sts => ConvertedOf (length (List.filter is_done sts)) (length files)
    | None => FilesSelected (length files)
    end in
  let status_at (index : nat) :=
    match statuses with
    | Some sts => default Status.pending (sts !! index)
    | None => Status.pending
    end in
  let items := map (fun p : nat * file => status_at p.1) (indexed 0 files) in
  {| currentFiles := currentFiles pg; selectedFormat := selectedFormat pg;
     previewContainer_hidden := true;
     fileListContainer_hidden := false;
     fileListContainer_content :=
       if plain_names files then Items (Some headerText) items else Markup;
     resultContainer_hidden := resultContainer_hidden pg;
     qualityContainer_hidden := qualityContainer_hidden pg;
     dropZone_has_file := true;
     convertBtn_disabled := convertBtn_disabled pg;
     downloadBtn_target := downloadBtn_target pg;
     resultInfo := resultInfo pg;
     page_log := page_log pg |}.

(** Lines 267-313, [updateFileStatus(index, status)]: the item found by its
    [data-index] gets the class and the indicator of the status, and the
    header, when there is one, the number of items with the done class out
    of [currentFiles.length]; without such an item nothing changes
    ([if (!item) return]). *)
Definition updateFileStatus (index : nat) (status : Status.t) (pg : page)
  : page :=
  match fileListContainer_content pg with
  | Items header items =>
      if (index <? length items)%nat then
        let items := <[index := status]> items in
        let doneCount := length (List.filter is_done items) in
        let header :=
          (fun _ => ConvertedOf doneCount (length (currentFiles pg)))
            <$> header in
        set_fileListContainer_content (Items header items) pg
      else pg
  | Markup => pg
  end.

(** Lines 363-382, [selectFormat]: the quality slider is shown for jpg,
    jpeg and webp, and hidden for every other format. *)
Definition qualityFormats : list jsstring := [js "jpg"; js "jpeg"; js "webp"].

Definition selectFormat (format : jsstring) (pg : page) : page :=
  {| currentFiles := currentFiles pg; selectedFormat := format;
     previewContainer_hidden := previewContainer_hidden pg;
     fileListContainer_hidden := fileListContainer_hidden pg;
     fileListContainer_content := fileListContainer_content pg;
     resultContainer_hidden := resultContainer_hidden pg;
     qualityContainer_hidden := negb (bool_decide (format ∈ qualityFormats));
     dropZone_has_file := dropZone_has_file pg;
     convertBtn_disabled := convertBtn_disabled pg;
     downloadBtn_target := downloadBtn_target pg;
     resultInfo := resultInfo pg;
     page_log := page_log pg |}.

(** [s.split(sep)] for a separator of one code unit. *)
Fixpoint split_on (sep : Z) (s : jsstring) : list jsstring :=
  match s with
  | [] => [[]]
  | c :: s' =>
      if c =? sep then [] :: split_on sep s'
      else match split_on sep s' with
           | seg :: segs => (c :: seg) :: segs
           | [] => [[c]]
           end
  end.

(** [mimeType ? mimeType.split('/')[1] : ''], where a missing second part
    is [undefined]. *)
Definition currentFormat_of (mimeType : jsstring) : option jsstring :=
  match mimeType with
  | [] => Some []
  | _ :: _ => split_on 47 mimeType !! 1%nat
  end.

(** Lines 336-349, [autoSelectFormat]. *)
Definition autoSelectFormat (mimeType ext : jsstring) (pg : page) : page :=
  let currentFormat := currentFormat_of mimeType in
  if bool_decide (ext = js ".heic") || bool_decide (ext = js ".heif")
  then selectFormat (js "png") pg
  else if bool_decide (currentFormat = Some (js "jpeg"))
          || bool_decide (currentFormat = Some (js "jpg"))
  then selectFormat (js "png") pg
  else selectFormat (js "jpg") pg.

(** Lines 718-726, [reset]. The content of the list container stays as it
    is, hidden. *)
Definition reset (pg : page) : page :=
  {| currentFiles := []; selectedFormat := selectedFormat pg;
     previewContainer_hidden := true;
     fileListContainer_hidden := true;
     fileListContainer_content := fileListContainer_content pg;
     resultContainer_hidden := true;
     qualityContainer_hidden := qualityContainer_hidden pg;
     dropZone_has_file := false;
     convertBtn_disabled := true;
     downloadBtn_target := downloadBtn_target pg;
     resultInfo := resultInfo pg;
     page_log := page_log pg |}.

(** Lines 318-328, [removeFile]: [splice(index, 1)] takes the file at
    [index] out, or nothing when there is none; then the page shows what is
    left. *)
Definition removeFile (index : nat) (pg : page) : page :=
  let pg := set_currentFiles (delete index (currentFiles pg)) pg in
  if (length (currentFiles pg) =? 0)%nat then reset pg
  else if (length (currentFiles pg) =? 1)%nat then showSingleFilePreview pg
  else showFileList (currentFiles pg) None pg.

Definition validTypes : list jsstring :=
  [js "image/png"; js "image/jpeg"; js "image/webp"; js "image/gif";
   js "image/bmp"; js "image/tiff"; js "image/heic"; js "image/heif"].

Definition validExtensions : list jsstring :=
  [js ".png"; js ".jpg"; js ".jpeg"; js ".webp"; js ".gif"; js ".bmp";
   js ".tiff"; js ".tif"; js ".heic"; js ".heif"].

(** ** The tasks and the world *)

(** An [async] call that is suspended at a request, with the values of its
    local variables, or that has returned. [convertImage] awaits the answer
    of [/api/image/convert] for the file it sent; the loop of
    [convertBulkWithProgress] awaits the answer for [file = currentFiles[i]],
    with the results and the error count it has so far. A call that has
    returned keeps the last values of its variables. *)
Inductive task : Type :=
  | SingleAwaiting (f : file)
  | BulkAwaiting (i : nat) (f : file) (convertedImages : list image)
                 (errorCount : nat)
  | SingleSettled
  | BulkSettled (convertedImages : list image) (errorCount : nat).

Record world : Type := World {
  page_of : page;
  tasks : list task          (* by the order in which they were started *)
}.

(** What the page can be given to handle: a drop or a choice of files, a
    click on the remove button of an item (or a call of
    [window.removeImageFile], with the position of an item), a click on a
    format button, a click on the convert button, a call of
    [window.resetImageConverter], and the answer to the request of a
    suspended task, by which the response has arrived and its body has been
    read. *)
Inductive input : Type :=
  | Drop (files : list file)
  | Remove (index : nat)
  | ChooseFormat (format : jsstring)
  | Click
  | Reset
  | Answer (id : nat).

Definition on_page (handler : page -> page) (w : world) : world :=
  {| page_of := handler (page_of w); tasks := tasks w |}.

(** A call that runs to its first [await] and is then suspended, and a
    suspended call that goes on to its next [await] or to its return. *)
Definition spawn (call : page * task) (w : world) : world :=
  {| page_of := call.1; tasks := tasks w ++ [call.2] |}.

Definition resume (id : nat) (call : page * task) (w : world) : world :=
  {| page_of := call.1; tasks := <[id := call.2]> (tasks w) |}.

(** Lines 565-600, after the loop: the results are packaged if there are
    any. The second component is the exception of the writer, which
    the function does not catch. The writer has no [await] of its own, so
    the [await] of line 566 waits for a call that has already returned, as
    does the one of line 416 when the run returns: their continuations run
    before the page handles another event. *)
Definition after_loop (convertedImages : list image) (errorCount : nat)
    (pg : page) : page * option exception :=
  if (0 <? length convertedImages)%nat then
    let pg := log_event (CreateZip convertedImages) pg in
    match createZipFromBase64Images convertedImages with
    | Ok zipBlob =>
        let pg := set_result (ZipArchive zipBlob)
                    (BulkResult (length convertedImages) errorCount) pg in
        let pg := set_resultContainer_hidden false pg in
        (showToast (ImagesConverted (length convertedImages)) pg, None)
    | Throw e => (pg, Some e)
    end
  else
    (showToast NoImagesCouldBeConverted pg, None).

(** Lines 488-501, the [catch] and the [finally] of [convertImage]. *)
Definition catch_finally (thrown : option caught) (pg : page) : page :=
  let pg :=
    match thrown with
    | Some c => showToast (ErrorMessage c) pg
    | None => pg
    end in
  set_convertBtn_disabled false pg.

(** Lines 528-533 and 535-541, the head of an iteration: the test
    [i < currentFiles.length] and the read of [currentFiles[i]], both on the
    list as it is now; then the item is marked and the request is sent, with
    the file, the selected format and the quality (the log keeps the
    position and the file; the text of the button is left out). When the
    test fails the function goes on after the loop and returns into the
    [try] of [convertImage], its one caller. *)
Definition loop_from (i : nat) (convertedImages : list image)
    (errorCount : nat) (pg : page) : page * task :=
  match currentFiles pg !! i with
  | Some f =>
      let pg := updateFileStatus i Status.converting pg in
      let pg := log_event (Fetch i f) pg in
      (pg, BulkAwaiting i f convertedImages errorCount)
  | None =>
      let '(pg, thrown) := after_loop convertedImages errorCount pg in
      (catch_finally (WriterError <$> thrown) pg,
       BulkSettled convertedImages errorCount)
  end.

(** Lines 507-526, [convertBulkWithProgress] from its call to its first
    request. *)
Definition convertBulkWithProgress (pg : page) : page * task :=
  let statuses := map (fun _ => Status.pending) (currentFiles pg) in
  let pg := showFileList (currentFiles pg) (Some statuses) pg in
  loop_from 0 [] 0 pg.

(** Lines 543-561, the rest of iteration [i] once the request is answered
    and the body read, followed by the head of the next iteration. Between
    the two awaits of an iteration the function touches nothing of the page,
    so what the page handles between them is as if handled before the
    first. *)
Definition loop_continues (i : nat) (convertedImages : list image)
    (errorCount : nat) (r : reply) (pg : page) : page * task :=
  match r with
  | Converted result =>
      loop_from (S i) (convertedImages ++ [result]) errorCount
                (updateFileStatus i Status.done pg)
  | Failed =>
      loop_from (S i) convertedImages (S errorCount)
                (updateFileStatus i Status.error pg)
  end.

(** Lines 438-486, the single conversion once its request is answered:
    [currentFiles[0]] is read again for the name of the download, and is
    [undefined] when nothing is selected any more. *)
Definition single_continues (ok : bool) (pg : page) : page * task :=
  if ok then
    match currentFiles pg with
    | f :: _ =>
        let pg := set_result (ConvertedFile (file_name f) (selectedFormat pg))
                             SingleResult pg in
        let pg := set_resultContainer_hidden false pg in
        let pg := showToast ImageConverted pg in
        (catch_finally None pg, SingleSettled)
    | [] => (catch_finally (Some NoFileSelected) pg, SingleSettled)
    end
  else (catch_finally (Some EndpointError) pg, SingleSettled).

(** Lines 403-436, [convertImage] from the click to its first [await]. *)
Definition convertImage (w : world) : world :=
  let pg := page_of w in
  match currentFiles pg with
  | [] => on_page (showToast SelectFirst) w
  | first :: _ =>
      let pg := set_convertBtn_disabled true pg in
      if (1 <? length (currentFiles pg))%nat
      then spawn (convertBulkWithProgress pg) w
      else spawn (log_event (ConvertRequest first) pg, SingleAwaiting first) w
  end.

Section EventLoop.
(** [String.prototype.toLowerCase], which the module applies to the last
    part of a file name. *)
Variable toLowerCase : jsstring -> jsstring.

(** What the two endpoints answer: the bulk endpoint to the file sent from
    position [i], the single endpoint to the file sent ([true] for an ok
    response whose body is read). *)
Variable gateway : nat -> file -> reply.
Variable single_gateway : file -> bool.

(** ['.' + name.split('.').pop().toLowerCase()]. *)
Definition extension_of (name : jsstring) : jsstring :=
  46 :: toLowerCase (List.last (split_on 46 name) []).

Definition is_valid_file (f : file) : bool :=
  bool_decide (file_type f ∈ validTypes)
  || bool_decide (extension_of (file_name f) ∈ validExtensions).

(** Lines 96-133, [handleFiles]. *)
Definition handleFiles (files : list file) (pg : page) : page :=
  let validFiles := List.filter is_valid_file files in
  match validFiles with
  | [] => showToast SelectValidFiles pg
  | firstFile :: _ =>
      let pg := set_currentFiles validFiles pg in
      let pg :=
        if (length (currentFiles pg) =? 1)%nat then showSingleFilePreview pg
        else showFileList (currentFiles pg) None pg in
      let pg := set_resultContainer_hidden true pg in
      let pg := set_convertBtn_disabled false pg in
      autoSelectFormat (file_type firstFile)
                       (extension_of (file_name firstFile)) pg
  end.

(** Lines 80-91, [handleDrop] and [handleFileSelect]: an empty list of
    files is ignored. *)
Definition handleDrop (files : list file) (pg : page) : page :=
  match files with
  | [] => pg
  | _ :: _ => handleFiles files pg
  end.

(** One turn of the event loop. A disabled button gets no click; an answer
    for a call that is not waiting for one does not occur. *)
Definition step (inp : input) (w : world) : world :=
  match inp with
  | Drop files => on_page (handleDrop files) w
  | Remove index => on_page (removeFile index) w
  | ChooseFormat format => on_page (selectFormat format) w
  | Click => if convertBtn_disabled (page_of w) then w else convertImage w
  | Reset => on_page reset w
  | Answer id =>
      match tasks w !! id with
      | Some (BulkAwaiting i f convertedImages errorCount) =>
          resume id (loop_continues i convertedImages errorCount
                                    (gateway i f) (page_of w)) w
      | Some (SingleAwaiting f) =>
          resume id (single_continues (single_gateway f) (page_of w)) w
      | _ => w
      end
  end.

(** The inputs of a list, handled one after the other, the oldest first. *)
Definition run (inputs : list input) (w : world) : world :=
  fold_left (fun w inp => step inp w) inputs w.
End EventLoop.

(** A call of [convertBulkWithProgress] in a world: the new task is the
    last of the table. *)
Definition call_convertBulkWithProgress (w : world) : world :=
  spawn (convertBulkWithProgress (page_of w)) w.

(** ** Observations *)

(** The requests sent to the bulk endpoint, the files sent to either
    endpoint, the calls of the ZIP writer and the toasts, oldest first. *)
Definition fetches (log : list event) : list (nat * file) :=
  omap (fun ev => match ev with Fetch i f => Some (i, f) | _ => None end) log.

Definition requested (log : list event) : list file :=
  omap (fun ev => match ev with
                  | Fetch _ f | ConvertRequest f => Some f
                  | _ => None
                  end) log.

Definition zip_calls (log : list event) : list (list image) :=
  omap (fun ev => match ev with CreateZip imgs => Some imgs | _ => None end) log.

Definition toasts (log : list event) : list toast :=
  omap (fun ev => match ev with ShowToast m => Some m | _ => None end) log.

(** No suspended run holds a result. *)
Definition no_result_pending (w : world) : Prop :=
  forall id i f convertedImages errorCount,
    tasks w !! id = Some (BulkAwaiting i f convertedImages errorCount) ->
    convertedImages = [].

(** The page shows what is selected: nothing and a disabled button without
    files, the preview for one file, the list for more, with one item per
    file when the names are text. *)
Definition view_matches_selection (pg : page) : Prop :=
  match currentFiles pg with
  | [] =>
      previewContainer_hidden pg = true
      /\ fileListContainer_hidden pg = true
      /\ dropZone_has_file pg = false
      /\ convertBtn_disabled pg = true
  | [_] =>
      previewContainer_hidden pg = false
      /\ fileListContainer_hidden pg = true
      /\ dropZone_has_file pg = true
  | _ :: _ :: _ =>
      previewContainer_hidden pg = true
      /\ fileListContainer_hidden pg = false
      /\ dropZone_has_file pg = true
      /\ match fileListContainer_content pg with
         | Items _ items => length items = length (currentFiles pg)
         | Markup => True
         end
  end.

(** The quality slider is shown exactly for the formats that have one. *)
Definition quality_matches_format (pg : page) : Prop :=
  qualityContainer_hidden pg
  = negb (bool_decide (selectedFormat pg ∈ qualityFormats)).

(** ** The claims about the run, as they are stated *)

(** The ordering claim, for the run [id] on the list [fs]: its results are
    the gateway's conversions of the files of [fs] that it converts, in the
    order of [fs], and when there are any, the archive behind the download
    button is made of their entries, emitted in the same order. *)
Definition results_keep_input_order (gateway : nat -> file -> reply)
    (fs : list file) (id : nat) (w : world) : Prop :=
  let results := omap converted_image (replies gateway fs) in
  (exists failed, tasks w !! id = Some (BulkSettled results failed))
  /\ (results <> [] ->
      exists es,
        Forall2 (fun img e => decode_image img = Ok e) results es
        /\ downloadBtn_target (page_of w)
           = Some (ZipArchive (concat (map local_part es) ++ index_region es
                                 ++ trailer_of es))).



(** ** Example files, pages and endpoints *)

(** The ASCII part of [toLowerCase]: A to Z become a to z. It stands for
    [String.prototype.toLowerCase] on names written in ASCII. *)
Definition ascii_toLowerCase (s : jsstring) : jsstring :=
  map (fun c => if (65 <=? c) && (c <=? 90) then c + 32 else c) s.

Definition png_file : file := BrowserFile (js "a.PNG") (js "image/png") 10.
Definition jpg_file : file := BrowserFile (js "b.jpg") (js "image/jpeg") 20.
Definition gif_file : file := BrowserFile (js "c.gif") (js "image/gif") 30.
Definition text_file : file := BrowserFile (js "notes.txt") (js "text/plain") 40.

(** The page as [reset] leaves it, with jpg selected as at load time. *)
Definition empty_page : page :=
  {| currentFiles := []; selectedFormat := js "jpg";
     previewContainer_hidden := true; fileListContainer_hidden := true;
     fileListContainer_content := Items None [];
     resultContainer_hidden := true; qualityContainer_hidden := false;
     dropZone_has_file := false; convertBtn_disabled := true;
     downloadBtn_target := None; resultInfo := None; page_log := [] |}.

Definition empty_world : world := {| page_of := empty_page; tasks := [] |}.

(** The world after a drop of the given files on the empty page. *)
Definition selected (files : list file) : world :=
  step ascii_toLowerCase (fun _ _ => Failed) (fun _ => false)
       (Drop files) empty_world.

(** A bulk endpoint that answers the first position with x.txt, fails on the
    second and answers every other with y.txt. *)
Definition second_fails (i : nat) (f : file) : reply :=
  match i with
  | 0%nat => Converted x_txt
  | 1%nat => Failed
  | _ => Converted y_txt
  end.

Definition never_converts (i : nat) (f : file) : reply := Failed.

(** A bulk endpoint that converts every file: the payload is the base64 of
    [hello], the name is the name of the file. *)
Definition always_converts (i : nat) (f : file) : reply :=
  Converted (Image (js "aGVsbG8=") (file_name f)).

(** A bulk endpoint whose second answer carries a payload that is not
    base64. *)
Definition bad_second (i : nat) (f : file) : reply :=
  match i with
  | 0%nat => Converted x_txt
  | _ => Converted (Image (js "%") (js "bad.png"))
  end.


(** ** A run that nothing interrupts, in closed form

    What the page holds while the loop of a run on the list [fs] waits for
    the answer from position [k], and when it leaves the loop, if the page
    handles nothing else in between. *)

Definition items_waiting (rs : list reply) (k n : nat) : list Status.t :=
  map status_of_reply (take k rs)
  ++ Status.converting :: replicate (n - S k) Status.pending.

Definition content_of (fs : list file) (items : list Status.t) : file_list :=
  if plain_names fs
  then Items (Some (ConvertedOf (length (List.filter is_done items))
                                (length fs))) items
  else Markup.

Definition fetch_events (requests : list (nat * file)) : list event :=
  map (fun p : nat * file => Fetch p.1 p.2) requests.

Definition page_in_loop (pg : page) (content : file_list)
    (requests : list (nat * file)) : page :=
  {| currentFiles := currentFiles pg; selectedFormat := selectedFormat pg;
     previewContainer_hidden := true;
     fileListContainer_hidden := false;
     fileListContainer_content := content;
     resultContainer_hidden := resultContainer_hidden pg;
     qualityContainer_hidden := qualityContainer_hidden pg;
     dropZone_has_file := true;
     convertBtn_disabled := convertBtn_disabled pg;
     downloadBtn_target := downloadBtn_target pg;
     resultInfo := resultInfo pg;
     page_log := page_log pg ++ fetch_events requests |}.

Definition page_waiting (gateway : nat -> file -> reply) (pg : page)
    (k : nat) : page :=
  let fs := currentFiles pg in
  page_in_loop pg
    (content_of fs (items_waiting (replies gateway fs) k (length fs)))
    (take (S k) (indexed 0 fs)).

Definition page_at_loop_exit (gateway : nat -> file -> reply) (pg : page)
  : page :=
  let fs := currentFiles pg in
  page_in_loop pg (content_of fs (map status_of_reply (replies gateway fs)))
               (indexed 0 fs).

(** The page when the run has returned into [convertImage] and that has
    returned too. *)
Definition page_after_run (gateway : nat -> file -> reply) (pg : page)
  : page :=
  let rs := replies gateway (currentFiles pg) in
  let packaged :=
    after_loop (omap converted_image rs) (length (List.filter is_failed rs))
               (page_at_loop_exit gateway pg) in
  catch_finally (WriterError <$> packaged.2) packaged.1.

(** The inputs that leave [currentFiles] as it is: all but a drop, a
    removal and a reset. *)
Definition keeps_selection (inp : input) : bool :=
  match inp with
  | Drop _ | Remove _ | Reset => false
  | ChooseFormat _ | Click | Answer _ => true
  end.

Definition is_answer_to (id : nat) (inp : input) : bool :=
  match inp with
  | Answer id' => (id' =? id)%nat
  | _ => false
  end.

(** The number of answers to the requests of the task [id]. *)
Definition answers_to (id : nat) (inputs : list input) : nat :=
  length (List.filter (is_answer_to id) inputs).

(** Where the run [id] on the list [fs] is after [k] answers, when it has
    met the list [fs] at every iteration: at the request of position [k], or
    past the loop, with the converted replies of the positions before [k] as
    its results and the failed ones counted. *)
Definition run_is_at (gateway : nat -> file -> reply) (fs : list file)
    (id k : nat) (w : world) : Prop :=
  let rs := replies gateway fs in
  let results := omap converted_image (take k rs) in
  let failed := length (List.filter is_failed (take k rs)) in
  currentFiles (page_of w) = fs
  /\ tasks w !! id
     = Some match fs !! k with
            | Some f => BulkAwaiting k f results failed
            | None => BulkSettled results failed
            end.



(** A task that waits for an answer. *)
Definition is_awaiting (t : task) : bool :=
  match t with
  | SingleAwaiting _ | BulkAwaiting _ _ _ _ => true
  | SingleSettled | BulkSettled _ _ => false
  end.

(** ** Example runs *)

(** Three files that the gateway converts, all three; the run is started
    with a click, and the third file is removed from the list while the
    second is being converted. *)
Definition interrupted_run : world :=
  run ascii_toLowerCase always_converts (fun _ => true)
      [Click; Answer 0; Remove 2; Answer 0]
      (selected [png_file; jpg_file; gif_file]).

(** Two files; the answer for the second carries a payload that is not
    base64. *)
Definition bad_payload_run : world :=
  run ascii_toLowerCase bad_second (fun _ => true)
      [Click; Answer 0; Answer 0]
      (selected [png_file; jpg_file]).




(** * Proofs *)

(** ** The records the writer builds *)

Lemma store_Ok buf off bs :
  (off + length bs <= length buf)%nat ->
  store buf off bs = Ok (take off buf ++ bs ++ drop (off + length bs) buf).
Proof.
  intros H. unfold store.
  destruct (Nat.leb_spec (off + length bs) (length buf)); [done | lia].
Qed.

(** After the fixed-width fields are in place, the name overwrites the
    zero-filled tail of the buffer. *)
Ltac finish_header Hl :=
  unfold Uint8Array_set; rewrite drop_0, store_Ok by (simpl; lia);
  simpl; rewrite (drop_ge _ _) by lia; by rewrite app_nil_r.

Lemma localHeader_of_Ok name size :
  localHeader_of name size = Ok (local_record name size).
Proof.
  unfold localHeader_of, ArrayBuffer, local_record.
  rewrite replicate_add.
  assert (Hl : length (replicate (length name) 0) = length name)
    by apply length_replicate.
  revert Hl. generalize (replicate (length name) 0). intros tl Hl.
  unfold setUint32, setUint16, le32, le16. cbn.
  finish_header Hl.
Qed.

Lemma centralHeader_of_Ok entry :
  centralHeader_of entry = Ok (central_record entry).
Proof.
  unfold centralHeader_of, ArrayBuffer, central_record.
  destruct entry as [off name size]; simpl Entry.filenameBytes.
  rewrite replicate_add.
  assert (Hl : length (replicate (length name) 0) = length name)
    by apply length_replicate.
  revert Hl. generalize (replicate (length name) 0). intros tl Hl.
  unfold setUint32, setUint16, le32, le16. cbn.
  finish_header Hl.
Qed.

Lemma endRecord_of_Ok n sz off :
  endRecord_of n sz off = Ok (trailer_record n sz off).
Proof. reflexivity. Qed.

Lemma length_local_record name size :
  length (local_record name size) = (30 + length name)%nat.
Proof. reflexivity. Qed.

Lemma length_central_record entry :
  length (central_record entry) = (46 + length (Entry.filenameBytes entry))%nat.
Proof. reflexivity. Qed.

Lemma length_trailer_record n sz off :
  length (trailer_record n sz off) = 22%nat.
Proof. reflexivity. Qed.

(** ** The writer computes the region-by-region layout *)

Arguments local_record : simpl never.
Arguments central_record : simpl never.
Arguments trailer_record : simpl never.

Lemma bind_Ok {A B} (a : A) (k : A -> result B) : Ok a ≫= k = k a.
Proof. reflexivity. Qed.

Lemma total_cons {A} (f : A -> Z) a l : total f (a :: l) = f a + total f l.
Proof. reflexivity. Qed.

Lemma total_app {A} (f : A -> Z) l1 l2 :
  total f (l1 ++ l2) = total f l1 + total f l2.
Proof. induction l1 as [|a l1 IH]; simpl; [done | rewrite IH; lia]. Qed.

Lemma add_image_decode st img :
  add_image st img =
  decode_image img ≫= fun e =>
    Ok {| zipParts := zipParts st
                        ++ [local_record (name e) (content_size e); content e];
          offset := offset st + local_span e;
          centralDirectory :=
            centralDirectory st
              ++ [Entry.Make (offset st) (name e) (content_size e)] |}.
Proof.
  unfold add_image, decode_image.
  destruct (atob (data img)) as [s|err]; [|done].
  rewrite !bind_Ok, localHeader_of_Ok, bind_Ok.
  simpl name; simpl content. unfold local_span, content_size; simpl name.
  rewrite length_local_record. do 2 f_equal. simpl content. lia.
Qed.

Lemma local_loop_layout images st :
  for_of add_image images st =
  decode_images images ≫= fun es =>
    Ok {| zipParts := zipParts st
                        ++ concat (map (fun e => [local_record (name e)
                                                    (content_size e);
                                                  content e]) es);
          offset := offset st + total local_span es;
          centralDirectory :=
            centralDirectory st ++ directory_from (offset st) es |}.
Proof.
  revert st. induction images as [|img images IH]; intros st.
  - simpl. rewrite !app_nil_r, Z.add_0_r. by destruct st.
  - cbn [for_of decode_images]. rewrite add_image_decode.
    destruct (decode_image img) as [e|err]; [|done].
    rewrite !bind_Ok, IH. simpl.
    destruct (decode_images images) as [es|err]; [|done].
    rewrite !bind_Ok. simpl.
    rewrite <- !app_assoc. simpl. do 2 f_equal. lia.
Qed.

Lemma add_central_Ok st entry :
  add_central st entry =
  Ok {| zipParts := zipParts st ++ [central_record entry];
        offset := offset st
                  + (46 + Z.of_nat (length (Entry.filenameBytes entry)));
        centralDirectory := centralDirectory st |}.
Proof.
  unfold add_central. rewrite centralHeader_of_Ok, bind_Ok.
  rewrite length_central_record. do 2 f_equal. lia.
Qed.

Lemma central_loop_layout cds st :
  for_of add_central cds st =
  Ok {| zipParts := zipParts st ++ map central_record cds;
        offset := offset st
                  + total (fun en => 46 + Z.of_nat (length (Entry.filenameBytes en))) cds;
        centralDirectory := centralDirectory st |}.
Proof.
  revert st. induction cds as [|en cds IH]; intros st.
  - simpl. rewrite app_nil_r, Z.add_0_r. by destruct st.
  - cbn [for_of]. rewrite add_central_Ok, !bind_Ok, IH.
    simpl. rewrite <- app_assoc. simpl. do 2 f_equal. lia.
Qed.

Lemma total_directory_from cursor es :
  total (fun en => 46 + Z.of_nat (length (Entry.filenameBytes en)))
        (directory_from cursor es) = total index_span es.
Proof.
  revert cursor. induction es as [|e es IH]; intros cursor; simpl; [done|].
  rewrite IH. reflexivity.
Qed.

Lemma length_directory_from cursor es :
  length (directory_from cursor es) = length es.
Proof.
  revert cursor. induction es as [|e es IH]; intros cursor; simpl; [done|].
  by rewrite IH.
Qed.

Lemma concat_pairs es :
  concat (concat (map (fun e => [local_record (name e) (content_size e);
                                 content e]) es)) = entries_region es.
Proof.
  unfold entries_region, local_part.
  induction es as [|e es IH]; simpl; [done|].
  rewrite IH. by rewrite app_assoc.
Qed.

Theorem createZipFromBase64Images_layout images :
  createZipFromBase64Images images =
  decode_images images ≫= fun es => Ok (archive_of es).
Proof.
  unfold createZipFromBase64Images, local_pass.
  rewrite local_loop_layout.
  destruct (decode_images images) as [es|err]; [|done].
  rewrite !bind_Ok. cbn [zipParts offset centralDirectory].
  rewrite central_loop_layout, bind_Ok.
  cbn [zipParts offset centralDirectory]. rewrite endRecord_of_Ok, bind_Ok.
  unfold Blob, archive_of, index_region, trailer_of.
  rewrite !concat_app, concat_pairs. cbn [concat app].
  rewrite app_nil_r, total_directory_from, length_directory_from.
  rewrite <- app_assoc. do 4 f_equal. lia.
Qed.

Lemma length_indexed {A} (l : list A) i : length (indexed i l) = length l.
Proof. revert i. induction l; intros i; simpl; [done | by f_equal]. Qed.



Lemma decode_images_Forall2 images es :
  decode_images images = Ok es ->
  Forall2 (fun img e => decode_image img = Ok e) images es.
Proof.
  revert es. induction images as [|img images IH]; intros es; simpl.
  - intros [= <-]. constructor.
  - destruct (decode_image img) as [e|err] eqn:He; [|done].
    destruct (decode_images images) as [es'|err] eqn:Hes; [|done].
    intros [= <-]. constructor; auto.
Qed.

Lemma decode_image_name img e :
  decode_image img = Ok e -> name e = TextEncoder_encode (filename img).
Proof.
  unfold decode_image. destruct (atob (data img)); [|done]. by intros [= <-].
Qed.

Lemma decode_images_names images es :
  decode_images images = Ok es ->
  map name es = map (fun img => TextEncoder_encode (filename img)) images.
Proof.
  intros Hdec. apply decode_images_Forall2 in Hdec.
  induction Hdec as [|img e imgs es' He _ IH]; simpl; [done|].
  f_equal; [by apply decode_image_name | exact IH].
Qed.

(** ** Slices of a buffer *)

Lemma slice_Some buf (p n : nat) :
  (p + n <= length buf)%nat ->
  slice buf (Z.of_nat p) n = Some (take n (drop p buf)).
Proof.
  intros H. unfold slice. rewrite Nat2Z.id.
  destruct (Z.leb_spec 0 (Z.of_nat p)); [|lia].
  destruct (Z.leb_spec (Z.of_nat p + Z.of_nat n) (Z.of_nat (length buf)));
    [done | lia].
Qed.

Lemma slice_app_r pre buf pos n :
  0 <= pos ->
  slice (pre ++ buf) (Z.of_nat (length pre) + pos) n = slice buf pos n.
Proof.
  intros Hpos. unfold slice. rewrite length_app.
  replace (Z.to_nat (Z.of_nat (length pre) + pos))
    with (length pre + Z.to_nat pos)%nat by lia.
  rewrite drop_app_add.
  destruct (Z.leb_spec 0 pos); [|lia].
  destruct (Z.leb_spec 0 (Z.of_nat (length pre) + pos)); [|lia].
  simpl.
  destruct (Z.leb_spec (pos + Z.of_nat n) (Z.of_nat (length buf)));
    destruct (Z.leb_spec (Z.of_nat (length pre) + pos + Z.of_nat n)
                (Z.of_nat (length pre + length buf))); done || lia.
Qed.

Lemma slice_app_l buf post pos n :
  0 <= pos -> pos + Z.of_nat n <= Z.of_nat (length buf) ->
  slice (buf ++ post) pos n = slice buf pos n.
Proof.
  intros Hpos Hn. unfold slice. rewrite length_app.
  destruct (Z.leb_spec 0 pos); [|lia]. simpl.
  destruct (Z.leb_spec (pos + Z.of_nat n) (Z.of_nat (length buf))); [|lia].
  destruct (Z.leb_spec (pos + Z.of_nat n)
              (Z.of_nat (length buf + length post))); [|lia].
  f_equal. rewrite drop_app_le by lia. rewrite take_app_le; [done|].
  rewrite length_drop. lia.
Qed.

(** ** Little-endian fields *)

Lemma le_value_le16 v : 0 <= v < 65536 -> le_value (le16 v) = v.
Proof.
  intros H. unfold le_value, le16. simpl.
  rewrite (Z.mod_small (v / 256)) by (split; [apply Z.div_pos | apply Z.div_lt_upper_bound]; lia).
  pose proof (Z.div_mod v 256). lia.
Qed.

Lemma le_value_le32 v : 0 <= v < 4294967296 -> le_value (le32 v) = v.
Proof.
  intros H. unfold le_value, le32. simpl.
  pose proof (Z.div_mod v 256 ltac:(lia)).
  pose proof (Z.div_mod (v / 256) 256 ltac:(lia)).
  pose proof (Z.div_mod (v / 256 / 256) 256 ltac:(lia)).
  rewrite <- !(Z.div_div _ 256 256) by lia.
  change 65536 with (256 * 256). change 16777216 with (256 * 256 * 256).
  rewrite <- !Z.div_div by lia.
  rewrite (Z.mod_small (v / 256 / 256 / 256))
    by (split; [repeat apply Z.div_pos | repeat apply Z.div_lt_upper_bound]; lia).
  lia.
Qed.

Lemma ToUint16_range v : 0 <= ToUint16 v < 65536.
Proof. unfold ToUint16. apply Z.mod_pos_bound. lia. Qed.

Lemma ToUint32_range v : 0 <= ToUint32 v < 4294967296.
Proof. unfold ToUint32. apply Z.mod_pos_bound. lia. Qed.

Lemma ToUint32_small v : 0 <= v < 4294967296 -> ToUint32 v = v.
Proof. apply Z.mod_small. Qed.

(** ** Positions inside the archive *)

Lemma local_pass_layout images :
  local_pass images =
  decode_images images ≫= fun es =>
    Ok {| zipParts := local_parts es; offset := total local_span es;
          centralDirectory := directory_from 0 es |}.
Proof. unfold local_pass. by rewrite local_loop_layout. Qed.

Lemma local_span_pos e : 30 <= local_span e.
Proof. unfold local_span, content_size. lia. Qed.

Lemma total_local_span_nonneg es : 0 <= total local_span es.
Proof.
  induction es as [|e es IH]; simpl; [done|].
  pose proof (local_span_pos e). lia.
Qed.

Lemma total_index_span_nonneg es : 0 <= total index_span es.
Proof.
  induction es as [|e es IH]; [done|].
  rewrite total_cons. unfold index_span at 1. lia.
Qed.

Lemma length_local_part e : Z.of_nat (length (local_part e)) = local_span e.
Proof.
  unfold local_part, local_span, content_size.
  rewrite length_app, length_local_record. lia.
Qed.

Lemma length_entries_region es :
  Z.of_nat (length (entries_region es)) = total local_span es.
Proof.
  induction es as [|e es IH]; [done|].
  change (entries_region (e :: es)) with (local_part e ++ entries_region es).
  by rewrite total_cons, length_app, Nat2Z.inj_add, IH, length_local_part.
Qed.

Lemma entries_region_app es1 es2 :
  entries_region (es1 ++ es2) = entries_region es1 ++ entries_region es2.
Proof. unfold entries_region. by rewrite map_app, concat_app. Qed.

Lemma directory_from_app cursor es1 es2 :
  directory_from cursor (es1 ++ es2)
  = directory_from cursor es1
      ++ directory_from (cursor + total local_span es1) es2.
Proof.
  revert cursor. induction es1 as [|e es1 IH]; intros cursor; simpl.
  - by rewrite Z.add_0_r.
  - rewrite IH. do 3 f_equal. lia.
Qed.

Lemma length_index_records cursor es :
  Z.of_nat (length (concat (map central_record (directory_from cursor es))))
  = total index_span es.
Proof.
  revert cursor. induction es as [|e es IH]; intros cursor; [done|].
  cbn [directory_from map concat].
  rewrite total_cons, length_app, Nat2Z.inj_add, IH, length_central_record.
  cbn [Entry.filenameBytes]. unfold index_span at 2. lia.
Qed.

Lemma take_directory_from cursor es k :
  take k (directory_from cursor es) = directory_from cursor (take k es).
Proof.
  revert cursor k. induction es as [|e es IH]; intros cursor [|k]; simpl;
    try done. by rewrite IH.
Qed.

Lemma directory_from_lookup cursor es k entry :
  directory_from cursor es !! k = Some entry ->
  exists e, es !! k = Some e
            /\ entry = Entry.Make (cursor + total local_span (take k es))
                                  (name e) (content_size e).
Proof.
  revert cursor k. induction es as [|e es IH]; intros cursor [|k]; simpl;
    try done.
  - intros [= <-]. exists e. by rewrite Z.add_0_r.
  - intros H. apply IH in H as (e' & He' & ->). exists e'. split; [done|].
    f_equal. lia.
Qed.

Lemma take_local_parts es k :
  Blob (take (2 * k) (local_parts es)) = entries_region (take k es).
Proof.
  unfold Blob, local_parts, entries_region, local_part.
  revert k. induction es as [|e es IH]; intros [|k]; try done.
  replace (2 * S k)%nat with (S (S (2 * k))) by lia.
  cbn [map concat app take]. rewrite IH, <- app_assoc. done.
Qed.

Lemma local_parts_lookup es k e :
  es !! k = Some e ->
  local_parts es !! (2 * k)%nat
  = Some (local_record (name e) (content_size e)).
Proof.
  unfold local_parts.
  revert k. induction es as [|e' es IH]; intros [|k]; try done.
  - by intros [= ->].
  - intros He. replace (2 * S k)%nat with (S (S (2 * k))) by lia.
    cbn [map concat app lookup list_lookup]. by apply IH.
Qed.

(** Every entry takes room, so the running total grows from one entry to
    the next. *)
Lemma total_take_lt es i j e :
  es !! i = Some e -> (i < j)%nat ->
  total local_span (take i es) + local_span e <= total local_span (take j es).
Proof.
  revert i j. induction es as [|e' es IH]; intros [|i] [|j]; simpl;
    try done; try lia.
  - intros [= ->] _. pose proof (total_local_span_nonneg (take j es)). lia.
  - intros He Hij. specialize (IH i j He ltac:(lia)). lia.
Qed.

(** The archive cut around entry [k]: what precedes its local header, the
    header and content, the rest of the entries, what precedes its index
    record, the record, the rest. *)
Lemma archive_of_split es k e :
  es !! k = Some e ->
  archive_of es =
  entries_region (take k es)
    ++ (local_part e ++ entries_region (drop (S k) es))
    ++ concat (map central_record (directory_from 0 (take k es)))
    ++ (central_record (Entry.Make (total local_span (take k es)) (name e)
                                   (content_size e))
          ++ concat (map central_record
                       (directory_from (total local_span (take (S k) es))
                                       (drop (S k) es))))
    ++ trailer_of es.
Proof.
  intros He. unfold archive_of, index_region.
  rewrite <- (take_drop_middle es k e He) at 1 2.
  rewrite entries_region_app, directory_from_app. simpl directory_from.
  rewrite map_app, concat_app. simpl.
  rewrite <- !app_assoc. unfold entries_region at 2. simpl.
  rewrite <- !app_assoc. fold (entries_region (drop (S k) es)).
  rewrite (take_S_r es k e He), total_app. simpl.
  rewrite !Z.add_0_r. reflexivity.
Qed.

Lemma total_local_span_middle es k e :
  es !! k = Some e ->
  total local_span es
  = total local_span (take k es) + local_span e
    + total local_span (drop (S k) es).
Proof.
  intros He. rewrite <- (take_drop_middle es k e He) at 1.
  rewrite total_app, total_cons. lia.
Qed.

(** What stands at the recorded positions of entry [k]: a local header
    signature at the running total, an index record signature at the start
    of its index record, and in that record's offset field the running total
    reduced to 32 bits. *)
Lemma archive_of_entry_fields es k e :
  es !! k = Some e ->
  let start := total local_span (take k es) in
  let record := total local_span es + total index_span (take k es) in
  slice (archive_of es) start 4 = Some [80; 75; 3; 4]
  /\ slice (archive_of es) record 4 = Some [80; 75; 1; 2]
  /\ getUint32 (archive_of es) (record + 42) = Some (ToUint32 start).
Proof.
  intros He start record.
  rewrite (archive_of_split es k e He).
  set (P1 := entries_region (take k es)).
  set (P2 := local_part e ++ entries_region (drop (S k) es)).
  set (P3 := concat (map central_record (directory_from 0 (take k es)))).
  set (T := trailer_of es).
  assert (H1 : Z.of_nat (length P1) = start)
    by apply length_entries_region.
  assert (H2 : Z.of_nat (length (P1 ++ P2 ++ P3)) = record).
  { unfold record, P1, P2, P3.
    rewrite !length_app, !Nat2Z.inj_add, !length_entries_region,
      length_local_part, length_index_records.
    rewrite (total_local_span_middle es k e He). lia. }
  split; [|split].
  - replace start with (Z.of_nat (length P1) + 0) by lia.
    rewrite slice_app_r by lia. unfold P2, local_part.
    rewrite <- !app_assoc. unfold local_record.
    rewrite (slice_Some _ 0 4) by (simpl; lia). reflexivity.
  - rewrite !(app_assoc P1), !(app_assoc (P1 ++ P2)), <- (app_assoc P1 P2 P3).
    replace record with (Z.of_nat (length (P1 ++ P2 ++ P3)) + 0) by lia.
    rewrite slice_app_r by lia. unfold central_record.
    rewrite <- !app_assoc.
    rewrite (slice_Some _ 0 4) by (simpl; lia). reflexivity.
  - rewrite !(app_assoc P1), !(app_assoc (P1 ++ P2)), <- (app_assoc P1 P2 P3).
    rewrite <- H2. unfold getUint32.
    rewrite slice_app_r by lia. unfold central_record.
    rewrite <- !app_assoc.
    rewrite (slice_Some _ 42 4) by (simpl; lia).
    cbn [fmap option_fmap option_map Entry.offset].
    f_equal. apply le_value_le32, ToUint32_range.
Qed.

(** The first loop and the whole writer succeed together, on the decoded
    entries. *)
Lemma local_pass_Ok images st :
  local_pass images = Ok st ->
  exists es, decode_images images = Ok es
             /\ st = {| zipParts := local_parts es;
                        offset := total local_span es;
                        centralDirectory := directory_from 0 es |}.
Proof.
  rewrite local_pass_layout.
  destruct (decode_images images) as [es|err]; [|done].
  intros [= <-]. by exists es.
Qed.

Lemma createZipFromBase64Images_Ok images buf :
  createZipFromBase64Images images = Ok buf ->
  exists es, decode_images images = Ok es /\ buf = archive_of es.
Proof.
  rewrite createZipFromBase64Images_layout.
  destruct (decode_images images) as [es|err]; [|done].
  intros [= <-]. by exists es.
Qed.

(** ** Payloads of any size *)

Lemma filter_replicate_A m :
  List.filter (fun c => negb (is_ascii_whitespace c)) (replicate m 65)
  = replicate m 65.
Proof. induction m as [|m IH]; [done|]. cbn [replicate List.filter]. by rewrite IH. Qed.

Lemma rev_replicate {A} m (x : A) : rev (replicate m x) = replicate m x.
Proof.
  induction m as [|m IH]; [done|].
  rewrite replicate_S_end at 2. cbn [replicate rev]. by rewrite IH.
Qed.

Lemma strip_padding_replicate_A m :
  strip_padding (replicate m 65) = replicate m 65.
Proof.
  unfold strip_padding. rewrite rev_replicate.
  destruct (Nat.eqb _ _); [|done]. by destruct m.
Qed.

Lemma b64_values_replicate_A m :
  b64_values (replicate m 65) = Some (replicate m 0).
Proof.
  induction m as [|m IH]; [done|]. cbn [replicate b64_values].
  rewrite IH. reflexivity.
Qed.

Lemma b64_bytes_replicate_0 n :
  b64_bytes (replicate (4 * n) 0) = replicate (3 * n) 0.
Proof.
  induction n as [|n IH]; [done|].
  replace (4 * S n)%nat with (S (S (S (S (4 * n))))) by lia.
  replace (3 * S n)%nat with (S (S (S (3 * n)))) by lia.
  cbn [replicate b64_bytes]. rewrite IH. reflexivity.
Qed.

Lemma atob_replicate_A n :
  atob (replicate (4 * n) 65) = Ok (replicate (3 * n) 0).
Proof.
  unfold atob.
  rewrite filter_replicate_A, strip_padding_replicate_A, length_replicate.
  rewrite (Nat.mul_comm 4 n), Nat.Div0.mod_mul. cbn [Nat.eqb].
  rewrite (Nat.mul_comm n 4), b64_values_replicate_A, b64_bytes_replicate_0.
  reflexivity.
Qed.

Lemma Uint8Array_of_charCodes_zeros m :
  Uint8Array_of_charCodes (replicate m 0) = replicate m 0.
Proof.
  unfold Uint8Array_of_charCodes.
  induction m as [|m IH]; [done|]. cbn [replicate map]. by rewrite IH.
Qed.

Lemma decode_images_app images1 images2 es1 es2 :
  decode_images images1 = Ok es1 ->
  decode_images images2 = Ok es2 ->
  decode_images (images1 ++ images2) = Ok (es1 ++ es2).
Proof.
  revert es1. induction images1 as [|img images1 IH]; intros es1.
  - intros [= <-] H2. exact H2.
  - cbn [decode_images app].
    destruct (decode_image img) as [e|err]; [|done]. rewrite bind_Ok.
    destruct (decode_images images1) as [es|err]; [|done].
    intros [= <-] H2. by rewrite (IH es eq_refl H2).
Qed.

Lemma decode_images_replicate img e n :
  decode_image img = Ok e ->
  decode_images (replicate n img) = Ok (replicate n e).
Proof.
  intros He. induction n as [|n IH]; [done|].
  cbn [replicate decode_images]. by rewrite He, IH.
Qed.

Lemma decode_zero_images m n :
  decode_images (zero_images m n)
  = Ok (replicate m (ArchiveEntry [97] (replicate (3 * n) 0))
          ++ [ArchiveEntry [98] []]).
Proof.
  assert (Hfirst : decode_image (Image (replicate (4 * n) 65) (js "a"))
                   = Ok (ArchiveEntry [97] (replicate (3 * n) 0))).
  { unfold decode_image. cbn [data filename].
    by rewrite atob_replicate_A, bind_Ok, Uint8Array_of_charCodes_zeros. }
  unfold zero_images. apply decode_images_app; [|reflexivity].
  by apply decode_images_replicate.
Qed.

Lemma total_replicate {A} (f : A -> Z) m a :
  total f (replicate m a) = Z.of_nat m * f a.
Proof.
  induction m as [|m IH]; [done|].
  cbn [replicate]. rewrite total_cons, IH. lia.
Qed.

Lemma large_entries :
  Z.of_nat 22 * (31 + Z.of_nat (3 * large)) = 4294967296 + 134218410.
Proof. unfold large. lia. Qed.

Lemma large_entry_bytes : Z.of_nat (3 * large) = 201326592.
Proof. unfold large. lia. Qed.

(** When the [m] entries before the last one take 2^32 + p bytes, the offset
    field of the last entry holds [p]; if [p] lies in the content of the
    first entry, the bytes there are content bytes. *)
Lemma zero_images_miss m n p :
  Z.of_nat m * (31 + Z.of_nat (3 * n)) = 4294967296 + p ->
  31 <= p < 4294967296 ->
  p + 4 <= 31 + Z.of_nat (3 * n) ->
  ~ index_offsets_hit_local_headers (zero_images m n).
Proof.
  intros Hm Hp Hin Hclaim.
  pose proof (decode_zero_images m n) as Hdec.
  set (e0 := ArchiveEntry [97] (replicate (3 * n) 0)) in *.
  set (e1 := ArchiveEntry [98] []) in *.
  set (es := replicate m e0 ++ [e1]) in *.
  assert (He : es !! m = Some e1).
  { unfold es. rewrite lookup_app_r by (rewrite length_replicate; lia).
    by rewrite length_replicate, Nat.sub_diag. }
  assert (Hspan : local_span e0 = 31 + Z.of_nat (3 * n)).
  { unfold local_span, content_size, e0. cbn [name content].
    rewrite length_replicate. simpl length. lia. }
  assert (Hstart : total local_span (take m es) = 4294967296 + p).
  { unfold es. rewrite take_app_length' by (by rewrite length_replicate).
    by rewrite total_replicate, Hspan. }
  specialize (Hclaim
    {| zipParts := local_parts es; offset := total local_span es;
       centralDirectory := directory_from 0 es |} (archive_of es)).
  rewrite local_pass_layout, createZipFromBase64Images_layout, Hdec in Hclaim.
  specialize (Hclaim eq_refl eq_refl m).
  destruct Hclaim as (q & Hq & Hsig).
  { cbn [centralDirectory]. rewrite length_directory_from. unfold es.
    rewrite length_app, length_replicate. simpl. lia. }
  unfold index_record_pos in Hq. cbn [offset centralDirectory] in Hq.
  rewrite take_directory_from, total_directory_from in Hq.
  destruct (archive_of_entry_fields es m e1 He) as (_ & _ & Ho).
  cbn zeta in Ho. rewrite Ho in Hq. injection Hq as <-.
  rewrite Hstart in Hsig.
  assert (Hwrap : ToUint32 (4294967296 + p) = p).
  { unfold ToUint32.
    replace (4294967296 + p) with (p + 1 * 4294967296) by lia.
    rewrite Z_mod_plus_full. apply Z.mod_small. lia. }
  rewrite Hwrap in Hsig.
  destruct m as [|m']; [lia|].
  assert (Hc : content e0
               = replicate (Z.to_nat (p - 31)) 0 ++ replicate 4 0
                   ++ replicate (3 * n - Z.to_nat (p - 31) - 4) 0).
  { unfold e0. cbn [content]. rewrite <- !replicate_add. f_equal. lia. }
  assert (Hcut : exists rest,
             archive_of es
             = (local_record [97] (content_size e0)
                  ++ replicate (Z.to_nat (p - 31)) 0)
               ++ replicate 4 0 ++ rest).
  { eexists. unfold archive_of, entries_region, es.
    cbn [replicate app map concat].
    unfold local_part at 1. rewrite Hc. change (name e0) with [97].
    rewrite <- !app_assoc. reflexivity. }
  destruct Hcut as [rest Hcut]. rewrite Hcut in Hsig.
  remember (local_record [97] (content_size e0)
              ++ replicate (Z.to_nat (p - 31)) 0) as pre eqn:Hpre.
  assert (Hlen : p = Z.of_nat (length pre) + 0).
  { rewrite Hpre, length_app, length_local_record, length_replicate.
    simpl length. lia. }
  rewrite Hlen, slice_app_r in Hsig by lia.
  rewrite slice_app_l in Hsig by (simpl; lia).
  discriminate Hsig.
Qed.

(** ** The trailer *)

Lemma length_archive_of es :
  Z.of_nat (length (archive_of es))
  = total local_span es + total index_span es + 22.
Proof.
  unfold archive_of, index_region, trailer_of.
  rewrite !length_app, !Nat2Z.inj_add, length_entries_region,
    length_index_records, length_trailer_record. lia.
Qed.

Lemma archive_of_trailer_fields es :
  let buf := archive_of es in
  let trailer := Z.of_nat (length buf) - 22 in
  slice buf trailer 4 = Some [80; 75; 5; 6]
  /\ getUint16 buf (trailer + 8) = Some (ToUint16 (Z.of_nat (length es)))
  /\ getUint16 buf (trailer + 10) = Some (ToUint16 (Z.of_nat (length es)))
  /\ getUint32 buf (trailer + 12) = Some (ToUint32 (total index_span es))
  /\ getUint32 buf (trailer + 16) = Some (ToUint32 (total local_span es))
  /\ getUint16 buf (trailer + 20) = Some 0
  /\ slice buf trailer 22 = Some (trailer_of es).
Proof.
  intros buf trailer.
  set (body := entries_region es ++ index_region es).
  assert (Hbuf : buf = body ++ trailer_of es).
  { unfold buf, archive_of, body. by rewrite <- app_assoc. }
  assert (Hpos : trailer = Z.of_nat (length body)).
  { unfold trailer. rewrite Hbuf, length_app.
    unfold trailer_of. rewrite length_trailer_record. lia. }
  rewrite Hbuf, Hpos. unfold getUint16, getUint32.
  replace (Z.of_nat (length body)) with (Z.of_nat (length body) + 0) at 1 7
    by lia.
  rewrite !slice_app_r by lia.
  unfold trailer_of, trailer_record.
  rewrite (slice_Some _ 0 4), (slice_Some _ 8 2), (slice_Some _ 10 2),
    (slice_Some _ 12 4), (slice_Some _ 16 4), (slice_Some _ 20 2),
    (slice_Some _ 0 22) by (simpl; lia).
  cbn [fmap option_fmap option_map].
  repeat split; try reflexivity; f_equal;
    (apply le_value_le16, ToUint16_range) || (apply le_value_le32, ToUint32_range).
Qed.

(** With 65536 entries both count fields of the trailer are zero. *)
Lemma trailer_counts_wrap n :
  Z.of_nat n = 65536 -> ~ trailer_counts_entries (replicate n empty_image).
Proof.
  intros Hn Hclaim.
  pose proof (decode_images_replicate empty_image (ArchiveEntry [] []) n
                eq_refl) as Hdec.
  specialize (Hclaim (archive_of (replicate n (ArchiveEntry [] [])))).
  rewrite createZipFromBase64Images_layout, Hdec in Hclaim.
  destruct (Hclaim eq_refl) as [Hcount _].
  destruct (archive_of_trailer_fields (replicate n (ArchiveEntry [] [])))
    as (_ & Hfield & _).
  cbn zeta in Hfield. rewrite Hfield in Hcount.
  rewrite !length_replicate, Hn in Hcount. discriminate Hcount.
Qed.

Lemma many_entries : Z.of_nat (Z.to_nat 65536) = 65536.
Proof. lia. Qed.

(** ** Checksum, size and name-length fields *)

(** In both records of entry [k] the checksum field is zero, the method is
    store, and the size and name-length fields hold the content size and the
    name length reduced to 32 and 16 bits. *)
Lemma archive_of_entry_sizes es k e :
  es !! k = Some e ->
  let buf := archive_of es in
  let start := total local_span (take k es) in
  let record := total local_span es + total index_span (take k es) in
  (getUint32 buf (start + 14) = Some 0
   /\ getUint32 buf (record + 16) = Some 0)
  /\ (getUint16 buf (start + 8) = Some 0
      /\ getUint16 buf (record + 10) = Some 0)
  /\ (getUint32 buf (start + 18) = Some (ToUint32 (content_size e))
      /\ getUint32 buf (start + 22) = Some (ToUint32 (content_size e))
      /\ getUint32 buf (record + 20) = Some (ToUint32 (content_size e))
      /\ getUint32 buf (record + 24) = Some (ToUint32 (content_size e)))
  /\ (getUint16 buf (start + 26)
      = Some (ToUint16 (Z.of_nat (length (name e))))
      /\ getUint16 buf (record + 28)
         = Some (ToUint16 (Z.of_nat (length (name e))))).
Proof.
  intros He buf start record. unfold buf.
  rewrite (archive_of_split es k e He).
  set (P1 := entries_region (take k es)).
  set (P2 := local_part e ++ entries_region (drop (S k) es)).
  set (P3 := concat (map central_record (directory_from 0 (take k es)))).
  set (T := trailer_of es).
  assert (H1 : start = Z.of_nat (length P1))
    by (symmetry; apply length_entries_region).
  assert (H2 : record = Z.of_nat (length (P1 ++ P2 ++ P3))).
  { unfold record, P1, P2, P3.
    rewrite !length_app, !Nat2Z.inj_add, !length_entries_region,
      length_local_part, length_index_records.
    rewrite (total_local_span_middle es k e He). lia. }
  assert (Hlocal : forall pos n,
             slice (P1 ++ P2 ++ P3 ++ (central_record
                      (Entry.Make (total local_span (take k es)) (name e)
                                  (content_size e))
                    ++ concat (map central_record
                         (directory_from (total local_span (take (S k) es))
                                         (drop (S k) es)))) ++ T)
                   (start + Z.of_nat pos) n
             = slice (P2 ++ P3 ++ (central_record
                      (Entry.Make (total local_span (take k es)) (name e)
                                  (content_size e))
                    ++ concat (map central_record
                         (directory_from (total local_span (take (S k) es))
                                         (drop (S k) es)))) ++ T)
                     (Z.of_nat pos) n).
  { intros pos n. rewrite H1. apply slice_app_r. lia. }
  assert (Hcentral : forall pos n rest,
             slice (P1 ++ P2 ++ P3 ++ rest) (record + Z.of_nat pos) n
             = slice rest (Z.of_nat pos) n).
  { intros pos n rest.
    rewrite !(app_assoc P1), !(app_assoc (P1 ++ P2)), <- (app_assoc P1 P2 P3).
    rewrite H2. apply slice_app_r. lia. }
  unfold getUint16, getUint32.
  rewrite (Hlocal 14%nat), (Hlocal 8%nat), (Hlocal 18%nat), (Hlocal 22%nat),
    (Hlocal 26%nat).
  rewrite (Hcentral 16%nat), (Hcentral 10%nat), (Hcentral 20%nat),
    (Hcentral 24%nat), (Hcentral 28%nat).
  unfold P2, local_part, local_record, central_record.
  rewrite <- !app_assoc.
  rewrite (slice_Some _ 14 4), (slice_Some _ 8 2), (slice_Some _ 18 4),
    (slice_Some _ 22 4), (slice_Some _ 26 2) by (simpl; lia).
  rewrite (slice_Some _ 16 4), (slice_Some _ 10 2), (slice_Some _ 20 4),
    (slice_Some _ 24 4), (slice_Some _ 28 2) by (simpl; lia).
  cbn [fmap option_fmap option_map Entry.size Entry.filenameBytes].
  repeat split; try reflexivity; f_equal;
    (apply le_value_le16, ToUint16_range) || (apply le_value_le32, ToUint32_range).
Qed.

(** ** What makes the writer throw *)

Lemma atob_Throw s e : atob s = Throw e -> e = InvalidCharacterError.
Proof.
  unfold atob. destruct (Nat.eqb _ _); [by intros [= <-]|].
  destruct (b64_values _); [done | by intros [= <-]].
Qed.

Lemma decode_images_Throw images e :
  decode_images images = Throw e ->
  e = InvalidCharacterError
  /\ Exists (fun img => atob (data img) = Throw InvalidCharacterError) images.
Proof.
  induction images as [|img images IH]; [done|]. cbn [decode_images].
  unfold decode_image at 1.
  destruct (atob (data img)) as [s|e'] eqn:Hs.
  - rewrite bind_Ok.
    destruct (decode_images images) as [es|e'']; [done|].
    intros [= ->]. destruct (IH eq_refl) as [-> Hex]. split; [done|].
    by apply Exists_cons_tl.
  - intros [= ->]. pose proof (atob_Throw _ _ Hs) as ->. split; [done|].
    by apply Exists_cons_hd.
Qed.


(** * Further properties *)

(** ** Names and contents inside the archive *)

(** Around entry [k]: the name and the content follow the local header, the
    name follows the index record, and the extra-field and comment lengths
    are zero. *)
Lemma archive_of_entry_names es k e :
  es !! k = Some e ->
  let buf := archive_of es in
  let start := total local_span (take k es) in
  let record := total local_span es + total index_span (take k es) in
  getUint16 buf (start + 28) = Some 0
  /\ slice buf (start + 30) (length (name e)) = Some (name e)
  /\ slice buf (start + 30 + Z.of_nat (length (name e))) (length (content e))
     = Some (content e)
  /\ getUint16 buf (record + 30) = Some 0
  /\ getUint16 buf (record + 32) = Some 0
  /\ slice buf (record + 46) (length (name e)) = Some (name e).
Proof.
  intros He buf start record. unfold buf.
  rewrite (archive_of_split es k e He).
  set (P1 := entries_region (take k es)).
  set (R := entries_region (drop (S k) es)).
  set (P3 := concat (map central_record (directory_from 0 (take k es)))).
  set (I2 := concat (map central_record
                       (directory_from (total local_span (take (S k) es))
                                       (drop (S k) es)))).
  set (T := trailer_of es).
  set (en := Entry.Make (total local_span (take k es)) (name e)
                        (content_size e)).
  assert (H1 : start = Z.of_nat (length P1))
    by (symmetry; apply length_entries_region).
  assert (H2 : record = Z.of_nat (length (P1 ++ (local_part e ++ R) ++ P3))).
  { unfold record, P1, R, P3.
    rewrite !length_app, !Nat2Z.inj_add, !length_entries_region,
      length_local_part, length_index_records.
    rewrite (total_local_span_middle es k e He). lia. }
  assert (Hlocal : forall pos n rest,
             0 <= pos ->
             slice (P1 ++ rest) (start + pos) n = slice rest pos n).
  { intros pos n rest Hpos. rewrite H1. by apply slice_app_r. }
  assert (Hcentral : forall pos n rest,
             0 <= pos ->
             slice (P1 ++ (local_part e ++ R) ++ P3 ++ rest) (record + pos) n
             = slice rest pos n).
  { intros pos n rest Hpos.
    replace (P1 ++ (local_part e ++ R) ++ P3 ++ rest)
      with ((P1 ++ (local_part e ++ R) ++ P3) ++ rest)
      by (by rewrite <- !app_assoc).
    rewrite H2. by apply slice_app_r. }
  unfold getUint16.
  rewrite <- !Z.add_assoc.
  rewrite !Hlocal by lia. rewrite !Hcentral by lia.
  assert (Hfixed : exists fixed,
             length fixed = 30%nat
             /\ local_record (name e) (content_size e) = fixed ++ name e
             /\ slice fixed 28 2 = Some [0; 0]).
  { eexists. split; [|split]; [| unfold local_record; rewrite !app_assoc;
                                reflexivity |]; reflexivity. }
  destruct Hfixed as (fixed & Hflen & Hfix & Hf28).
  assert (Hcfixed : exists fixed,
             length fixed = 46%nat
             /\ central_record en = fixed ++ name e
             /\ slice fixed 30 2 = Some [0; 0]
             /\ slice fixed 32 2 = Some [0; 0]).
  { eexists. split; [|split; [|split]];
      [| unfold central_record; rewrite !app_assoc; reflexivity | |];
      reflexivity. }
  destruct Hcfixed as (cfixed & Hclen & Hcfix & Hc30 & Hc32).
  unfold local_part. rewrite Hfix, Hcfix, <- !app_assoc.
  repeat split.
  - rewrite slice_app_l by (rewrite ?Hflen; lia). by rewrite Hf28.
  - replace 30 with (Z.of_nat (length fixed) + 0) by lia.
    rewrite slice_app_r, slice_app_l by lia.
    rewrite (slice_Some _ 0) by lia. by rewrite drop_0, firstn_all.
  - replace (30 + Z.of_nat (length (name e)))
      with (Z.of_nat (length (fixed ++ name e)) + 0)
      by (rewrite length_app; lia).
    rewrite (app_assoc fixed), slice_app_r, slice_app_l by lia.
    rewrite (slice_Some _ 0) by lia. by rewrite drop_0, firstn_all.
  - rewrite slice_app_l by (rewrite ?Hclen; lia). by rewrite Hc30.
  - rewrite slice_app_l by (rewrite ?Hclen; lia). by rewrite Hc32.
  - replace 46 with (Z.of_nat (length cfixed) + 0) by lia.
    rewrite slice_app_r, slice_app_l by lia.
    rewrite (slice_Some _ 0) by lia. by rewrite drop_0, firstn_all.
Qed.

(** ** Reading the archive back *)

Lemma ToUint16_small' v : 0 <= v < 65536 -> ToUint16 v = v.
Proof. apply Z.mod_small. Qed.

Section ReadBack.
Variable es : list archive_entry.
Hypothesis Hfits : fits_the_fields es.

Lemma entry_fits k e :
  es !! k = Some e ->
  0 <= total local_span (take k es) < 4294967296
  /\ 0 <= content_size e < 4294967296
  /\ 0 <= Z.of_nat (length (name e)) < 65536.
Proof.
  intros He. destruct Hfits as (_ & Hsize & Hnames).
  pose proof (total_local_span_middle es k e He) as Hmid.
  pose proof (total_local_span_nonneg (take k es)).
  pose proof (total_local_span_nonneg (drop (S k) es)).
  pose proof (local_span_pos e).
  assert (Hn : Z.of_nat (length (name e)) < 65536).
  { rewrite Forall_forall in Hnames. apply Hnames.
    apply list_elem_of_In. by eapply list_elem_of_lookup_2. }
  unfold local_span, content_size in *. lia.
Qed.

Lemma read_index_entry_at k e :
  es !! k = Some e ->
  ZipReader.read_index_entry (archive_of es)
    (total local_span es + total index_span (take k es))
  = Some (ZipReader.IndexEntry 0 0 (content_size e) (content_size e) (name e)
            (total local_span (take k es)),
          total local_span es + total index_span (take (S k) es)).
Proof.
  intros He.
  destruct (entry_fits k e He) as (Hstart & Hsz & Hnm).
  destruct (archive_of_entry_fields es k e He) as (_ & Hsig & Hoff).
  destruct (archive_of_entry_sizes es k e He)
    as ((_ & Hcrc) & (_ & Hmeth) & (_ & _ & Hcs & Hus) & (_ & Hnl)).
  destruct (archive_of_entry_names es k e He)
    as (_ & _ & _ & Hel & Hcl & Hname).
  cbn zeta in *.
  unfold ZipReader.read_index_entry.
  rewrite Hsig. cbn [mbind option_bind].
  rewrite decide_True by done.
  rewrite Hmeth, Hcrc, Hcs, Hus, Hnl, Hel, Hcl, Hoff.
  cbn [mbind option_bind].
  rewrite !ToUint32_small, ToUint16_small' by lia.
  rewrite Nat2Z.id, Hname. cbn [mbind option_bind].
  do 2 f_equal.
  rewrite (take_S_r es k e He), total_app, total_cons.
  unfold index_span at 3. cbn [total foldr]. lia.
Qed.

Lemma read_index_from rest :
  forall pre,
    es = pre ++ rest ->
    ZipReader.read_index (archive_of es) (length rest)
      (total local_span es + total index_span pre)
    = Some (index_entries_from (total local_span pre) rest).
Proof.
  induction rest as [|e rest IH]; intros pre Hes; [done|].
  assert (He : es !! length pre = Some e)
    by (rewrite Hes; apply list_lookup_middle; done).
  assert (Hpre : take (length pre) es = pre)
    by (rewrite Hes; by rewrite take_app_length).
  assert (Hnext : take (S (length pre)) es = pre ++ [e])
    by (by rewrite (take_S_r es _ e He), Hpre).
  pose proof (read_index_entry_at (length pre) e He) as Hentry.
  rewrite Hpre, Hnext in Hentry.
  cbn [ZipReader.read_index length index_entries_from].
  rewrite Hentry. cbn [mbind option_bind].
  rewrite (IH (pre ++ [e])) by (by rewrite <- app_assoc).
  cbn [mbind option_bind]. do 3 f_equal.
  rewrite total_app, total_cons. cbn [total foldr]. lia.
Qed.

Lemma read_member_at verify k e :
  es !! k = Some e ->
  ZipReader.read_member verify (archive_of es)
    (ZipReader.IndexEntry 0 0 (content_size e) (content_size e) (name e)
       (total local_span (take k es)))
  = if verify && checksum_differs e then inl ZipReader.BadChecksum
    else inr (member_of e).
Proof.
  intros He.
  destruct (entry_fits k e He) as (Hstart & Hsz & Hnm).
  destruct (archive_of_entry_fields es k e He) as (Hsig & _ & _).
  destruct (archive_of_entry_sizes es k e He)
    as (_ & _ & _ & (Hnl & _)).
  destruct (archive_of_entry_names es k e He)
    as (Hel & Hname & Hcontent & _).
  cbn zeta in *.
  unfold ZipReader.read_member.
  cbn [ZipReader.ie_offset ZipReader.ie_name ZipReader.ie_method
       ZipReader.ie_compressed ZipReader.ie_uncompressed ZipReader.ie_crc].
  rewrite Hsig, Hnl, Hel, ToUint16_small' by lia.
  rewrite Nat2Z.id, Hname.
  rewrite decide_True by done. rewrite decide_True by done.
  rewrite Z.add_0_r. unfold content_size at 1. rewrite Nat2Z.id, Hcontent.
  reflexivity.
Qed.

Lemma read_members_from verify rest :
  forall pre,
    es = pre ++ rest ->
    ZipReader.read_members verify (archive_of es)
      (index_entries_from (total local_span pre) rest)
    = if verify && existsb checksum_differs rest
      then inl ZipReader.BadChecksum
      else inr (map member_of rest).
Proof.
  induction rest as [|e rest IH]; intros pre Hes.
  - by destruct verify.
  - assert (He : es !! length pre = Some e)
      by (rewrite Hes; apply list_lookup_middle; done).
    assert (Hpre : take (length pre) es = pre)
      by (rewrite Hes; by rewrite take_app_length).
    pose proof (read_member_at verify (length pre) e He) as Hm.
    rewrite Hpre in Hm.
    cbn [ZipReader.read_members index_entries_from existsb map].
    rewrite Hm.
    replace (total local_span pre + local_span e)
      with (total local_span (pre ++ [e]))
      by (rewrite total_app, total_cons; cbn [total foldr]; lia).
    rewrite (IH (pre ++ [e])) by (by rewrite <- app_assoc).
    by destruct verify, (checksum_differs e), (existsb checksum_differs rest).
Qed.

Lemma read_archive_of verify :
  ZipReader.read verify (archive_of es)
  = if verify && existsb checksum_differs es
    then inl ZipReader.BadChecksum
    else inr (map member_of es).
Proof.
  destruct Hfits as (Hcount & Hsize & _).
  pose proof (total_local_span_nonneg es).
  pose proof (total_index_span_nonneg es).
  pose proof (length_archive_of es) as Hlen.
  destruct (archive_of_trailer_fields es)
    as (Hsig & _ & Hn & _ & Hstart & Hcomment & _).
  cbn zeta in *.
  unfold ZipReader.read.
  set (len := Z.of_nat (length (archive_of es))) in *.
  destruct (Z.to_nat (Z.min (len - 21) 65536)) as [|tries] eqn:Htries; [lia|].
  cbn [ZipReader.find_trailer].
  rewrite decide_True.
  2:{ split; [exact Hsig|]. rewrite Hcomment. cbn. f_equal. lia. }
  rewrite Hn, Hstart, ToUint16_small', ToUint32_small by lia.
  rewrite Nat2Z.id.
  pose proof (read_index_from es [] eq_refl) as Hindex.
  cbn [total foldr] in Hindex. rewrite Z.add_0_r in Hindex.
  rewrite Hindex.
  exact (read_members_from verify es [] eq_refl).
Qed.
End ReadBack.

Lemma existsb_checksum_differs es :
  existsb checksum_differs es = false
  <-> Forall (fun e => crc32 (content e) = 0) es.
Proof.
  induction es as [|e es IH]; cbn [existsb].
  - split; [constructor | done].
  - split.
    + intros [Hd Hrest]%orb_false_iff. unfold checksum_differs in Hd.
      destruct (Z.eqb_spec (crc32 (content e)) 0) as [Heq|]; [|done].
      constructor; [done | by apply IH].
    + intros Hall. inversion Hall as [|? ? Hd Hrest]; subst.
      apply orb_false_iff. split.
      * unfold checksum_differs. by rewrite Hd.
      * by apply IH.
Qed.

(** ** Every element of the archive is a byte *)

(** Induction over a list one or two elements at a time, as
    [scalar_values] consumes its input. *)
Lemma list_ind_pairs {A} (P : list A -> Prop) :
  P [] ->
  (forall x, P [x]) ->
  (forall x y l, P l -> P (y :: l) -> P (x :: y :: l)) ->
  forall l, P l.
Proof.
  intros Hnil Hone Hstep l.
  assert (H : P l /\ forall x, P (x :: l)); [|by destruct H].
  induction l as [|y l [IH1 IH2]]; [by split|].
  split; [apply IH2|]. intros x. apply Hstep; [exact IH1 | apply IH2].
Qed.

Lemma le16_bytes v : Forall is_byte (le16 v).
Proof.
  unfold le16, is_byte. repeat constructor; apply Z.mod_pos_bound; lia.
Qed.

Lemma le32_bytes v : Forall is_byte (le32 v).
Proof.
  unfold le32, is_byte. repeat constructor; apply Z.mod_pos_bound; lia.
Qed.

Lemma local_record_bytes nm size :
  Forall is_byte nm -> Forall is_byte (local_record nm size).
Proof.
  intros Hn. unfold local_record.
  repeat (apply Forall_app; split);
    first [apply le16_bytes | apply le32_bytes | exact Hn].
Qed.

Lemma central_record_bytes entry :
  Forall is_byte (Entry.filenameBytes entry) ->
  Forall is_byte (central_record entry).
Proof.
  intros Hn. unfold central_record.
  repeat (apply Forall_app; split);
    first [apply le16_bytes | apply le32_bytes | exact Hn].
Qed.

Lemma trailer_record_bytes n sz off : Forall is_byte (trailer_record n sz off).
Proof.
  unfold trailer_record.
  repeat (apply Forall_app; split);
    first [apply le16_bytes | apply le32_bytes].
Qed.

Lemma Uint8Array_of_charCodes_bytes s :
  Forall is_byte (Uint8Array_of_charCodes s).
Proof.
  unfold Uint8Array_of_charCodes. apply Forall_map, Forall_forall.
  intros c _. apply Z.mod_pos_bound. lia.
Qed.

Lemma utf8_of_scalar_bytes u :
  is_scalar_value u -> Forall is_byte (utf8_of_scalar u).
Proof.
  unfold is_scalar_value, utf8_of_scalar, is_byte. intros Hu.
  destruct (Z.ltb_spec u 128); [repeat constructor; lia|].
  destruct (Z.ltb_spec u 2048);
    [repeat constructor; Z.div_mod_to_equations; lia|].
  destruct (Z.ltb_spec u 65536);
    repeat constructor; Z.div_mod_to_equations; lia.
Qed.

Lemma surrogate_cases c :
  is_code_unit c ->
  (is_lead_surrogate c = true /\ 55296 <= c <= 56319)
  \/ (is_lead_surrogate c = false /\ is_trail_surrogate c = true
      /\ 56320 <= c <= 57343)
  \/ (is_lead_surrogate c = false /\ is_trail_surrogate c = false
      /\ (c < 55296 \/ 57343 < c)).
Proof.
  unfold is_code_unit, is_lead_surrogate, is_trail_surrogate.
  intros Hc.
  destruct (Z.leb_spec 55296 c), (Z.leb_spec c 56319),
    (Z.leb_spec 56320 c), (Z.leb_spec c 57343); cbn; lia.
Qed.

Lemma scalar_values_range s :
  Forall is_code_unit s -> Forall is_scalar_value (scalar_values s).
Proof.
  induction s as [| x | x y l IHl IHyl] using list_ind_pairs.
  - constructor.
  - intros Hs. inversion Hs as [|? ? Hx _]; subst. cbn [scalar_values].
    destruct (surrogate_cases x Hx) as [(-> & ?) | [(-> & -> & ?) | (-> & -> & ?)]];
      repeat constructor; unfold is_code_unit in Hx; lia.
  - intros Hs. inversion Hs as [|? ? Hx Hyl]; subst.
    inversion Hyl as [|? ? Hy Hl]; subst.
    change (scalar_values (x :: y :: l))
      with (if is_lead_surrogate x then
              if is_trail_surrogate y
              then (65536 + (x - 55296) * 1024 + (y - 56320)) :: scalar_values l
              else 65533 :: scalar_values (y :: l)
            else if is_trail_surrogate x then 65533 :: scalar_values (y :: l)
            else x :: scalar_values (y :: l)).
    destruct (surrogate_cases x Hx) as [(-> & ?) | [(-> & -> & ?) | (-> & -> & ?)]].
    + destruct (surrogate_cases y Hy) as [(? & ?) | [(_ & Ht & ?) | (_ & Ht & ?)]].
      * assert (is_trail_surrogate y = false) as ->.
        { unfold is_trail_surrogate.
          destruct (Z.leb_spec 56320 y); [lia | done]. }
        constructor; [unfold is_scalar_value; lia | by apply IHyl].
      * rewrite Ht. constructor; [unfold is_scalar_value; lia | by apply IHl].
      * rewrite Ht. constructor; [unfold is_scalar_value; lia | by apply IHyl].
    + constructor; [unfold is_scalar_value; lia | by apply IHyl].
    + constructor; [unfold is_scalar_value, is_code_unit in *; lia
                   | by apply IHyl].
Qed.

Lemma TextEncoder_encode_bytes s :
  Forall is_code_unit s -> Forall is_byte (TextEncoder_encode s).
Proof.
  intros Hs. unfold TextEncoder_encode.
  apply Forall_concat. apply Forall_map.
  pose proof (scalar_values_range s Hs) as Hrange.
  rewrite Forall_forall in Hrange. apply Forall_forall.
  intros u Hu. by apply utf8_of_scalar_bytes, Hrange.
Qed.

Lemma archive_of_bytes es :
  Forall (fun e => Forall is_byte (name e) /\ Forall is_byte (content e)) es ->
  Forall is_byte (archive_of es).
Proof.
  intros Hes. unfold archive_of. apply Forall_app. split; [|apply Forall_app; split].
  - unfold entries_region. apply Forall_concat. apply Forall_map.
    rewrite Forall_forall in Hes. apply Forall_forall.
    intros e [Hn Hc]%Hes. unfold local_part.
    apply Forall_app. split; [by apply local_record_bytes | done].
  - unfold index_region. apply Forall_concat. apply Forall_map.
    generalize 0.
    induction Hes as [|e es [Hn Hc] _ IH]; intros cursor; [constructor|].
    cbn [directory_from]. constructor; [by apply central_record_bytes | apply IH].
  - apply trailer_record_bytes.
Qed.

Lemma decode_images_bytes images es :
  Forall (fun img => Forall is_code_unit (filename img)) images ->
  decode_images images = Ok es ->
  Forall (fun e => Forall is_byte (name e) /\ Forall is_byte (content e)) es.
Proof.
  intros Himgs Hdec. apply decode_images_Forall2 in Hdec.
  induction Hdec as [|img e imgs es' He _ IH]; [constructor|].
  inversion Himgs as [|? ? Hf Hrest]; subst.
  constructor; [|by apply IH].
  unfold decode_image in He. destruct (atob (data img)) as [s|]; [|done].
  injection He as <-. cbn [name content].
  split; [by apply TextEncoder_encode_bytes | apply Uint8Array_of_charCodes_bytes].
Qed.

(** ** File names as entry names *)

Lemma not_surrogate_ascii c :
  is_ascii c -> is_lead_surrogate c = false /\ is_trail_surrogate c = false.
Proof.
  unfold is_ascii, is_lead_surrogate, is_trail_surrogate. intros Hc.
  destruct (Z.leb_spec 55296 c), (Z.leb_spec 56320 c); cbn; done || lia.
Qed.

Lemma scalar_values_cons_plain c rest :
  is_lead_surrogate c = false -> is_trail_surrogate c = false ->
  scalar_values (c :: rest) = c :: scalar_values rest.
Proof. intros Hl Ht. cbn [scalar_values]. by rewrite Hl, Ht. Qed.

Lemma TextEncoder_encode_ascii s :
  Forall is_ascii s -> TextEncoder_encode s = s.
Proof.
  unfold TextEncoder_encode. induction 1 as [|c s Hc _ IH]; [done|].
  destruct (not_surrogate_ascii c Hc) as [Hl Ht].
  rewrite scalar_values_cons_plain by done. cbn [map concat].
  rewrite IH. unfold utf8_of_scalar, is_ascii in *.
  destruct (Z.ltb_spec c 128); [done | lia].
Qed.

Lemma length_utf8_of_scalar u :
  (1 <= length (utf8_of_scalar u) <= 4)%nat
  /\ (u < 65536 -> (length (utf8_of_scalar u) <= 3)%nat)
  /\ (65536 <= u -> length (utf8_of_scalar u) = 4%nat).
Proof.
  unfold utf8_of_scalar.
  destruct (Z.ltb_spec u 128); [cbn; lia|].
  destruct (Z.ltb_spec u 2048); [cbn; lia|].
  destruct (Z.ltb_spec u 65536); cbn; lia.
Qed.

(** A string of [n] code units takes between [n] and [3 * n] bytes. *)
Lemma length_TextEncoder_encode s :
  Forall is_code_unit s ->
  (length s <= length (TextEncoder_encode s) <= 3 * length s)%nat.
Proof.
  unfold TextEncoder_encode.
  induction s as [| x | x y l IHl IHyl] using list_ind_pairs.
  - cbn. lia.
  - intros Hs. inversion Hs as [|? ? Hx _]; subst. cbn [scalar_values].
    destruct (surrogate_cases x Hx)
      as [(-> & ?) | [(-> & -> & ?) | (-> & -> & ?)]];
      cbn [map concat app length]; try (cbn; lia).
    rewrite app_nil_r.
    destruct (length_utf8_of_scalar x) as (? & Hsmall & _).
    unfold is_code_unit in Hx. specialize (Hsmall ltac:(lia)). lia.
  - intros Hs. inversion Hs as [|? ? Hx Hyl]; subst.
    inversion Hyl as [|? ? Hy Hl]; subst.
    specialize (IHl Hl). specialize (IHyl Hyl).
    change (scalar_values (x :: y :: l))
      with (if is_lead_surrogate x then
              if is_trail_surrogate y
              then (65536 + (x - 55296) * 1024 + (y - 56320)) :: scalar_values l
              else 65533 :: scalar_values (y :: l)
            else if is_trail_surrogate x then 65533 :: scalar_values (y :: l)
            else x :: scalar_values (y :: l)).
    cbn [length] in *.
    destruct (surrogate_cases x Hx)
      as [(-> & ?) | [(-> & -> & ?) | (-> & -> & ?)]].
    + destruct (surrogate_cases y Hy)
        as [(? & ?) | [(_ & Ht & ?) | (_ & Ht & ?)]].
      * assert (is_trail_surrogate y = false) as ->.
        { unfold is_trail_surrogate.
          destruct (Z.leb_spec 56320 y); [lia | done]. }
        cbn [map concat]. rewrite length_app.
        destruct (length_utf8_of_scalar 65533) as (? & Hsmall & _).
        specialize (Hsmall ltac:(lia)). lia.
      * rewrite Ht. cbn [map concat]. rewrite length_app.
        destruct (length_utf8_of_scalar
                    (65536 + (x - 55296) * 1024 + (y - 56320)))
          as (_ & _ & Hfour).
        specialize (Hfour ltac:(lia)). lia.
      * rewrite Ht. cbn [map concat]. rewrite length_app.
        destruct (length_utf8_of_scalar 65533) as (? & Hsmall & _).
        specialize (Hsmall ltac:(lia)). lia.
    + cbn [map concat]. rewrite length_app.
      destruct (length_utf8_of_scalar 65533) as (? & Hsmall & _).
      specialize (Hsmall ltac:(lia)). lia.
    + cbn [map concat]. rewrite length_app.
      destruct (length_utf8_of_scalar x) as (? & Hsmall & _).
      unfold is_code_unit in Hx. specialize (Hsmall ltac:(lia)). lia.
Qed.

(** What the writer's state and buffer say about image [k], in terms of
    the decoded entries. *)
Lemma image_entry images st buf k img entry :
  local_pass images = Ok st ->
  createZipFromBase64Images images = Ok buf ->
  images !! k = Some img ->
  centralDirectory st !! k = Some entry ->
  exists es e,
    buf = archive_of es
    /\ es !! k = Some e
    /\ decode_image img = Ok e
    /\ entry = Entry.Make (total local_span (take k es)) (name e)
                          (content_size e)
    /\ index_record_pos st k
       = total local_span es + total index_span (take k es).
Proof.
  intros Hst Hbuf Himg Hentry.
  apply local_pass_Ok in Hst as (es & Hdec & ->).
  apply createZipFromBase64Images_Ok in Hbuf as (es' & Hdec' & ->).
  rewrite Hdec in Hdec'. injection Hdec' as <-.
  cbn [centralDirectory] in Hentry.
  apply directory_from_lookup in Hentry as (e & He & ->).
  exists es, e. repeat split; try done.
  - apply decode_images_Forall2 in Hdec.
    by apply (Forall2_lookup_lr _ _ _ k img e Hdec).
  - unfold index_record_pos. cbn [offset centralDirectory].
    by rewrite take_directory_from, total_directory_from.
Qed.

(** ** Payloads in standard base64 *)

(** Induction over a list three elements at a time, as the encoding
    consumes bytes. *)
Lemma list_ind_triples {A} (P : list A -> Prop) :
  P [] ->
  (forall x, P [x]) ->
  (forall x y, P [x; y]) ->
  (forall x y z l, P l -> P (x :: y :: z :: l)) ->
  forall l, P l.
Proof.
  intros Hnil Hone Htwo Hstep l.
  assert (H : P l /\ (forall x, P (x :: l)) /\ forall x y, P (x :: y :: l)).
  { induction l as [|z l (IH0 & IH1 & IH2)]; [by repeat split|].
    split; [apply IH1|]. split; [intros x; apply IH2|].
    intros x y. by apply Hstep. }
  by destruct H.
Qed.

Lemma sextet_cases v :
  is_sextet v -> exists n, (n < 64)%nat /\ v = Z.of_nat n.
Proof. intros Hv. exists (Z.to_nat v). unfold is_sextet in Hv. lia. Qed.

Lemma b64_char_facts v :
  is_sextet v ->
  b64_value (b64_char v) = Some v
  /\ is_ascii_whitespace (b64_char v) = false
  /\ b64_char v <> 61.
Proof.
  intros (n & Hn & ->)%sextet_cases.
  do 64 (destruct n as [|n]; [by vm_compute|]). lia.
Qed.

Lemma base64_sextets_range bs :
  Forall is_byte bs -> Forall is_sextet (base64_sextets bs).
Proof.
  unfold is_byte, is_sextet.
  induction bs as [| a | a b | a b c l IH] using list_ind_triples;
    intros Hbs; cbn [base64_sextets].
  - constructor.
  - inversion Hbs; subst. repeat constructor; Z.div_mod_to_equations; lia.
  - inversion Hbs as [|? ? ? Hb]; subst. inversion Hb; subst.
    repeat constructor; Z.div_mod_to_equations; lia.
  - inversion Hbs as [|? ? ? Hb]; subst. inversion Hb as [|? ? ? Hc]; subst.
    inversion Hc; subst.
    repeat (constructor; [Z.div_mod_to_equations; lia|]). by apply IH.
Qed.

Lemma b64_bytes_sextets bs :
  Forall is_byte bs -> b64_bytes (base64_sextets bs) = bs.
Proof.
  unfold is_byte.
  induction bs as [| a | a b | a b c l IH] using list_ind_triples;
    intros Hbs; cbn [base64_sextets].
  - reflexivity.
  - inversion Hbs; subst. cbn [b64_bytes]. f_equal.
    Z.div_mod_to_equations. lia.
  - inversion Hbs as [|? ? ? Hb]; subst. inversion Hb; subst.
    cbn [b64_bytes]. cbn zeta. repeat f_equal; Z.div_mod_to_equations; lia.
  - inversion Hbs as [|? ? ? Hb]; subst. inversion Hb as [|? ? ? Hc]; subst.
    inversion Hc; subst.
    cbn [b64_bytes]. cbn zeta. rewrite IH by done.
    repeat f_equal; Z.div_mod_to_equations; lia.
Qed.

Lemma length_base64_sextets bs :
  (length (base64_sextets bs) mod 4 <> 1
   /\ (length (base64_sextets bs) + length (base64_padding bs)) mod 4 = 0)%nat.
Proof.
  induction bs as [| a | a b | a b c l [IH1 IH2]] using list_ind_triples;
    cbn [base64_sextets base64_padding length]; try (by vm_compute).
  replace (S (S (S (S (length (base64_sextets l))))))
    with (length (base64_sextets l) + 1 * 4)%nat by lia.
  split.
  - by rewrite Nat.Div0.mod_add.
  - replace (length (base64_sextets l) + 1 * 4 + length (base64_padding l))%nat
      with (length (base64_sextets l) + length (base64_padding l) + 1 * 4)%nat
      by lia.
    by rewrite Nat.Div0.mod_add.
Qed.

Lemma base64_padding_cases bs :
  base64_padding bs = [] \/ base64_padding bs = [61]
  \/ base64_padding bs = [61; 61].
Proof.
  induction bs as [| a | a b | a b c l IH] using list_ind_triples;
    cbn [base64_padding]; auto.
Qed.

(** The three ways the padding match can go. *)
Lemma strip_match_other (x : Z) (r0 s : jsstring) :
  x <> 61 ->
  match x :: r0 with
  | 61 :: 61 :: r => rev r
  | 61 :: r => rev r
  | _ => s
  end = s.
Proof.
  intros Hx. destruct x as [|p|p]; try reflexivity.
  do 6 (destruct p as [p|p|]; try reflexivity). done.
Qed.

Lemma strip_match_one (y : Z) (r0 s : jsstring) :
  y <> 61 ->
  match 61 :: y :: r0 with
  | 61 :: 61 :: r => rev r
  | 61 :: r => rev r
  | _ => s
  end = rev (y :: r0).
Proof.
  intros Hy. destruct y as [|p|p]; try reflexivity.
  do 6 (destruct p as [p|p|]; try reflexivity). done.
Qed.

Lemma strip_padding_padded s pad :
  Forall (fun c => c <> 61) s ->
  pad = [] \/ pad = [61] \/ pad = [61; 61] ->
  (length (s ++ pad) mod 4 = 0)%nat ->
  strip_padding (s ++ pad) = s.
Proof.
  intros Hs Hpad Hlen. unfold strip_padding. rewrite Hlen. cbn [Nat.eqb].
  rewrite rev_app_distr.
  assert (Hrev : Forall (fun c => c <> 61) (rev s)).
  { apply Forall_forall. intros c Hc. rewrite Forall_forall in Hs.
    apply Hs. by apply in_rev. }
  destruct Hpad as [-> | [-> | ->]]; cbn [rev app].
  - rewrite app_nil_r.
    destruct (rev s) as [|x r0] eqn:Hr; [done|].
    inversion Hrev; subst. by apply strip_match_other.
  - destruct (rev s) as [|y r0] eqn:Hr.
    + cbn [rev]. apply (f_equal (@rev Z)) in Hr.
      by rewrite rev_involutive in Hr.
    + inversion Hrev; subst. rewrite strip_match_one by done.
      by rewrite <- Hr, rev_involutive.
  - apply rev_involutive.
Qed.

Lemma b64_values_chars vs :
  Forall is_sextet vs -> b64_values (map b64_char vs) = Some vs.
Proof.
  induction 1 as [|v vs Hv _ IH]; [done|]. cbn [map b64_values].
  destruct (b64_char_facts v Hv) as (-> & _). by rewrite IH.
Qed.

Lemma atob_base64_encode bs :
  Forall is_byte bs -> atob (base64_encode bs) = Ok bs.
Proof.
  intros Hbs. unfold atob, base64_encode.
  pose proof (base64_sextets_range bs Hbs) as Hrange.
  destruct (length_base64_sextets bs) as [Hne Hmul].
  assert (Hfilter : List.filter (fun c => negb (is_ascii_whitespace c))
                      (map b64_char (base64_sextets bs) ++ base64_padding bs)
                    = map b64_char (base64_sextets bs) ++ base64_padding bs).
  { rewrite filter_app. f_equal.
    - clear -Hrange. induction Hrange as [|v vs Hv _ IH]; [done|].
      cbn [map List.filter]. destruct (b64_char_facts v Hv) as (_ & -> & _).
      cbn [negb]. by rewrite IH.
    - by destruct (base64_padding_cases bs) as [-> | [-> | ->]]. }
  rewrite Hfilter.
  rewrite strip_padding_padded.
  - rewrite length_map.
    destruct (Nat.eqb_spec (length (base64_sextets bs) mod 4) 1); [done|].
    rewrite b64_values_chars by done. by rewrite b64_bytes_sextets.
  - apply Forall_map. apply Forall_forall. rewrite Forall_forall in Hrange.
    intros v Hv%Hrange. by destruct (b64_char_facts v Hv) as (_ & _ & ?).
  - apply base64_padding_cases.
  - by rewrite length_app, length_map.
Qed.

Lemma Uint8Array_of_charCodes_id bs :
  Forall is_byte bs -> Uint8Array_of_charCodes bs = bs.
Proof.
  unfold Uint8Array_of_charCodes, is_byte.
  induction 1 as [|b bs Hb _ IH]; [done|]. cbn [map].
  by rewrite IH, Z.mod_small.
Qed.

Lemma decode_sent_image f :
  Forall is_byte f.2 -> decode_image (sent_image f) = Ok (sent_entry f).
Proof.
  intros Hf. unfold decode_image, sent_image, sent_entry. cbn [data filename].
  by rewrite atob_base64_encode, bind_Ok, Uint8Array_of_charCodes_id.
Qed.

Lemma decode_sent_images files :
  Forall (fun f => Forall is_byte f.2) files ->
  decode_images (map sent_image files) = Ok (map sent_entry files).
Proof.
  induction 1 as [|f files Hf _ IH]; [done|].
  cbn [map decode_images]. by rewrite decode_sent_image, IH.
Qed.

Lemma decode_images_bad_payload images :
  Exists (fun img => atob (data img) = Throw InvalidCharacterError) images ->
  decode_images images = Throw InvalidCharacterError.
Proof.
  induction images as [|img images IH]; intros Hex.
  - inversion Hex.
  - cbn [decode_images]. unfold decode_image at 1.
    destruct (atob (data img)) as [s|e] eqn:Hs.
    + inversion Hex as [? ? Hbad|? ? Hrest]; subst; [congruence|].
      rewrite bind_Ok, (IH Hrest). reflexivity.
    + by rewrite (atob_Throw _ _ Hs).
Qed.

(** * The page and its runs *)

(** ** Lists, positions and replies *)

Lemma indexed_lookup {A} (l : list A) i k :
  indexed i l !! k = (fun a => ((i + k)%nat, a)) <$> l !! k.
Proof.
  revert i k. induction l as [|a l IH]; intros i [|k]; cbn; try done.
  - by rewrite Nat.add_0_r.
  - rewrite IH. by replace (S i + k)%nat with (i + S k)%nat by lia.
Qed.

Lemma replies_lookup {File} (gateway : nat -> File -> reply) fs k f :
  fs !! k = Some f -> replies gateway fs !! k = Some (gateway k f).
Proof.
  intros Hf. unfold replies.
  change (map ?g ?l) with (g <$> l).
  by rewrite list_lookup_fmap, indexed_lookup, Hf.
Qed.

Lemma length_replies {File} (gateway : nat -> File -> reply) fs :
  length (replies gateway fs) = length fs.
Proof. unfold replies. by rewrite length_map, length_indexed. Qed.

Lemma omap_snoc {A B} (f : A -> option B) l a :
  omap f (l ++ [a]) = omap f l ++ match f a with Some b => [b] | None => [] end.
Proof. rewrite omap_app. cbn. by destruct (f a). Qed.

Lemma filter_snoc {A} (p : A -> bool) l a :
  List.filter p (l ++ [a]) = List.filter p l ++ (if p a then [a] else []).
Proof. rewrite List.filter_app. cbn. by destruct (p a). Qed.

Lemma pending_statuses (fs : list file) i :
  map (fun p : nat * file =>
         default Status.pending
                 (map (fun _ : file => Status.pending) fs !! p.1))
      (indexed i fs)
  = replicate (length fs) Status.pending.
Proof.
  generalize fs at 1. intros fs0. revert i.
  induction fs as [|f fs IH]; intros i; [done|].
  cbn [indexed map length replicate]. rewrite IH. f_equal.
  cbn [fst]. change (map ?g fs0) with (g <$> fs0).
  rewrite list_lookup_fmap. by destruct (fs0 !! i).
Qed.

Lemma none_done_when_pending {A} (l : list A) :
  List.filter is_done (map (fun _ => Status.pending) l) = [].
Proof. by induction l. Qed.

Lemma length_items_waiting rs k n :
  (k < n)%nat -> (n <= length rs)%nat -> length (items_waiting rs k n) = n.
Proof.
  intros Hk Hn. unfold items_waiting.
  rewrite length_app, length_map, length_take. cbn [length].
  rewrite length_replicate. lia.
Qed.

Lemma insert_at_length {A} (l1 l2 : list A) x y k :
  length l1 = k -> <[k := y]> (l1 ++ x :: l2) = l1 ++ y :: l2.
Proof.
  intros <-. rewrite insert_app_r_alt by lia. by rewrite Nat.sub_diag.
Qed.

(** The item of the file in flight gets its final status, and the next item
    is marked. *)
Lemma items_waiting_next rs k n r :
  (S k < n)%nat -> rs !! k = Some r ->
  <[S k := Status.converting]>
    (<[k := status_of_reply r]> (items_waiting rs k n))
  = items_waiting rs (S k) n.
Proof.
  intros Hk Hr. unfold items_waiting.
  assert (Hlen : length (map status_of_reply (take k rs)) = k).
  { rewrite length_map, length_take.
    apply lookup_lt_Some in Hr. lia. }
  rewrite (take_S_r _ _ _ Hr), map_app. cbn [map].
  replace (n - S k)%nat with (S (n - S (S k))) by lia. cbn [replicate].
  rewrite (insert_at_length _ _ _ _ k Hlen).
  rewrite <- app_assoc. cbn [app].
  change (?a ++ ?x :: ?y :: ?l) with (a ++ [x] ++ y :: l).
  rewrite app_assoc.
  rewrite (insert_at_length _ _ _ _ (S k)).
  - rewrite <- !app_assoc. reflexivity.
  - rewrite length_app. cbn [length]. lia.
Qed.

Lemma items_waiting_last rs m r :
  length rs = S m -> rs !! m = Some r ->
  <[m := status_of_reply r]> (items_waiting rs m (S m))
  = map status_of_reply rs.
Proof.
  intros Hlen Hr. unfold items_waiting.
  assert (Hl : length (map status_of_reply (take m rs)) = m).
  { rewrite length_map, length_take. lia. }
  replace (S m - S m)%nat with 0%nat by lia. cbn [replicate].
  rewrite (insert_at_length _ _ _ _ _ Hl).
  rewrite <- (take_drop m rs) at 2. rewrite map_app. f_equal.
  rewrite (drop_S _ _ _ Hr), drop_ge by lia. done.
Qed.

(** ** A run that nothing interrupts *)

Lemma updateFileStatus_in_loop pg items requests index status :
  (index < length items)%nat ->
  updateFileStatus index status
    (page_in_loop pg (content_of (currentFiles pg) items) requests)
  = page_in_loop pg
      (content_of (currentFiles pg) (<[index := status]> items)) requests.
Proof.
  intros Hlt. unfold updateFileStatus, content_of, page_in_loop.
  cbn [fileListContainer_content currentFiles].
  destruct (plain_names (currentFiles pg)); [|done].
  apply Nat.ltb_lt in Hlt. rewrite Hlt. reflexivity.
Qed.

Lemma log_fetch_in_loop pg content requests i f :
  log_event (Fetch i f) (page_in_loop pg content requests)
  = page_in_loop pg content (requests ++ [(i, f)]).
Proof.
  unfold log_event, page_in_loop, fetch_events. cbn.
  by rewrite map_app, app_assoc.
Qed.

Lemma showFileList_pending pg :
  showFileList (currentFiles pg)
               (Some (map (fun _ => Status.pending) (currentFiles pg))) pg
  = page_in_loop pg
      (content_of (currentFiles pg)
                  (replicate (length (currentFiles pg)) Status.pending)) [].
Proof.
  unfold showFileList, page_in_loop, content_of. cbn [fetch_events map].
  rewrite pending_statuses, none_done_when_pending, app_nil_r.
  assert (H : forall n, List.filter is_done (replicate n Status.pending) = []).
  { intros n. by induction n. }
  by rewrite H.
Qed.

Lemma convertBulkWithProgress_first gateway pg f :
  currentFiles pg !! 0%nat = Some f ->
  convertBulkWithProgress pg
  = (page_waiting gateway pg 0, BulkAwaiting 0 f [] 0).
Proof.
  intros Hf. unfold convertBulkWithProgress.
  rewrite showFileList_pending. unfold loop_from.
  cbn [currentFiles page_in_loop]. rewrite Hf.
  assert (Hn : (0 < length (currentFiles pg))%nat)
    by (by apply lookup_lt_Some in Hf).
  rewrite updateFileStatus_in_loop by (by rewrite length_replicate).
  rewrite log_fetch_in_loop. unfold page_waiting, items_waiting.
  destruct (currentFiles pg) as [|f0 fs] eqn:E; [done|].
  cbn in Hf. injection Hf as ->.
  cbn [take map app length replicate insert list_insert indexed].
  rewrite !take_0. cbn [map app].
  replace (S (length fs) - 1)%nat with (length fs) by lia. reflexivity.
Qed.

Section QuietRun.
Variable toLowerCase : jsstring -> jsstring.
Variable gateway : nat -> file -> reply.
Variable single_gateway : file -> bool.

Lemma run_snoc ins inp w :
  run toLowerCase gateway single_gateway (ins ++ [inp]) w
  = step toLowerCase gateway single_gateway inp
         (run toLowerCase gateway single_gateway ins w).
Proof. unfold run. by rewrite fold_left_app. Qed.

Lemma run_app ins1 ins2 w :
  run toLowerCase gateway single_gateway (ins1 ++ ins2) w
  = run toLowerCase gateway single_gateway ins2
        (run toLowerCase gateway single_gateway ins1 w).
Proof. unfold run. by rewrite fold_left_app. Qed.

(** After [k] answers the loop waits for the answer from position [k]. *)
Lemma run_waiting pg ts k f :
  currentFiles pg !! k = Some f ->
  let rs := replies gateway (currentFiles pg) in
  run toLowerCase gateway single_gateway
      (replicate k (Answer (length ts)))
      (spawn (convertBulkWithProgress pg) {| page_of := pg; tasks := ts |})
  = {| page_of := page_waiting gateway pg k;
       tasks := ts ++ [BulkAwaiting k f (omap converted_image (take k rs))
                         (length (List.filter is_failed (take k rs)))] |}.
Proof.
  intros Hf rs. revert f Hf. induction k as [|k IH]; intros f Hf.
  - cbn [replicate run fold_left]. unfold spawn. cbn [tasks].
    by rewrite (convertBulkWithProgress_first gateway pg f Hf).
  - assert (Hk : exists fk, currentFiles pg !! k = Some fk).
    { apply lookup_lt_is_Some. apply lookup_lt_Some in Hf. lia. }
    destruct Hk as [fk Hfk].
    rewrite replicate_S_end, run_snoc, (IH fk Hfk). clear IH.
    cbn [step tasks page_of]. rewrite list_lookup_middle by done.
    unfold resume. cbn [tasks].
    rewrite (insert_at_length ts [] _ _ (length ts) eq_refl).
    pose proof (replies_lookup gateway _ _ _ Hfk) as Hr. fold rs in Hr.
    assert (Hn : (S k < length (currentFiles pg))%nat)
      by (by apply lookup_lt_Some in Hf).
    assert (Hlen : length rs = length (currentFiles pg))
      by apply length_replies.
    assert (Hstep : forall res err,
      loop_from (S k) res err
        (updateFileStatus k (status_of_reply (gateway k fk))
                          (page_waiting gateway pg k))
      = (page_waiting gateway pg (S k), BulkAwaiting (S k) f res err)).
    { intros res err. unfold page_waiting at 1. fold rs.
      rewrite updateFileStatus_in_loop
        by (rewrite length_items_waiting; lia).
      unfold loop_from. cbn [currentFiles page_in_loop]. rewrite Hf.
      rewrite updateFileStatus_in_loop
        by (rewrite length_insert, length_items_waiting; lia).
      rewrite log_fetch_in_loop, (items_waiting_next _ _ _ _ Hn Hr).
      unfold page_waiting. fold rs. do 2 f_equal.
      symmetry. apply take_S_r. by rewrite indexed_lookup, Hf. }
    rewrite (take_S_r _ _ _ Hr), omap_snoc, filter_snoc.
    unfold loop_continues.
    destruct (gateway k fk) as [result|] eqn:Eg.
    + specialize (Hstep (omap converted_image (take k rs) ++ [result])
                        (length (List.filter is_failed (take k rs)))).
      cbn [status_of_reply] in Hstep. rewrite Hstep.
      cbn [fst snd converted_image is_failed]. by rewrite app_nil_r.
    + specialize (Hstep (omap converted_image (take k rs))
                        (S (length (List.filter is_failed (take k rs))))).
      cbn [status_of_reply] in Hstep. rewrite Hstep.
      cbn [fst snd converted_image is_failed].
      rewrite app_nil_r, length_app. cbn [length].
      by rewrite Nat.add_1_r.
Qed.

(** With one answer per file the run is over: the call has returned, with
    the converted replies as its results, and the page is the page after the
    run. *)
Lemma quiet_run pg ts :
  let rs := replies gateway (currentFiles pg) in
  run toLowerCase gateway single_gateway
      (replicate (length (currentFiles pg)) (Answer (length ts)))
      (spawn (convertBulkWithProgress pg) {| page_of := pg; tasks := ts |})
  = {| page_of := page_after_run gateway pg;
       tasks := ts ++ [BulkSettled (omap converted_image rs)
                         (length (List.filter is_failed rs))] |}.
Proof.
  intros rs.
  assert (Hlen : length rs = length (currentFiles pg)) by apply length_replies.
  destruct (length (currentFiles pg)) as [|m] eqn:En.
  - cbn [replicate run fold_left]. unfold spawn. cbn [tasks].
    assert (Hnil : currentFiles pg = []) by (by apply length_zero_iff_nil).
    assert (Hrs : rs = []) by (by apply length_zero_iff_nil).
    unfold page_after_run, page_at_loop_exit. fold rs. rewrite Hrs.
    unfold convertBulkWithProgress. rewrite showFileList_pending.
    unfold loop_from. cbn [currentFiles page_in_loop]. rewrite Hnil.
    reflexivity.
  - assert (Hf : exists f, currentFiles pg !! m = Some f).
    { apply lookup_lt_is_Some. lia. }
    destruct Hf as [f Hf].
    rewrite replicate_S_end, run_snoc, (run_waiting pg ts m f Hf).
    fold rs. cbn [step tasks page_of]. rewrite list_lookup_middle by done.
    unfold resume. cbn [tasks].
    rewrite (insert_at_length ts [] _ _ (length ts) eq_refl).
    pose proof (replies_lookup gateway _ _ _ Hf) as Hr. fold rs in Hr.
    assert (Hexit : forall res err,
      loop_from (S m) res err
        (updateFileStatus m (status_of_reply (gateway m f))
                          (page_waiting gateway pg m))
      = (catch_finally
           (WriterError <$> (after_loop res err
                                        (page_at_loop_exit gateway pg)).2)
           (after_loop res err (page_at_loop_exit gateway pg)).1,
         BulkSettled res err)).
    { intros res err. unfold page_waiting at 1. fold rs. rewrite En.
      rewrite updateFileStatus_in_loop
        by (rewrite length_items_waiting; lia).
      rewrite (items_waiting_last _ _ _ Hlen Hr).
      rewrite take_ge by (rewrite length_indexed; lia).
      unfold loop_from. cbn [currentFiles page_in_loop].
      rewrite lookup_ge_None_2 by lia.
      unfold page_at_loop_exit. fold rs.
      by destruct (after_loop res err _). }
    assert (Hall : take (S m) rs = rs) by (apply take_ge; lia).
    assert (Hres : omap converted_image rs
                   = omap converted_image (take m rs)
                     ++ match converted_image (gateway m f) with
                        | Some b => [b]
                        | None => []
                        end).
    { rewrite <- Hall at 1. by rewrite (take_S_r _ _ _ Hr), omap_snoc. }
    assert (Herr : List.filter is_failed rs
                   = List.filter is_failed (take m rs)
                     ++ (if is_failed (gateway m f) then [gateway m f]
                         else [])).
    { rewrite <- Hall at 1. by rewrite (take_S_r _ _ _ Hr), filter_snoc. }
    unfold loop_continues, page_after_run. fold rs. rewrite Hres, Herr.
    destruct (gateway m f) as [result|] eqn:Eg.
    + specialize (Hexit (omap converted_image (take m rs) ++ [result])
                        (length (List.filter is_failed (take m rs)))).
      cbn [status_of_reply] in Hexit. rewrite Hexit.
      cbn [fst snd converted_image is_failed]. by rewrite app_nil_r.
    + specialize (Hexit (omap converted_image (take m rs))
                        (S (length (List.filter is_failed (take m rs))))).
      cbn [status_of_reply] in Hexit. rewrite Hexit.
      cbn [fst snd converted_image is_failed].
      rewrite !app_nil_r, !length_app. cbn [length].
      by rewrite !Nat.add_1_r.
Qed.
End QuietRun.

Lemma quiet_call toLowerCase gateway single_gateway (w0 : world) :
  let rs := replies gateway (currentFiles (page_of w0)) in
  run toLowerCase gateway single_gateway
      (replicate (length (currentFiles (page_of w0)))
                 (Answer (length (tasks w0))))
      (call_convertBulkWithProgress w0)
  = {| page_of := page_after_run gateway (page_of w0);
       tasks := tasks w0 ++ [BulkSettled (omap converted_image rs)
                               (length (List.filter is_failed rs))] |}.
Proof. destruct w0 as [pg ts]. apply quiet_run. Qed.

(** ** What the log holds *)

Lemma fetches_app l1 l2 : fetches (l1 ++ l2) = fetches l1 ++ fetches l2.
Proof. apply omap_app. Qed.

Lemma requested_app l1 l2 : requested (l1 ++ l2) = requested l1 ++ requested l2.
Proof. apply omap_app. Qed.

Lemma zip_calls_app l1 l2 : zip_calls (l1 ++ l2) = zip_calls l1 ++ zip_calls l2.
Proof. apply omap_app. Qed.

Lemma toasts_app l1 l2 : toasts (l1 ++ l2) = toasts l1 ++ toasts l2.
Proof. apply omap_app. Qed.

Lemma fetches_fetch_events requests : fetches (fetch_events requests) = requests.
Proof.
  induction requests as [|[i f] requests IH]; [done|]. cbn. by f_equal.
Qed.

Lemma requested_fetch_events requests :
  requested (fetch_events requests) = map snd requests.
Proof.
  induction requests as [|[i f] requests IH]; [done|]. cbn. by f_equal.
Qed.

Lemma zip_calls_fetch_events requests : zip_calls (fetch_events requests) = [].
Proof. by induction requests. Qed.

Lemma toasts_fetch_events requests : toasts (fetch_events requests) = [].
Proof. by induction requests. Qed.

Lemma map_snd_indexed {A} (l : list A) i : map snd (indexed i l) = l.
Proof. revert i. induction l as [|a l IH]; intros i; cbn; [done | by f_equal]. Qed.

(** ** The page after a run, case by case *)

(** Nothing converted: the toast, and the button is enabled again. *)
Lemma page_after_run_nothing gateway pg :
  omap converted_image (replies gateway (currentFiles pg)) = [] ->
  page_after_run gateway pg
  = set_convertBtn_disabled false
      (showToast NoImagesCouldBeConverted (page_at_loop_exit gateway pg)).
Proof. intros H. unfold page_after_run, after_loop. by rewrite H. Qed.

(** Results and an archive. *)
Lemma page_after_run_archive gateway pg zipBlob :
  let rs := replies gateway (currentFiles pg) in
  let results := omap converted_image rs in
  results <> [] ->
  createZipFromBase64Images results = Ok zipBlob ->
  page_after_run gateway pg
  = set_convertBtn_disabled false
      (showToast (ImagesConverted (length results))
         (set_resultContainer_hidden false
            (set_result (ZipArchive zipBlob)
               (BulkResult (length results)
                           (length (List.filter is_failed rs)))
               (log_event (CreateZip results)
                          (page_at_loop_exit gateway pg))))).
Proof.
  intros rs results Hne Hzip. unfold page_after_run, after_loop.
  fold rs. fold results. rewrite Hzip.
  destruct results; [done|]. reflexivity.
Qed.

(** Results and an exception of the writer: the error toast of
    [convertImage]. *)
Lemma page_after_run_thrown gateway pg e :
  let results := omap converted_image (replies gateway (currentFiles pg)) in
  results <> [] ->
  createZipFromBase64Images results = Throw e ->
  page_after_run gateway pg
  = set_convertBtn_disabled false
      (showToast (ErrorMessage (WriterError e))
         (log_event (CreateZip results) (page_at_loop_exit gateway pg))).
Proof.
  intros results Hne Hzip. unfold page_after_run, after_loop.
  fold results. rewrite Hzip.
  destruct results; [done|]. reflexivity.
Qed.

(** What every run leaves, whatever its results. *)
Lemma page_after_run_keeps gateway pg :
  let fs := currentFiles pg in
  let rs := replies gateway fs in
  let results := omap converted_image rs in
  let pg' := page_after_run gateway pg in
  currentFiles pg' = fs
  /\ selectedFormat pg' = selectedFormat pg
  /\ qualityContainer_hidden pg' = qualityContainer_hidden pg
  /\ previewContainer_hidden pg' = true
  /\ fileListContainer_hidden pg' = false
  /\ dropZone_has_file pg' = true
  /\ convertBtn_disabled pg' = false
  /\ fileListContainer_content pg'
     = content_of fs (map status_of_reply rs)
  /\ fetches (page_log pg') = fetches (page_log pg) ++ indexed 0 fs
  /\ requested (page_log pg') = requested (page_log pg) ++ fs
  /\ zip_calls (page_log pg')
     = zip_calls (page_log pg) ++ (if results is [] then [] else [results]).
Proof.
  intros fs rs results pg'.
  assert (Hlog : exists tail,
    page_log pg' = page_log pg ++ fetch_events (indexed 0 fs) ++ tail
    /\ fetches tail = [] /\ requested tail = []
    /\ zip_calls tail = (if results is [] then [] else [results])
    /\ currentFiles pg' = fs
    /\ selectedFormat pg' = selectedFormat pg
    /\ qualityContainer_hidden pg' = qualityContainer_hidden pg
    /\ previewContainer_hidden pg' = true
    /\ fileListContainer_hidden pg' = false
    /\ dropZone_has_file pg' = true
    /\ convertBtn_disabled pg' = false
    /\ fileListContainer_content pg'
       = content_of fs (map status_of_reply rs)).
  { unfold pg'. destruct results as [|r results'] eqn:E.
    - rewrite (page_after_run_nothing gateway pg E).
      exists [ShowToast NoImagesCouldBeConverted]. cbn.
      by rewrite <- app_assoc.
    - assert (Hne : omap converted_image (replies gateway (currentFiles pg))
                    <> []).
      { fold fs. fold rs. fold results. by rewrite E. }
      fold fs in Hne.
      destruct (createZipFromBase64Images (r :: results')) as [zipBlob|e]
        eqn:Hzip.
      + rewrite (page_after_run_archive gateway pg zipBlob);
          [|done|fold fs; fold rs; fold results; by rewrite E].
        fold fs. fold rs. fold results. rewrite E.
        exists [CreateZip (r :: results');
                ShowToast (ImagesConverted (length (r :: results')))].
        cbn. by rewrite <- !app_assoc.
      + rewrite (page_after_run_thrown gateway pg e);
          [|done|fold fs; fold rs; fold results; by rewrite E].
        fold fs. fold rs. fold results. rewrite E.
        exists [CreateZip (r :: results');
                ShowToast (ErrorMessage (WriterError e))].
        cbn. by rewrite <- !app_assoc. }
  destruct Hlog as (tail & Hlog & Hf & Hr & Hz & H1 & H2 & H3 & H4 & H5 & H6
                    & H7 & H8).
  repeat split; try done.
  - rewrite Hlog, !fetches_app, fetches_fetch_events, Hf. by rewrite app_nil_r.
  - rewrite Hlog, !requested_app, requested_fetch_events, Hr, map_snd_indexed.
    by rewrite app_nil_r.
  - rewrite Hlog, !zip_calls_app, zip_calls_fetch_events, Hz. done.
Qed.

Lemma lookup_last_task (ts : list task) t :
  (ts ++ [t]) !! length ts = Some t.
Proof. by rewrite list_lookup_middle. Qed.

(** ** What every turn of the event loop keeps *)

(** The format and the quality slider are written by [selectFormat] and by
    nothing else. *)
Lemma format_after_updateFileStatus index status pg :
  selectedFormat (updateFileStatus index status pg) = selectedFormat pg
  /\ qualityContainer_hidden (updateFileStatus index status pg)
     = qualityContainer_hidden pg.
Proof.
  unfold updateFileStatus.
  destruct (fileListContainer_content pg) as [header items|]; [|done].
  by destruct (index <? length items)%nat.
Qed.

Lemma format_after_loop_from i res err pg :
  selectedFormat (loop_from i res err pg).1 = selectedFormat pg
  /\ qualityContainer_hidden (loop_from i res err pg).1
     = qualityContainer_hidden pg.
Proof.
  unfold loop_from. destruct (currentFiles pg !! i) as [f|].
  - cbn [fst log_event selectedFormat qualityContainer_hidden].
    apply format_after_updateFileStatus.
  - unfold after_loop. destruct (0 <? length res)%nat; [|done].
    by destruct (createZipFromBase64Images res).
Qed.

Lemma quality_after_selectFormat format pg :
  quality_matches_format (selectFormat format pg).
Proof. reflexivity. Qed.

Lemma quality_after_autoSelectFormat mimeType ext pg :
  quality_matches_format (autoSelectFormat mimeType ext pg).
Proof.
  unfold autoSelectFormat.
  destruct (_ || _); [apply quality_after_selectFormat|].
  destruct (_ || _); apply quality_after_selectFormat.
Qed.

Section StepFacts.
Variable toLowerCase : jsstring -> jsstring.
Variable gateway : nat -> file -> reply.
Variable single_gateway : file -> bool.

Lemma quality_after_step inp w :
  quality_matches_format (page_of w) ->
  quality_matches_format
    (page_of (step toLowerCase gateway single_gateway inp w)).
Proof.
  intros Hq. unfold quality_matches_format in *.
  destruct inp as [files|index|format| | |id]; cbn [step on_page page_of].
  - destruct files as [|f files]; [done|].
    unfold handleDrop, handleFiles.
    destruct (List.filter _ _) as [|first rest]; [done|].
    apply quality_after_autoSelectFormat.
  - unfold removeFile. cbn [set_currentFiles currentFiles].
    destruct (_ =? 0)%nat; [done|]. by destruct (_ =? 1)%nat.
  - apply quality_after_selectFormat.
  - destruct (convertBtn_disabled (page_of w)); [done|].
    unfold convertImage. destruct (currentFiles (page_of w)) as [|f fs] eqn:E.
    + done.
    + cbn [set_convertBtn_disabled currentFiles]. rewrite E.
      destruct (1 <? length (f :: fs))%nat; [|done].
      unfold spawn, convertBulkWithProgress. cbn [page_of fst].
      destruct (format_after_loop_from 0 [] 0
                  (showFileList (currentFiles (set_convertBtn_disabled true
                                                 (page_of w)))
                     (Some (map (fun _ => Status.pending)
                                (currentFiles (set_convertBtn_disabled true
                                                 (page_of w)))))
                     (set_convertBtn_disabled true (page_of w))))
        as [-> ->].
      exact Hq.
  - done.
  - destruct (tasks w !! id) as [[f|i f res err| |]|]; try done.
    + unfold resume, single_continues. cbn [page_of].
      destruct (single_gateway f); [|done].
      by destruct (currentFiles (page_of w)).
    + unfold resume, loop_continues. cbn [page_of].
      destruct (gateway i f) as [result|].
      * destruct (format_after_loop_from (S i) (res ++ [result]) err
                    (updateFileStatus i Status.done (page_of w)))
          as [-> ->].
        destruct (format_after_updateFileStatus i Status.done (page_of w))
          as [-> ->]. exact Hq.
      * destruct (format_after_loop_from (S i) res (S err)
                    (updateFileStatus i Status.error (page_of w)))
          as [-> ->].
        destruct (format_after_updateFileStatus i Status.error (page_of w))
          as [-> ->]. exact Hq.
Qed.

Lemma quality_after_run ins w :
  quality_matches_format (page_of w) ->
  quality_matches_format
    (page_of (run toLowerCase gateway single_gateway ins w)).
Proof.
  revert w. induction ins as [|inp ins IH]; intros w Hq; [done|].
  cbn [run fold_left]. apply IH. by apply quality_after_step.
Qed.
End StepFacts.

(** ** A gateway that fails every request *)

Lemma log_after_updateFileStatus index status pg :
  page_log (updateFileStatus index status pg) = page_log pg.
Proof.
  unfold updateFileStatus.
  destruct (fileListContainer_content pg) as [header items|]; [|done].
  by destruct (index <? length items)%nat.
Qed.

Lemma log_after_autoSelectFormat mimeType ext pg :
  page_log (autoSelectFormat mimeType ext pg) = page_log pg.
Proof.
  unfold autoSelectFormat. destruct (_ || _); [done|]. by destruct (_ || _).
Qed.

Lemma log_after_removeFile index pg :
  page_log (removeFile index pg) = page_log pg.
Proof.
  unfold removeFile. cbn [set_currentFiles currentFiles].
  destruct (_ =? 0)%nat; [done|]. by destruct (_ =? 1)%nat.
Qed.

(** Without results the loop goes on, or ends, without a call of the
    writer. *)
Lemma loop_from_without_results i err pg :
  zip_calls (page_log (loop_from i [] err pg).1) = zip_calls (page_log pg)
  /\ match (loop_from i [] err pg).2 with
     | BulkAwaiting _ _ res _ => res = []
     | _ => True
     end.
Proof.
  unfold loop_from. destruct (currentFiles pg !! i) as [f|].
  - cbn [fst snd log_event page_log].
    rewrite zip_calls_app, log_after_updateFileStatus. cbn.
    by rewrite app_nil_r.
  - cbn. rewrite zip_calls_app. cbn. by rewrite app_nil_r.
Qed.

Section FailingGateway.
Variable toLowerCase : jsstring -> jsstring.
Variable gateway : nat -> file -> reply.
Variable single_gateway : file -> bool.
Hypothesis gateway_fails : forall i f, gateway i f = Failed.

Lemma zip_calls_after_handleDrop files pg :
  zip_calls (page_log (handleDrop toLowerCase files pg))
  = zip_calls (page_log pg).
Proof.
  destruct files as [|f files]; [done|]. unfold handleDrop, handleFiles.
  destruct (List.filter _ _) as [|first rest].
  - cbn. rewrite zip_calls_app. cbn. by rewrite app_nil_r.
  - rewrite log_after_autoSelectFormat.
    cbn [set_convertBtn_disabled set_resultContainer_hidden page_log].
    by destruct (_ =? 1)%nat.
Qed.

Lemma no_result_after_step inp w :
  no_result_pending w ->
  no_result_pending (step toLowerCase gateway single_gateway inp w)
  /\ zip_calls (page_log (page_of (step toLowerCase gateway single_gateway
                                        inp w)))
     = zip_calls (page_log (page_of w)).
Proof.
  intros Hno.
  assert (Hspawn : forall call,
            match call.2 with
            | BulkAwaiting _ _ res _ => res = []
            | _ => True
            end ->
            no_result_pending (spawn call w)).
  { intros call Hcall id i f res err Hlook. unfold spawn in Hlook.
    cbn [tasks] in Hlook.
    apply lookup_app_Some in Hlook as [Hold|[_ Hnew]].
    - by eapply Hno.
    - destruct (id - length (tasks w))%nat; [|done].
      cbn in Hnew. injection Hnew as Hnew. by rewrite Hnew in Hcall. }
  assert (Hresume : forall id call,
            match call.2 with
            | BulkAwaiting _ _ res _ => res = []
            | _ => True
            end ->
            no_result_pending (resume id call w)).
  { intros id call Hcall id' i f res err Hlook. unfold resume in Hlook.
    cbn [tasks] in Hlook.
    destruct (decide (id' = id)) as [->|Hne].
    - assert (Hlt : (id < length (tasks w))%nat).
      { apply lookup_lt_Some in Hlook. by rewrite length_insert in Hlook. }
      rewrite list_lookup_insert_eq in Hlook by done.
      injection Hlook as Hlook. by rewrite Hlook in Hcall.
    - rewrite list_lookup_insert_ne in Hlook by done. by eapply Hno. }
  destruct inp as [files|index|format| | |id]; cbn [step].
  - split; [exact Hno|]. apply zip_calls_after_handleDrop.
  - split; [exact Hno|]. cbn [on_page page_of].
    by rewrite log_after_removeFile.
  - split; [exact Hno | done].
  - destruct (convertBtn_disabled (page_of w)); [done|].
    unfold convertImage.
    destruct (currentFiles (page_of w)) as [|f fs] eqn:E.
    + split; [exact Hno|]. cbn. rewrite zip_calls_app. cbn.
      by rewrite app_nil_r.
    + cbn [set_convertBtn_disabled currentFiles]. rewrite E.
      destruct (1 <? length (f :: fs))%nat.
      * unfold convertBulkWithProgress.
        match goal with
        | |- context [loop_from 0 [] 0 ?pg] =>
            destruct (loop_from_without_results 0 0 pg) as [Hz Ht]
        end.
        split; [by apply Hspawn|]. unfold spawn. cbn [page_of].
        rewrite Hz. reflexivity.
      * split; [by apply Hspawn|]. unfold spawn. cbn.
        rewrite zip_calls_app. cbn. by rewrite app_nil_r.
  - split; [exact Hno | done].
  - destruct (tasks w !! id) as [[f|i f res err| |]|] eqn:Et; try done.
    + unfold single_continues. destruct (single_gateway f).
      * destruct (currentFiles (page_of w)).
        -- split; [by apply Hresume|]. unfold resume. cbn.
           rewrite zip_calls_app. cbn. by rewrite app_nil_r.
        -- split; [by apply Hresume|]. unfold resume. cbn.
           rewrite zip_calls_app. cbn. by rewrite app_nil_r.
      * split; [by apply Hresume|]. unfold resume. cbn.
        rewrite zip_calls_app. cbn. by rewrite app_nil_r.
    + rewrite gateway_fails. unfold loop_continues.
      assert (res = []) as -> by (by eapply Hno).
      match goal with
      | |- context [loop_from ?i [] ?err ?pg] =>
          destruct (loop_from_without_results i err pg) as [Hz Ht]
      end.
      split; [by apply Hresume|]. unfold resume. cbn [page_of].
      by rewrite Hz, log_after_updateFileStatus.
Qed.

Lemma no_result_after_run ins w :
  no_result_pending w ->
  no_result_pending (run toLowerCase gateway single_gateway ins w)
  /\ zip_calls (page_log (page_of (run toLowerCase gateway single_gateway
                                       ins w)))
     = zip_calls (page_log (page_of w)).
Proof.
  revert w. induction ins as [|inp ins IH]; intros w Hno; [done|].
  cbn [run fold_left].
  destruct (no_result_after_step inp w Hno) as [Hno' Hz].
  destruct (IH _ Hno') as [Hno'' Hz']. split; [exact Hno''|].
  unfold run in Hz'. by rewrite Hz', Hz.
Qed.
End FailingGateway.

(** ** The view and the selection *)

(** The view depends on the selection, on the three switches, on the items
    of the list and, without files, on the button. *)
Lemma view_matches_selection_ext pg pg' :
  currentFiles pg' = currentFiles pg ->
  previewContainer_hidden pg' = previewContainer_hidden pg ->
  fileListContainer_hidden pg' = fileListContainer_hidden pg ->
  dropZone_has_file pg' = dropZone_has_file pg ->
  match fileListContainer_content pg, fileListContainer_content pg' with
  | Items _ items, Items _ items' => length items' = length items
  | Markup, Markup => True
  | _, _ => False
  end ->
  (currentFiles pg = [] -> convertBtn_disabled pg' = convertBtn_disabled pg) ->
  view_matches_selection pg -> view_matches_selection pg'.
Proof.
  unfold view_matches_selection. intros -> -> -> -> Hc Hb.
  destruct (currentFiles pg) as [|f [|g fs]].
  - by rewrite Hb.
  - done.
  - intros (? & ? & ? & Hlen). repeat split; try done.
    destruct (fileListContainer_content pg), (fileListContainer_content pg');
      try done. by rewrite Hc.
Qed.

Lemma same_content_refl pg :
  match fileListContainer_content pg, fileListContainer_content pg with
  | Items _ items, Items _ items' => length items' = length items
  | Markup, Markup => True
  | _, _ => False
  end.
Proof. by destruct (fileListContainer_content pg). Qed.

Ltac same_content :=
  cbn;
  match goal with
  | |- match fileListContainer_content ?p with _ => _ end =>
      exact (same_content_refl p)
  end.

Lemma view_after_updateFileStatus index status pg :
  view_matches_selection pg ->
  view_matches_selection (updateFileStatus index status pg).
Proof.
  apply view_matches_selection_ext; unfold updateFileStatus;
    destruct (fileListContainer_content pg) as [header items|] eqn:E;
    try destruct (index <? length items)%nat; try done;
    cbn; rewrite ?E; try done.
  by rewrite length_insert.
Qed.

Lemma view_after_log_event ev pg :
  view_matches_selection pg -> view_matches_selection (log_event ev pg).
Proof.
  apply view_matches_selection_ext; try done. same_content.
Qed.

Lemma view_after_showSingleFilePreview pg f :
  currentFiles pg = [f] -> view_matches_selection (showSingleFilePreview pg).
Proof. intros H. unfold view_matches_selection. cbn. by rewrite H. Qed.

Lemma view_after_showFileList pg statuses f g fs :
  currentFiles pg = f :: g :: fs ->
  view_matches_selection (showFileList (currentFiles pg) statuses pg).
Proof.
  intros H. unfold view_matches_selection. cbn [showFileList currentFiles].
  rewrite H. cbn [previewContainer_hidden fileListContainer_hidden
                  dropZone_has_file fileListContainer_content].
  repeat split. unfold showFileList. cbn [fileListContainer_content].
  destruct (plain_names (f :: g :: fs)); [|done].
  by rewrite length_map, length_indexed.
Qed.

Lemma files_after_loop res err pg :
  currentFiles (after_loop res err pg).1 = currentFiles pg.
Proof.
  unfold after_loop. destruct (0 <? length res)%nat; [|done].
  by destruct (createZipFromBase64Images res).
Qed.

Lemma files_after_updateFileStatus index status pg :
  currentFiles (updateFileStatus index status pg) = currentFiles pg.
Proof.
  unfold updateFileStatus.
  destruct (fileListContainer_content pg) as [header items|]; [|done].
  by destruct (index <? length items)%nat.
Qed.

(** A return into [convertImage], with its [finally], keeps the view as
    long as something is selected. *)
Lemma view_after_return res err pg :
  currentFiles pg <> [] ->
  view_matches_selection pg ->
  view_matches_selection
    (catch_finally (WriterError <$> (after_loop res err pg).2)
                   (after_loop res err pg).1).
Proof.
  intros Hne. apply view_matches_selection_ext;
    unfold after_loop, catch_finally;
    destruct (0 <? length res)%nat;
    try destruct (createZipFromBase64Images res);
    cbn; try done; same_content.
Qed.

Lemma view_after_loop_from i res err pg :
  currentFiles pg <> [] ->
  view_matches_selection pg ->
  view_matches_selection (loop_from i res err pg).1.
Proof.
  intros Hne Hview. unfold loop_from.
  destruct (currentFiles pg !! i) as [f|].
  - cbn [fst]. by apply view_after_log_event, view_after_updateFileStatus.
  - pose proof (view_after_return res err pg Hne Hview) as H.
    by destruct (after_loop res err pg).
Qed.

Section ViewFacts.
Variable toLowerCase : jsstring -> jsstring.
Variable gateway : nat -> file -> reply.
Variable single_gateway : file -> bool.

Lemma view_after_handleFiles files pg :
  view_matches_selection pg ->
  view_matches_selection (handleFiles toLowerCase files pg).
Proof.
  intros Hview. unfold handleFiles.
  destruct (List.filter _ _) as [|first rest] eqn:E.
  - by apply view_after_log_event.
  - assert (Hsel : forall pg0,
              view_matches_selection pg0 -> currentFiles pg0 <> [] ->
              view_matches_selection
                (autoSelectFormat (file_type first)
                   (extension_of toLowerCase (file_name first))
                   (set_convertBtn_disabled false
                      (set_resultContainer_hidden true pg0)))).
    { intros pg0 H0 Hne.
      eapply view_matches_selection_ext; [..|exact H0];
        unfold autoSelectFormat;
        repeat (destruct (_ || _)); cbn; try done;
        same_content. }
    apply Hsel.
    + cbn [set_currentFiles currentFiles]. destruct rest as [|g rest].
      * cbn [length Nat.eqb]. by eapply view_after_showSingleFilePreview.
      * cbn [length Nat.eqb].
        by eapply (view_after_showFileList
                     (set_currentFiles (first :: g :: rest) pg)).
    + cbn [set_currentFiles currentFiles].
      destruct (_ =? 1)%nat; done.
Qed.

Lemma view_after_removeFile index pg :
  view_matches_selection (removeFile index pg).
Proof.
  unfold removeFile. cbn [set_currentFiles currentFiles].
  destruct (delete index (currentFiles pg)) as [|f [|g fs]] eqn:E.
  - done.
  - cbn [length Nat.eqb]. by eapply view_after_showSingleFilePreview.
  - cbn [length Nat.eqb].
    pose proof (view_after_showFileList
                  (set_currentFiles (f :: g :: fs) pg) None f g fs eq_refl)
      as H.
    exact H.
Qed.

Lemma view_after_convertImage w :
  view_matches_selection (page_of w) ->
  view_matches_selection (page_of (convertImage w)).
Proof.
  intros Hview. unfold convertImage.
  destruct (currentFiles (page_of w)) as [|f [|g fs]] eqn:E.
  - by apply view_after_log_event.
  - cbn [set_convertBtn_disabled currentFiles]. rewrite E.
    cbn [length Nat.ltb Nat.leb]. unfold spawn. cbn [page_of fst].
    apply view_after_log_event.
    eapply view_matches_selection_ext; [..|exact Hview]; try done.
    + same_content.
    + by rewrite E.
  - cbn [set_convertBtn_disabled currentFiles]. rewrite E.
    cbn [length Nat.ltb Nat.leb]. unfold spawn, convertBulkWithProgress.
    cbn [page_of fst]. apply view_after_loop_from.
    + cbn. by rewrite E.
    + eapply (view_after_showFileList
                (set_convertBtn_disabled true (page_of w))).
      cbn. exact E.
Qed.

(** Every turn of the event loop keeps the view in step with the selection,
    but for an answer that arrives when nothing is selected. *)
Lemma view_after_step inp w :
  view_matches_selection (page_of w) ->
  (forall id, inp = Answer id -> currentFiles (page_of w) <> []) ->
  view_matches_selection
    (page_of (step toLowerCase gateway single_gateway inp w)).
Proof.
  intros Hview Hne.
  destruct inp as [files|index|format| | |id]; cbn [step on_page page_of].
  - destruct files as [|f files]; [done|]. by apply view_after_handleFiles.
  - apply view_after_removeFile.
  - eapply view_matches_selection_ext; [..|exact Hview]; try done.
    same_content.
  - destruct (convertBtn_disabled (page_of w)); [done|].
    by apply view_after_convertImage.
  - done.
  - specialize (Hne id eq_refl).
    destruct (tasks w !! id) as [[f|i f res err| |]|]; try done.
    + unfold resume, single_continues. cbn [page_of].
      destruct (single_gateway f).
      * destruct (currentFiles (page_of w)) as [|f0 fs] eqn:E; [done|].
        eapply view_matches_selection_ext; [..|exact Hview]; cbn; try done.
        -- same_content.
        -- by rewrite E.
      * eapply view_matches_selection_ext; [..|exact Hview]; cbn; try done.
        same_content.
    + unfold resume, loop_continues. cbn [page_of].
      destruct (gateway i f) as [result|];
        (apply view_after_loop_from;
         [by rewrite files_after_updateFileStatus
         |by apply view_after_updateFileStatus]).
Qed.

(** A reset during a conversion: when the answer arrives nothing is selected,
    the call returns, and its [finally] enables the button. *)
Lemma reset_then_answer w id t :
  tasks w !! id = Some t -> is_awaiting t = true ->
  let w' := run toLowerCase gateway single_gateway [Reset; Answer id] w in
  currentFiles (page_of w') = []
  /\ convertBtn_disabled (page_of w') = false
  /\ (exists t', tasks w' !! id = Some t' /\ is_awaiting t' = false).
Proof.
  intros Ht Hwait. cbn [run fold_left step on_page tasks page_of]. rewrite Ht.
  assert (Hlt : (id < length (tasks w))%nat) by (by eapply lookup_lt_Some).
  destruct t as [f|i f res err| |]; try done.
  - unfold resume, single_continues. cbn [page_of tasks reset currentFiles].
    rewrite list_lookup_insert_eq by done.
    destruct (single_gateway f); cbn; eauto.
  - unfold resume, loop_continues, loop_from.
    destruct (gateway i f) as [result|];
      rewrite files_after_updateFileStatus; cbn [reset currentFiles];
      rewrite lookup_nil;
      match goal with
      | |- context [after_loop ?r ?e ?pg] =>
          pose proof (files_after_loop r e pg) as Hfiles;
          rewrite files_after_updateFileStatus in Hfiles;
          destruct (after_loop r e pg) as [pg' thrown]
      end;
      cbn [fst snd page_of tasks] in *;
      rewrite list_lookup_insert_eq by done;
      (split; [by destruct thrown|]); (split; [by destruct thrown|]);
      eauto.
Qed.
End ViewFacts.

(** ** The toast and the result of a run *)

(** The one toast of a run: by its results and by what the writer makes of
    them. *)
Lemma toasts_after_run gateway pg :
  let results := omap converted_image (replies gateway (currentFiles pg)) in
  toasts (page_log (page_after_run gateway pg))
  = toasts (page_log pg)
    ++ [match results with
        | [] => NoImagesCouldBeConverted
        | _ :: _ =>
            match createZipFromBase64Images results with
            | Ok _ => ImagesConverted (length results)
            | Throw e => ErrorMessage (WriterError e)
            end
        end].
Proof.
  intros results. destruct results as [|r results'] eqn:E.
  - rewrite (page_after_run_nothing gateway pg E). cbn.
    rewrite !toasts_app, toasts_fetch_events. cbn. by rewrite app_nil_r.
  - assert (Hne : omap converted_image (replies gateway (currentFiles pg))
                  <> []) by (fold results; by rewrite E).
    destruct (createZipFromBase64Images (r :: results')) as [zipBlob|e]
      eqn:Hzip.
    + rewrite (page_after_run_archive gateway pg zipBlob Hne);
        [|fold results; by rewrite E].
      cbn. rewrite !toasts_app, toasts_fetch_events. cbn.
      fold results. rewrite E. by rewrite app_nil_r, <- app_assoc.
    + rewrite (page_after_run_thrown gateway pg e Hne);
        [|fold results; by rewrite E].
      cbn. rewrite !toasts_app, toasts_fetch_events. cbn.
      by rewrite app_nil_r, <- app_assoc.
Qed.

(** Without an archive the result of the page is what it was. *)
Lemma result_without_archive gateway pg :
  let results := omap converted_image (replies gateway (currentFiles pg)) in
  (results = [] \/ exists e, createZipFromBase64Images results = Throw e) ->
  downloadBtn_target (page_after_run gateway pg) = downloadBtn_target pg
  /\ resultInfo (page_after_run gateway pg) = resultInfo pg
  /\ resultContainer_hidden (page_after_run gateway pg)
     = resultContainer_hidden pg.
Proof.
  intros results [Hnil|[e He]].
  - by rewrite (page_after_run_nothing gateway pg Hnil).
  - destruct results as [|r results'] eqn:E.
    + by rewrite (page_after_run_nothing gateway pg E).
    + rewrite (page_after_run_thrown gateway pg e);
        [done | fold results; by rewrite E | fold results; by rewrite E].
Qed.

Lemma status_counts (rs : list reply) :
  length (List.filter is_done (map status_of_reply rs))
  = length (omap converted_image rs)
  /\ length (List.filter is_error (map status_of_reply rs))
     = length (List.filter is_failed rs).
Proof. induction rs as [|[r|] rs [IH1 IH2]]; cbn; [done| |]; split; lia. Qed.

(** ** [convertImage] followed by its answers *)

Section ConvertFacts.
Variable toLowerCase : jsstring -> jsstring.
Variable gateway : nat -> file -> reply.
Variable single_gateway : file -> bool.

Lemma convertImage_run w0 :
  let fs := currentFiles (page_of w0) in
  let results := omap converted_image (replies gateway fs) in
  let w := run toLowerCase gateway single_gateway
               (replicate (length fs) (Answer (length (tasks w0))))
               (convertImage w0) in
  requested (page_log (page_of w)) = requested (page_log (page_of w0)) ++ fs
  /\ currentFiles (page_of w) = fs
  /\ convertBtn_disabled (page_of w)
     = match fs with
       | [] => convertBtn_disabled (page_of w0)
       | _ :: _ => false
       end
  /\ zip_calls (page_log (page_of w))
     = zip_calls (page_log (page_of w0))
       ++ match fs with
          | _ :: _ :: _ => if results is [] then [] else [results]
          | _ => []
          end.
Proof.
  intros fs results w. unfold w, convertImage. destruct w0 as [pg ts].
  cbn [page_of tasks] in *. unfold fs in *. clear fs w.
  destruct (currentFiles pg) as [|f [|g fs]] eqn:E.
  - cbn. rewrite requested_app, zip_calls_app. cbn. by rewrite !app_nil_r.
  - cbn [set_convertBtn_disabled currentFiles]. rewrite E.
    cbn [length Nat.ltb Nat.leb replicate run fold_left step spawn tasks
         page_of fst snd].
    rewrite lookup_last_task. unfold resume, single_continues.
    cbn [page_of log_event set_convertBtn_disabled currentFiles]. rewrite E.
    destruct (single_gateway f); cbn;
      rewrite !requested_app, !zip_calls_app; cbn;
      by rewrite ?app_nil_r, <- ?app_assoc.
  - cbn [set_convertBtn_disabled currentFiles]. rewrite E.
    cbn [Nat.ltb Nat.leb length].
    pose proof (quiet_run toLowerCase gateway single_gateway
                  (set_convertBtn_disabled true pg) ts) as Hrun.
    cbn zeta in Hrun. cbn [set_convertBtn_disabled currentFiles] in Hrun.
    rewrite E in Hrun. cbn [length] in Hrun.
    unfold spawn in *. cbn [tasks page_of] in *. rewrite Hrun.
    cbn [page_of].
    destruct (page_after_run_keeps gateway (set_convertBtn_disabled true pg))
      as (Hfiles & _ & _ & _ & _ & _ & Hbtn & _ & _ & Hreq & Hzip).
    cbn zeta in Hfiles, Hbtn, Hreq, Hzip.
    cbn [set_convertBtn_disabled currentFiles page_log] in Hfiles, Hreq, Hzip.
    rewrite E in Hfiles, Hreq, Hzip. done.
Qed.

Lemma handleFiles_selection files pg :
  let pg' := handleFiles toLowerCase files pg in
  currentFiles pg'
  = match List.filter (is_valid_file toLowerCase) files with
    | [] => currentFiles pg
    | valid => valid
    end
  /\ requested (page_log pg') = requested (page_log pg).
Proof.
  cbn zeta. unfold handleFiles.
  destruct (List.filter _ _) as [|first rest] eqn:E.
  - cbn. rewrite requested_app. cbn. by rewrite app_nil_r.
  - unfold autoSelectFormat. cbn [set_currentFiles currentFiles].
    destruct (_ =? 1)%nat; repeat (destruct (_ || _)); done.
Qed.
End ConvertFacts.

(** ** A run while the selection stands *)

Lemma files_after_loop_from i res err pg :
  currentFiles (loop_from i res err pg).1 = currentFiles pg.
Proof.
  unfold loop_from. destruct (currentFiles pg !! i) as [f|].
  - cbn [fst log_event currentFiles]. apply files_after_updateFileStatus.
  - pose proof (files_after_loop res err pg) as H.
    destruct (after_loop res err pg) as [pg' thrown]. cbn [fst] in *.
    by destruct thrown.
Qed.

Lemma files_after_loop_continues i res err r pg :
  currentFiles (loop_continues i res err r pg).1 = currentFiles pg.
Proof.
  unfold loop_continues.
  destruct r; by rewrite files_after_loop_from, files_after_updateFileStatus.
Qed.

Lemma files_after_single_continues ok pg :
  currentFiles (single_continues ok pg).1 = currentFiles pg.
Proof.
  unfold single_continues. destruct ok; [|done].
  by destruct (currentFiles pg) eqn:E.
Qed.

Lemma files_after_convertBulkWithProgress pg :
  currentFiles (convertBulkWithProgress pg).1 = currentFiles pg.
Proof. unfold convertBulkWithProgress. by rewrite files_after_loop_from. Qed.

(** The head of an iteration leaves the call at its request, or past the
    loop. *)
Lemma task_after_loop_from k res err pg :
  (loop_from k res err pg).2
  = match currentFiles pg !! k with
    | Some f => BulkAwaiting k f res err
    | None => BulkSettled res err
    end.
Proof.
  unfold loop_from.
  destruct (currentFiles pg !! k) as [f|]; [done|].
  by destruct (after_loop _ _ _).
Qed.

Section SelectionStands.
Variable toLowerCase : jsstring -> jsstring.
Variable gateway : nat -> file -> reply.
Variable single_gateway : file -> bool.

Lemma run_is_at_call w0 :
  run_is_at gateway (currentFiles (page_of w0)) (length (tasks w0)) 0
            (call_convertBulkWithProgress w0).
Proof.
  unfold run_is_at, call_convertBulkWithProgress, spawn.
  cbn [page_of tasks]. rewrite files_after_convertBulkWithProgress.
  split; [done|]. rewrite lookup_last_task. f_equal.
  unfold convertBulkWithProgress. rewrite task_after_loop_from.
  by rewrite take_0.
Qed.

Lemma run_is_at_step fs id k inp w :
  keeps_selection inp = true ->
  run_is_at gateway fs id k w ->
  run_is_at gateway fs id (k + (if is_answer_to id inp then 1 else 0))
            (step toLowerCase gateway single_gateway inp w).
Proof.
  intros Hkeep [Hfiles Htask].
  assert (Hlt : (id < length (tasks w))%nat) by (by eapply lookup_lt_Some).
  destruct inp as [files|index|format| | |id']; try done;
    cbn [is_answer_to step].
  - rewrite Nat.add_0_r. by split.
  - rewrite Nat.add_0_r.
    destruct (convertBtn_disabled (page_of w)); [by split|].
    unfold convertImage.
    destruct (currentFiles (page_of w)) as [|f0 fs0] eqn:E.
    + split; [by rewrite <- Hfiles | done].
    + cbn [set_convertBtn_disabled currentFiles]. rewrite E.
      destruct (1 <? length (f0 :: fs0))%nat; unfold spawn; split;
        cbn [page_of tasks fst snd].
      * rewrite files_after_convertBulkWithProgress. cbn. by rewrite E.
      * by rewrite lookup_app_l.
      * cbn. by rewrite E.
      * by rewrite lookup_app_l.
  - destruct (Nat.eqb_spec id' id) as [->|Hne].
    + rewrite Htask.
      destruct (fs !! k) as [f|] eqn:Ek.
      * pose proof (replies_lookup gateway _ _ _ Ek) as Hr.
        unfold resume. split; cbn [page_of tasks].
        -- by rewrite files_after_loop_continues.
        -- rewrite list_lookup_insert_eq by done. f_equal.
           replace (k + 1)%nat with (S k) by lia.
           rewrite (take_S_r _ _ _ Hr), omap_snoc, filter_snoc.
           unfold loop_continues.
           destruct (gateway k f) as [result|];
             rewrite task_after_loop_from, files_after_updateFileStatus,
                     Hfiles;
             cbn [converted_image is_failed]; rewrite ?app_nil_r; [done|].
           rewrite length_app. cbn [length]. by rewrite Nat.add_1_r.
      * split; [done|]. rewrite Htask. f_equal.
        assert (Hge : (length fs <= k)%nat) by (by apply lookup_ge_None).
        rewrite (lookup_ge_None_2 fs (k + 1)) by lia.
        rewrite !take_ge by (rewrite length_replies; lia). done.
    + rewrite Nat.add_0_r.
      destruct (tasks w !! id') as [[f|i f res err| |]|] eqn:Et;
        try (by split).
      * unfold resume. split; cbn [page_of tasks].
        -- by rewrite files_after_single_continues.
        -- by rewrite list_lookup_insert_ne.
      * unfold resume. split; cbn [page_of tasks].
        -- by rewrite files_after_loop_continues.
        -- by rewrite list_lookup_insert_ne.
Qed.

Lemma run_is_at_run fs id k inputs w :
  Forall (fun inp => keeps_selection inp = true) inputs ->
  run_is_at gateway fs id k w ->
  run_is_at gateway fs id (k + answers_to id inputs)
            (run toLowerCase gateway single_gateway inputs w).
Proof.
  intros Hkeep. revert k w.
  induction Hkeep as [|inp inputs Hinp _ IH]; intros k w Hat.
  - unfold answers_to. cbn. by rewrite Nat.add_0_r.
  - cbn [run fold_left]. unfold answers_to. cbn [List.filter].
    pose proof (run_is_at_step fs id k inp w Hinp Hat) as Hstep.
    specialize (IH _ _ Hstep). unfold answers_to, run in IH.
    destruct (is_answer_to id inp); cbn [length].
    + by replace (k + S (length (List.filter (is_answer_to id) inputs)))%nat
        with (k + 1 + length (List.filter (is_answer_to id) inputs))%nat
        by lia.
    + by rewrite Nat.add_0_r in IH.
Qed.

(** The last answer of a run that has met the list [fs] at every iteration:
    the function leaves the loop with the converted replies as its results,
    packages them, and returns. *)
Lemma last_answer fs id m w :
  length fs = S m ->
  run_is_at gateway fs id m w ->
  let rs := replies gateway fs in
  let results := omap converted_image rs in
  let failed := length (List.filter is_failed rs) in
  let w' := step toLowerCase gateway single_gateway (Answer id) w in
  tasks w' !! id = Some (BulkSettled results failed)
  /\ zip_calls (page_log (page_of w'))
     = zip_calls (page_log (page_of w))
       ++ (if results is [] then [] else [results])
  /\ (forall zipBlob,
        results <> [] -> createZipFromBase64Images results = Ok zipBlob ->
        downloadBtn_target (page_of w') = Some (ZipArchive zipBlob)
        /\ resultInfo (page_of w')
           = Some (BulkResult (length results) failed)).
Proof.
  intros Hlen Hat rs results failed w'.
  pose proof (run_is_at_step fs id m (Answer id) w eq_refl Hat) as Hnext.
  cbn [is_answer_to] in Hnext. rewrite Nat.eqb_refl in Hnext.
  destruct Hnext as [_ Htask'].
  rewrite (lookup_ge_None_2 fs (m + 1)) in Htask' by lia.
  rewrite !take_ge in Htask' by (rewrite length_replies; lia).
  split; [exact Htask'|].
  destruct Hat as [Hfiles Htask].
  assert (Hf : exists f, fs !! m = Some f)
    by (apply lookup_lt_is_Some; lia).
  destruct Hf as [f Hf]. rewrite Hf in Htask.
  pose proof (replies_lookup gateway _ _ _ Hf) as Hr.
  assert (Hall : take (S m) (replies gateway fs) = replies gateway fs)
    by (apply take_ge; rewrite length_replies; lia).
  assert (Hres : results
                 = omap converted_image (take m (replies gateway fs))
                   ++ match converted_image (gateway m f) with
                      | Some b => [b]
                      | None => []
                      end).
  { unfold results, rs. rewrite <- Hall at 1.
    by rewrite (take_S_r _ _ _ Hr), omap_snoc. }
  assert (Hfail : failed
                  = (length (List.filter is_failed
                               (take m (replies gateway fs)))
                     + (if is_failed (gateway m f) then 1 else 0))%nat).
  { unfold failed, rs. rewrite <- Hall at 1.
    rewrite (take_S_r _ _ _ Hr), filter_snoc, length_app.
    by destruct (is_failed (gateway m f)). }
  assert (Hpage : exists pg,
             page_of w'
             = catch_finally (WriterError <$> (after_loop results failed pg).2)
                             (after_loop results failed pg).1
             /\ page_log pg = page_log (page_of w)).
  { unfold w'. cbn [step]. rewrite Htask. unfold resume. cbn [page_of].
    unfold loop_continues.
    destruct (gateway m f) as [result|]; cbn [converted_image is_failed] in *;
      rewrite ?app_nil_r, ?Nat.add_0_r, ?Nat.add_1_r in *;
      rewrite <- Hres, <- Hfail; unfold loop_from;
      rewrite files_after_updateFileStatus, Hfiles,
              (lookup_ge_None_2 fs (S m)) by lia;
      match goal with
      | |- context [after_loop results failed ?p] =>
          exists p; split;
          [by destruct (after_loop results failed p)
          |apply log_after_updateFileStatus]
      end. }
  destruct Hpage as (pg & -> & Hlog).
  unfold after_loop. destruct results as [|r results'] eqn:E.
  - cbn. rewrite zip_calls_app, Hlog. cbn. rewrite app_nil_r.
    split; [done|]. intros zipBlob Hne. by destruct Hne.
  - cbn [length Nat.ltb Nat.leb].
    destruct (createZipFromBase64Images (r :: results')) as [zipBlob|e].
    + cbn. rewrite !zip_calls_app, Hlog. cbn. rewrite app_nil_r.
      split; [done|]. intros zipBlob' _ [= <-]. done.
    + cbn. rewrite !zip_calls_app, Hlog. cbn. rewrite app_nil_r.
      split; [done|]. intros zipBlob' _ [=].
Qed.
End SelectionStands.


Lemma answers_keep_selection id (inputs : list input) :
  Forall (fun inp => inp = Answer id) inputs ->
  Forall (fun inp => keeps_selection inp = true) inputs.
Proof. apply Forall_impl. by intros inp ->. Qed.

Lemma answers_to_replicate id k : answers_to id (replicate k (Answer id)) = k.
Proof.
  unfold answers_to. induction k as [|k IH]; [done|].
  cbn. rewrite Nat.eqb_refl. cbn. by f_equal.
Qed.

(** ** A run while the gateway fails on every file that the page gets *)


Lemma files_after_selectFormat format pg :
  currentFiles (selectFormat format pg) = currentFiles pg.
Proof. done. Qed.




Section OnlyFailures.
Variable toLowerCase : jsstring -> jsstring.
Variable gateway : nat -> file -> reply.
Variable single_gateway : file -> bool.
Variable fs : list file.
Hypothesis gateway_fails_on_fs : forall i f, f ∈ fs -> gateway i f = Failed.





End OnlyFailures.
(** * The properties of the specification, C1 to C10 *)

(** ** The orchestrator *)

(** C4, amended. For a run during which the selection is not changed (no
    drop, no removal and no reset between its start and its last answer),
    whatever else the page handles in between: when the last answer has
    arrived, the results are the images of exactly the files the gateway
    converted, in file order; when every file is converted they are the
    conversions in file order; the ZIP writer is called then, once, on that
    list, when it is not empty; and when the payloads of the results decode,
    the archive behind the download button holds one entry per result,
    emitted in the same order. *)
Theorem C4_results_keep_input_order toLowerCase gateway single_gateway
    (w0 : world) (inputs : list input) :
  let fs := currentFiles (page_of w0) in
  let id := length (tasks w0) in
  let rs := replies gateway fs in
  let results := omap converted_image rs in
  Forall (fun inp => keeps_selection inp = true) inputs ->
  S (answers_to id inputs) = length fs ->
  let w1 := run toLowerCase gateway single_gateway inputs
                (call_convertBulkWithProgress w0) in
  let w := step toLowerCase gateway single_gateway (Answer id) w1 in
  tasks w !! id = Some (BulkSettled results (length (List.filter is_failed rs)))
  /\ (forall images, rs = map Converted images -> results = images)
  /\ zip_calls (page_log (page_of w))
     = zip_calls (page_log (page_of w1))
       ++ (if results is [] then [] else [results])
  /\ (forall es,
        results <> [] -> decode_images results = Ok es ->
        downloadBtn_target (page_of w)
        = Some (ZipArchive (concat (map local_part es) ++ index_region es
                              ++ trailer_of es))
        /\ length es = length results
        /\ map name es
           = map (fun img => TextEncoder_encode (filename img)) results
        /\ Forall2 (fun img e => decode_image img = Ok e) results es)
  /\ ((exists es, decode_images results = Ok es) ->
      results_keep_input_order gateway fs id w).
Proof.
  intros fs id rs results Hkeep Hcount w1 w.
  assert (Hat : run_is_at gateway fs id (answers_to id inputs) w1).
  { apply (run_is_at_run toLowerCase gateway single_gateway fs id 0 inputs
             _ Hkeep), run_is_at_call. }
  destruct (last_answer toLowerCase gateway single_gateway fs id
              (answers_to id inputs) w1 (eq_sym Hcount) Hat)
    as (Htask & Hcalls & Hpackaged).
  cbn zeta in Htask, Hcalls, Hpackaged.
  fold w rs results in Htask, Hcalls, Hpackaged.
  assert (Harchive : forall es,
            results <> [] -> decode_images results = Ok es ->
            downloadBtn_target (page_of w)
            = Some (ZipArchive (concat (map local_part es) ++ index_region es
                                  ++ trailer_of es))).
  { intros es Hne Hdec.
    destruct (Hpackaged (archive_of es) Hne) as [Hdl _]; [|exact Hdl].
    by rewrite createZipFromBase64Images_layout, Hdec. }
  split; [exact Htask|]. split; [|split; [exact Hcalls|split]].
  - intros images Himgs. unfold results. rewrite Himgs.
    clear. induction images as [|img images IH]; simpl; [done | by f_equal].
  - intros es Hne Hdec. split; [by apply Harchive|]. split; [|split].
    + symmetry. eapply Forall2_length, decode_images_Forall2, Hdec.
    + by apply decode_images_names.
    + by apply decode_images_Forall2.
  - intros [es Hdec]. split; [by eexists|].
    intros Hne. exists es. split; [by apply decode_images_Forall2|].
    by apply Harchive.
Qed.

(** C4 as stated fails in two ways. Three files that the gateway converts,
    all three: when the third is removed from the list while the second is
    being converted, the run ends with two results. Two files that the
    gateway converts, the second with a payload that is not base64: the run
    has its two results and emits no archive. *)
Lemma C4_counterexample :
  ~ results_keep_input_order always_converts
      [png_file; jpg_file; gif_file] 0 interrupted_run
  /\ ~ results_keep_input_order bad_second [png_file; jpg_file] 0
         bad_payload_run.
Proof.
  split.
  - intros [[failed Htask] _]. vm_compute in Htask. discriminate Htask.
  - intros [_ Harchive].
    destruct Harchive as (es & _ & Hdl); [vm_compute; discriminate|].
    assert (Hnone : downloadBtn_target (page_of bad_payload_run) = None)
      by (vm_compute; reflexivity).
    rewrite Hnone in Hdl. discriminate Hdl.
Qed.





(** ** The archive writer *)

(** C2, amended. The offset recorded for an entry is the number of bytes
    emitted before its local header (the part pushed at that point starts
    with the local header signature), and the recorded offsets grow strictly
    from one entry to the next. For an entry whose recorded offset is below
    2^32, the offset field of its index record holds that offset, and the
    buffer has a local header signature at that position. *)
Theorem C2_offsets_follow_the_running_total images st buf :
  local_pass images = Ok st ->
  createZipFromBase64Images images = Ok buf ->
  (forall k entry,
      centralDirectory st !! k = Some entry ->
      Entry.offset entry
      = Z.of_nat (length (Blob (take (2 * k) (zipParts st))))
      /\ exists localHeader,
           zipParts st !! (2 * k)%nat = Some localHeader
           /\ take 4 localHeader = [80; 75; 3; 4])
  /\ (forall i j a b,
        (i < j)%nat ->
        centralDirectory st !! i = Some a ->
        centralDirectory st !! j = Some b ->
        Entry.offset a < Entry.offset b)
  /\ (forall k entry,
        centralDirectory st !! k = Some entry ->
        Entry.offset entry < 4294967296 ->
        slice buf (index_record_pos st k) 4 = Some [80; 75; 1; 2]
        /\ getUint32 buf (index_record_pos st k + 42)
           = Some (Entry.offset entry)
        /\ slice buf (Entry.offset entry) 4 = Some [80; 75; 3; 4]
        /\ index_offset_hits_local_header st buf k).
Proof.
  intros Hst Hbuf.
  apply local_pass_Ok in Hst as (es & Hdec & ->).
  apply createZipFromBase64Images_Ok in Hbuf as (es' & Hdec' & ->).
  rewrite Hdec in Hdec'. injection Hdec' as <-.
  cbn [centralDirectory zipParts offset].
  split; [|split].
  - intros k entry Hk.
    apply directory_from_lookup in Hk as (e & He & ->).
    rewrite take_local_parts, length_entries_region. split; [simpl; lia|].
    exists (local_record (name e) (content_size e)).
    split; [by apply local_parts_lookup | reflexivity].
  - intros i j a b Hij Hi Hj.
    apply directory_from_lookup in Hi as (ei & Hei & ->).
    apply directory_from_lookup in Hj as (ej & Hej & ->).
    simpl. pose proof (total_take_lt es i j ei Hei Hij).
    pose proof (local_span_pos ei). lia.
  - intros k entry Hk Hsmall.
    apply directory_from_lookup in Hk as (e & He & ->).
    simpl in Hsmall. cbn [Entry.offset].
    unfold index_offset_hits_local_header, index_record_pos.
    cbn [centralDirectory offset].
    rewrite take_directory_from, total_directory_from, !Z.add_0_l.
    destruct (archive_of_entry_fields es k e He) as (Hl & Hc & Ho).
    pose proof (total_local_span_nonneg (take k es)).
    rewrite ToUint32_small in Ho by lia.
    repeat split; try done. eauto.
Qed.

(** C2 as stated fails once an offset leaves 32 bits: after 22 entries of
    192 MiB each, the entry that follows starts at byte 4429185706, the
    offset field of its index record holds 134218410, and the bytes at that
    position belong to the first entry's content. *)
Lemma C2_counterexample :
  ~ index_offsets_hit_local_headers (zero_images 22 large).
Proof.
  apply (zero_images_miss 22 large 134218410).
  - exact large_entries.
  - lia.
  - rewrite large_entry_bytes. lia.
Qed.

(** C3, amended. The trailer stands in the last 22 bytes, right after the
    index records. Its two count fields hold the number of entries modulo
    2^16; its index-length field holds the total size of the index records
    and its index-start field the position after the last entry's content,
    each modulo 2^32. With fewer than 65536 entries and an archive shorter
    than 2^32 bytes the four fields hold these numbers themselves. *)
Theorem C3_trailer_summarises_the_archive images st buf :
  local_pass images = Ok st ->
  createZipFromBase64Images images = Ok buf ->
  let trailer := Z.of_nat (length buf) - 22 in
  let entries := Z.of_nat (length images) in
  let index_start := Z.of_nat (length (Blob (zipParts st))) in
  let index_length :=
    total (fun en => Z.of_nat (length (central_record en)))
          (centralDirectory st) in
  length (centralDirectory st) = length images
  /\ trailer = index_start + index_length
  /\ slice buf trailer 4 = Some [80; 75; 5; 6]
  /\ getUint16 buf (trailer + 8) = Some (entries mod 65536)
  /\ getUint16 buf (trailer + 10) = Some (entries mod 65536)
  /\ getUint32 buf (trailer + 12) = Some (index_length mod 4294967296)
  /\ getUint32 buf (trailer + 16) = Some (index_start mod 4294967296)
  /\ (entries < 65536 -> trailer < 4294967296 ->
      getUint16 buf (trailer + 8) = Some entries
      /\ getUint16 buf (trailer + 10) = Some entries
      /\ getUint32 buf (trailer + 12) = Some index_length
      /\ getUint32 buf (trailer + 16) = Some index_start).
Proof.
  intros Hst Hbuf.
  apply local_pass_Ok in Hst as (es & Hdec & ->).
  apply createZipFromBase64Images_Ok in Hbuf as (es' & Hdec' & ->).
  rewrite Hdec in Hdec'. injection Hdec' as <-.
  intros trailer entries index_start index_length.
  cbn [centralDirectory zipParts offset] in *.
  assert (Hn : length es = length images).
  { symmetry. eapply Forall2_length, decode_images_Forall2, Hdec. }
  assert (Hstart : index_start = total local_span es).
  { unfold index_start.
    rewrite <- (take_ge (local_parts es) (2 * length es)).
    - by rewrite take_local_parts, firstn_all, length_entries_region.
    - unfold local_parts. clear. induction es as [|e es IH]; simpl; lia. }
  assert (Hlen : index_length = total index_span es).
  { unfold index_length. generalize 0.
    clear. induction es as [|e es IH]; intros c; [done|].
    cbn [directory_from]. rewrite !total_cons, IH, length_central_record.
    unfold index_span at 2. cbn [Entry.filenameBytes]. lia. }
  assert (Htr : trailer = index_start + index_length).
  { unfold trailer. rewrite length_archive_of, Hstart, Hlen. lia. }
  destruct (archive_of_trailer_fields es) as (Hsig & Hc1 & Hc2 & Hl & Ho & _).
  cbn zeta in Hsig, Hc1, Hc2, Hl, Ho. fold trailer in Hsig, Hc1, Hc2, Hl, Ho.
  rewrite Hn in Hc1, Hc2. fold entries in Hc1, Hc2.
  rewrite <- Hstart in Ho. rewrite <- Hlen in Hl.
  pose proof (total_local_span_nonneg es).
  pose proof (total_index_span_nonneg es).
  split; [by rewrite length_directory_from|].
  repeat (split; [done|]).
  intros He Ht. unfold ToUint16, ToUint32 in *.
  rewrite Z.mod_small in Hc1, Hc2, Hl, Ho by lia. done.
Qed.

(** C3 as stated fails once the number of entries leaves 16 bits: with 65536
    entries both count fields of the trailer are zero. *)
Lemma C3_counterexample :
  ~ trailer_counts_entries (replicate (Z.to_nat 65536) empty_image).
Proof. exact (trailer_counts_wrap (Z.to_nat 65536) many_entries). Qed.

(** C1. The field the source labels crc32 is written as the constant 0 in
    the local header and in the index record. For the entry x.txt with
    content [hello] both fields read 0, while the CRC-32 of the five stored
    bytes is 3610A686 (hexadecimal). *)
Theorem C1_checksum_field_is_zero_not_crc32 :
  exists buf,
    createZipFromBase64Images [x_txt] = Ok buf
    /\ slice buf 0 4 = Some [80; 75; 3; 4]
    /\ slice buf 35 5 = Some [104; 101; 108; 108; 111]
    /\ getUint32 buf 14 = Some 0
    /\ slice buf 40 4 = Some [80; 75; 1; 2]
    /\ getUint32 buf (40 + 16) = Some 0
    /\ crc32 [104; 101; 108; 108; 111] = 907060870.
Proof.
  eexists. split; [vm_compute; reflexivity|].
  repeat split; vm_compute; reflexivity.
Qed.

(** C7. A reader that verifies checksums rejects the archive of x.txt and
    y.txt at the first member, because the recorded checksum is 0; a reader
    that skips the verification finds exactly x.txt with [hello] and y.txt
    with [world!], both stored. *)
Theorem C7_round_trip_stops_at_the_checksum :
  exists buf,
    createZipFromBase64Images [x_txt; y_txt] = Ok buf
    /\ ZipReader.read true buf = inl ZipReader.BadChecksum
    /\ ZipReader.read false buf
       = inr [ZipReader.Member (js "x.txt") 0 (js "hello");
              ZipReader.Member (js "y.txt") 0 (js "world!")].
Proof.
  eexists. split; [vm_compute; reflexivity|].
  split; vm_compute; reflexivity.
Qed.

(** C9, amended. A name that the text encoding cannot encode does not fail
    the build: the writer stores the UTF-8 bytes that [TextEncoder] gives,
    with U+FFFD for an unpaired surrogate. The build fails exactly when some
    payload is not valid base64; it then throws InvalidCharacterError and
    returns no buffer, truncated or partial. When it does not fail it returns
    the whole archive, local records, contents, index records and trailer,
    and the size field of every content shorter than 2^32 bytes and the
    name-length field of every name shorter than 2^16 bytes hold the exact
    value. *)
Theorem C9_unencodable_names_do_not_fail_the_build images :
  match decode_images images with
  | Ok es =>
      createZipFromBase64Images images = Ok (archive_of es)
      /\ Forall (fun img => exists s, atob (data img) = Ok s) images
      /\ Z.of_nat (length (archive_of es))
         = total local_span es + total index_span es + 22
      /\ map name es
         = map (fun img => TextEncoder_encode (filename img)) images
      /\ (forall k e,
            es !! k = Some e ->
            let start := total local_span (take k es) in
            (content_size e < 4294967296 ->
             getUint32 (archive_of es) (start + 18) = Some (content_size e))
            /\ (Z.of_nat (length (name e)) < 65536 ->
                getUint16 (archive_of es) (start + 26)
                = Some (Z.of_nat (length (name e)))))
  | Throw e =>
      e = InvalidCharacterError
      /\ createZipFromBase64Images images = Throw InvalidCharacterError
      /\ Exists (fun img => atob (data img) = Throw InvalidCharacterError)
                images
  end.
Proof.
  rewrite createZipFromBase64Images_layout.
  destruct (decode_images images) as [es|e] eqn:Hdec.
  - split; [done|]. split.
    { apply decode_images_Forall2 in Hdec.
      induction Hdec as [|img e imgs es' He _ IH]; constructor; [|exact IH].
      unfold decode_image in He.
      destruct (atob (data img)) as [s|err]; [by exists s | done]. }
    split; [apply length_archive_of|].
    split; [by apply decode_images_names|].
    intros k e He start.
    destruct (archive_of_entry_sizes es k e He) as (_ & _ & (Hs & _) & (Hn & _)).
    cbn zeta in Hs, Hn. fold start in Hs, Hn. split.
    + intros Hsmall. rewrite Hs. f_equal. apply Z.mod_small.
      unfold content_size in *. lia.
    + intros Hsmall. rewrite Hn. f_equal. apply Z.mod_small. lia.
  - destruct (decode_images_Throw images e Hdec) as [-> Hex]. done.
Qed.

(** C9 as stated fails for a name that cannot be encoded: the build of an
    entry whose name is an unpaired surrogate succeeds, and the three bytes
    of U+FFFD stand where the name is stored. *)
Lemma C9_counterexample :
  ~ rejects_malformed [unpaired_name]
  /\ exists buf,
       createZipFromBase64Images [unpaired_name] = Ok buf
       /\ slice buf 30 3 = Some [239; 191; 189].
Proof.
  assert (Hok : exists buf,
             createZipFromBase64Images [unpaired_name] = Ok buf
             /\ slice buf 30 3 = Some [239; 191; 189]).
  { eexists. split; [vm_compute; reflexivity|]. vm_compute. reflexivity. }
  split; [|exact Hok].
  intros H. destruct H as [e He].
  - apply Exists_cons_hd. by left.
  - destruct Hok as (buf & Hok & _). rewrite Hok in He. discriminate He.
Qed.

(** C10. On the empty list the writer returns the 22 bytes of a trailer:
    the signature, then zero in every field. *)
Theorem C10_empty_list_gives_a_bare_trailer :
  createZipFromBase64Images []
  = Ok [80; 75; 5; 6; 0; 0; 0; 0; 0; 0; 0; 0; 0; 0; 0; 0; 0; 0; 0; 0; 0; 0]
  /\ exists buf,
       createZipFromBase64Images [] = Ok buf
       /\ length buf = 22%nat
       /\ getUint32 buf 0 = Some END_OF_CENTRAL_DIR_SIG
       /\ getUint16 buf 8 = Some 0
       /\ getUint16 buf 10 = Some 0
       /\ getUint32 buf 12 = Some 0
       /\ getUint32 buf 16 = Some 0
       /\ getUint16 buf 20 = Some 0.
Proof.
  split; [reflexivity|]. eexists. split; [reflexivity|].
  repeat split; vm_compute; reflexivity.
Qed.

(** ** The theorems at work on concrete inputs *)

(** The amended C2 on the archive of x.txt and y.txt: y.txt is recorded at
    offset 40, its index record says 40, and byte 40 starts a local header. *)
Lemma C2_witness :
  exists st buf,
    local_pass [x_txt; y_txt] = Ok st
    /\ createZipFromBase64Images [x_txt; y_txt] = Ok buf
    /\ map Entry.offset (centralDirectory st) = [0; 40]
    /\ getUint32 buf (index_record_pos st 1 + 42) = Some 40
    /\ slice buf 40 4 = Some [80; 75; 3; 4]
    /\ index_offset_hits_local_header st buf 1.
Proof.
  eexists _, _.
  split; [vm_compute; reflexivity|]. split; [vm_compute; reflexivity|].
  split; [reflexivity|].
  match goal with
  | |- getUint32 ?buf (index_record_pos ?st _ + _) = _ /\ _ =>
      destruct (C2_offsets_follow_the_running_total [x_txt; y_txt] st buf)
        as (_ & _ & H); [vm_compute; reflexivity | vm_compute; reflexivity |]
  end.
  destruct (H 1%nat (Entry.Make 40 (js "y.txt") 6) eq_refl eq_refl)
    as (_ & Hfield & Hsig & Hhit).
  exact (conj Hfield (conj Hsig Hhit)).
Defined.

(** The amended C3 on the same archive: two entries, an index of 102 bytes
    that starts at byte 81. *)
Lemma C3_witness :
  exists st buf,
    local_pass [x_txt; y_txt] = Ok st
    /\ createZipFromBase64Images [x_txt; y_txt] = Ok buf
    /\ length (centralDirectory st) = 2%nat
    /\ getUint16 buf (Z.of_nat (length buf) - 22 + 8) = Some 2
    /\ getUint16 buf (Z.of_nat (length buf) - 22 + 10) = Some 2
    /\ getUint32 buf (Z.of_nat (length buf) - 22 + 12) = Some 102
    /\ getUint32 buf (Z.of_nat (length buf) - 22 + 16) = Some 81.
Proof.
  eexists _, _.
  split; [vm_compute; reflexivity|]. split; [vm_compute; reflexivity|].
  match goal with
  | |- length (centralDirectory ?st) = _ /\ getUint16 ?buf _ = _ /\ _ =>
      destruct (C3_trailer_summarises_the_archive [x_txt; y_txt] st buf)
        as (Hn & _ & _ & _ & _ & _ & _ & H);
        [vm_compute; reflexivity | vm_compute; reflexivity |]
  end.
  exact (conj Hn (H eq_refl eq_refl)).
Defined.

(** The amended C4 on three files of which the second fails, with a choice
    of format during the run: two results, in file order, and the archive of
    x.txt and y.txt behind the download button. *)
Lemma C4_witness :
  tasks (step ascii_toLowerCase second_fails (fun _ => true) (Answer 0)
           (run ascii_toLowerCase second_fails (fun _ => true)
                [Answer 0; ChooseFormat (js "png"); Answer 0]
                (call_convertBulkWithProgress
                   (selected [png_file; jpg_file; gif_file])))) !! 0%nat
  = Some (BulkSettled [x_txt; y_txt] 1)
  /\ downloadBtn_target
       (page_of
          (step ascii_toLowerCase second_fails (fun _ => true) (Answer 0)
             (run ascii_toLowerCase second_fails (fun _ => true)
                  [Answer 0; ChooseFormat (js "png"); Answer 0]
                  (call_convertBulkWithProgress
                     (selected [png_file; jpg_file; gif_file])))))
     = Some (ZipArchive
               (concat (map local_part
                          [ArchiveEntry (js "x.txt") (js "hello");
                           ArchiveEntry (js "y.txt") (js "world!")])
                ++ index_region [ArchiveEntry (js "x.txt") (js "hello");
                                 ArchiveEntry (js "y.txt") (js "world!")]
                ++ trailer_of [ArchiveEntry (js "x.txt") (js "hello");
                               ArchiveEntry (js "y.txt") (js "world!")])).
Proof.
  destruct (C4_results_keep_input_order ascii_toLowerCase second_fails
              (fun _ => true) (selected [png_file; jpg_file; gif_file])
              [Answer 0; ChooseFormat (js "png"); Answer 0])
    as (Htask & _ & _ & Harchive & _).
  - repeat constructor.
  - reflexivity.
  - split; [exact Htask|].
    destruct (Harchive [ArchiveEntry (js "x.txt") (js "hello");
                        ArchiveEntry (js "y.txt") (js "world!")])
      as (Hdl & _).
    + vm_compute. discriminate.
    + vm_compute. reflexivity.
    + exact Hdl.
Defined.



(** * Further properties of the writer, the run and the page *)

(** ** The archive writer, read back *)

(** X1. Every list of images whose payloads decode, and whose entries fit the
    16-bit and 32-bit fields, gives an archive from which a reader that
    does not verify checksums recovers exactly the entries: the same names
    and contents, in the same order, each stored. *)
Theorem archive_reads_back images es :
  decode_images images = Ok es ->
  fits_the_fields es ->
  exists buf,
    createZipFromBase64Images images = Ok buf
    /\ ZipReader.read false buf = inr (map member_of es).
Proof.
  intros Hdec Hfits. exists (archive_of es).
  rewrite createZipFromBase64Images_layout, Hdec. split; [done|].
  by rewrite (read_archive_of es Hfits false).
Qed.

Lemma archive_reads_back_witness :
  exists buf,
    createZipFromBase64Images [x_txt; y_txt] = Ok buf
    /\ ZipReader.read false buf
       = inr [ZipReader.Member (js "x.txt") 0 (js "hello");
              ZipReader.Member (js "y.txt") 0 (js "world!")].
Proof.
  apply (archive_reads_back [x_txt; y_txt]
           [ArchiveEntry (js "x.txt") (js "hello");
            ArchiveEntry (js "y.txt") (js "world!")]).
  - vm_compute. reflexivity.
  - split; [vm_compute; reflexivity|].
    split; [vm_compute; reflexivity|].
    repeat constructor.
Defined.

(** X2. A reader that verifies checksums accepts such an archive exactly when
    the CRC-32 of every content is 0, the value the writer records; one
    content with another CRC-32 makes it stop with a checksum failure. *)
Theorem verifying_reader_needs_zero_checksums images es :
  decode_images images = Ok es ->
  fits_the_fields es ->
  exists buf,
    createZipFromBase64Images images = Ok buf
    /\ (ZipReader.read true buf = inr (map member_of es)
        <-> Forall (fun e => crc32 (content e) = 0) es)
    /\ (Exists (fun e => crc32 (content e) <> 0) es ->
        ZipReader.read true buf = inl ZipReader.BadChecksum).
Proof.
  intros Hdec Hfits. exists (archive_of es).
  rewrite createZipFromBase64Images_layout, Hdec. split; [done|].
  rewrite (read_archive_of es Hfits true). cbn [andb].
  pose proof (existsb_checksum_differs es) as Hiff.
  destruct (existsb checksum_differs es) eqn:Hex.
  - split.
    + split; [done|]. intros Hall. apply Hiff in Hall. done.
    + done.
  - split.
    + split; [intros _; by apply Hiff | done].
    + intros Hsome. exfalso.
      assert (Hall : Forall (fun e => crc32 (content e) = 0) es)
        by (by apply Hiff).
      apply Exists_exists in Hsome as (e & Hin & Hne).
      rewrite Forall_forall in Hall. by apply Hne, Hall.
Qed.

Lemma verifying_reader_needs_zero_checksums_witness :
  exists buf,
    createZipFromBase64Images [Image [] (js "empty.txt"); x_txt] = Ok buf
    /\ ZipReader.read true buf = inl ZipReader.BadChecksum.
Proof.
  destruct (verifying_reader_needs_zero_checksums
              [Image [] (js "empty.txt"); x_txt]
              [ArchiveEntry (js "empty.txt") [];
               ArchiveEntry (js "x.txt") (js "hello")])
    as (buf & Hbuf & _ & Hbad).
  - vm_compute. reflexivity.
  - split; [vm_compute; reflexivity|].
    split; [vm_compute; reflexivity|].
    repeat constructor.
  - exists buf. split; [exact Hbuf|]. apply Hbad.
    apply Exists_cons_tl, Exists_cons_hd. vm_compute. discriminate.
Defined.

(** ** The archive is made of bytes *)

(** X3. Whatever the payloads are, if every file name is a string of UTF-16
    code units then every element of the returned buffer is a byte. *)
Theorem archive_is_made_of_bytes images buf :
  Forall (fun img => Forall is_code_unit (filename img)) images ->
  createZipFromBase64Images images = Ok buf ->
  Forall is_byte buf.
Proof.
  intros Himgs Hbuf.
  apply createZipFromBase64Images_Ok in Hbuf as (es & Hdec & ->).
  apply archive_of_bytes. by eapply decode_images_bytes.
Qed.

Lemma archive_is_made_of_bytes_witness :
  exists buf,
    createZipFromBase64Images [x_txt; Image (js "/w==") [233; 55296]] = Ok buf
    /\ Forall is_byte buf.
Proof.
  eexists. split; [vm_compute; reflexivity|].
  apply (archive_is_made_of_bytes [x_txt; Image (js "/w==") [233; 55296]]).
  - repeat constructor; vm_compute; done.
  - vm_compute. reflexivity.
Defined.

(** ** File names *)

(** X4. An ASCII file name is the entry name as it is: the same values follow
    the local header and the index record of the image. *)
Theorem ascii_names_are_stored_verbatim images st buf k img entry :
  local_pass images = Ok st ->
  createZipFromBase64Images images = Ok buf ->
  images !! k = Some img ->
  centralDirectory st !! k = Some entry ->
  Forall is_ascii (filename img) ->
  Entry.filenameBytes entry = filename img
  /\ slice buf (Entry.offset entry + 30) (length (filename img))
     = Some (filename img)
  /\ slice buf (index_record_pos st k + 46) (length (filename img))
     = Some (filename img).
Proof.
  intros Hst Hbuf Himg Hentry Hascii.
  destruct (image_entry _ _ _ _ _ _ Hst Hbuf Himg Hentry)
    as (es & e & -> & He & Hdec & -> & Hpos).
  rewrite Hpos. cbn [Entry.filenameBytes Entry.offset].
  assert (Hname : name e = filename img).
  { rewrite (decode_image_name _ _ Hdec). by apply TextEncoder_encode_ascii. }
  destruct (archive_of_entry_names es k e He) as (_ & Hl & _ & _ & _ & Hc).
  cbn zeta in Hl, Hc. rewrite Hname in *. done.
Qed.

Lemma ascii_names_are_stored_verbatim_witness :
  exists st buf,
    local_pass [x_txt; y_txt] = Ok st
    /\ createZipFromBase64Images [x_txt; y_txt] = Ok buf
    /\ slice buf (40 + 30) 5 = Some (js "y.txt")
    /\ slice buf (index_record_pos st 1 + 46) 5 = Some (js "y.txt").
Proof.
  eexists _, _.
  split; [vm_compute; reflexivity|]. split; [vm_compute; reflexivity|].
  match goal with
  | |- slice ?buf _ _ = _ /\ slice _ (index_record_pos ?st _ + _) _ = _ =>
      destruct (ascii_names_are_stored_verbatim [x_txt; y_txt] st buf 1
                  y_txt (Entry.Make 40 (js "y.txt") 6))
        as (_ & Hl & Hc)
  end.
  - vm_compute. reflexivity.
  - vm_compute. reflexivity.
  - reflexivity.
  - reflexivity.
  - repeat constructor; vm_compute; done.
  - exact (conj Hl Hc).
Defined.

(** X5. A file name takes between one and three bytes per code unit, so a name
    of at most 21845 code units has its exact byte length in the 16-bit
    name-length field of both records. *)
Theorem name_length_fields_are_exact images st buf k img entry :
  local_pass images = Ok st ->
  createZipFromBase64Images images = Ok buf ->
  images !! k = Some img ->
  centralDirectory st !! k = Some entry ->
  Forall is_code_unit (filename img) ->
  Z.of_nat (length (filename img)) <= 21845 ->
  (length (filename img) <= length (Entry.filenameBytes entry)
   <= 3 * length (filename img))%nat
  /\ getUint16 buf (Entry.offset entry + 26)
     = Some (Z.of_nat (length (Entry.filenameBytes entry)))
  /\ getUint16 buf (index_record_pos st k + 28)
     = Some (Z.of_nat (length (Entry.filenameBytes entry))).
Proof.
  intros Hst Hbuf Himg Hentry Hunits Hshort.
  destruct (image_entry _ _ _ _ _ _ Hst Hbuf Himg Hentry)
    as (es & e & -> & He & Hdec & -> & Hpos).
  rewrite Hpos. cbn [Entry.filenameBytes Entry.offset].
  pose proof (length_TextEncoder_encode _ Hunits) as Hlen.
  rewrite <- (decode_image_name _ _ Hdec) in Hlen.
  destruct (archive_of_entry_sizes es k e He) as (_ & _ & _ & (Hl & Hc)).
  cbn zeta in Hl, Hc.
  rewrite ToUint16_small' in Hl, Hc by lia. done.
Qed.

Lemma name_length_fields_are_exact_witness :
  exists st buf,
    local_pass [Image [] [233; 55296]] = Ok st
    /\ createZipFromBase64Images [Image [] [233; 55296]] = Ok buf
    /\ getUint16 buf (0 + 26) = Some 5
    /\ getUint16 buf (index_record_pos st 0 + 28) = Some 5.
Proof.
  eexists _, _.
  split; [vm_compute; reflexivity|]. split; [vm_compute; reflexivity|].
  match goal with
  | |- getUint16 ?buf _ = _ /\ getUint16 _ (index_record_pos ?st _ + _) = _ =>
      destruct (name_length_fields_are_exact [Image [] [233; 55296]] st buf 0
                  (Image [] [233; 55296])
                  (Entry.Make 0 [195; 169; 239; 191; 189] 0))
        as (_ & Hl & Hc)
  end.
  - vm_compute. reflexivity.
  - vm_compute. reflexivity.
  - reflexivity.
  - reflexivity.
  - repeat constructor; vm_compute; done.
  - vm_compute. discriminate.
  - exact (conj Hl Hc).
Defined.

(** ** Payloads *)

(** X6. For images whose payload is the standard base64 encoding of their
    bytes, the writer always returns an archive, and the content it stores
    for each image is those bytes, unchanged. *)
Theorem base64_payloads_are_stored_as_sent (files : list (jsstring * list Z)) :
  Forall (fun f => Forall is_byte f.2) files ->
  createZipFromBase64Images (map sent_image files)
  = Ok (archive_of (map sent_entry files))
  /\ forall k f,
       files !! k = Some f ->
       slice (archive_of (map sent_entry files))
             (total local_span (take k (map sent_entry files)) + 30
              + Z.of_nat (length (TextEncoder_encode f.1)))
             (length f.2)
       = Some f.2.
Proof.
  intros Hfiles. split.
  - by rewrite createZipFromBase64Images_layout, decode_sent_images.
  - intros k f Hf.
    assert (He : map sent_entry files !! k = Some (sent_entry f)).
    { change (map sent_entry files) with (sent_entry <$> files).
      by rewrite list_lookup_fmap, Hf. }
    destruct (archive_of_entry_names _ k _ He) as (_ & _ & Hc & _).
    exact Hc.
Qed.

Lemma base64_payloads_are_stored_as_sent_witness :
  createZipFromBase64Images [Image (js "aGVsbG8=") (js "x.txt")]
  = Ok (archive_of [ArchiveEntry (js "x.txt") (js "hello")]).
Proof.
  refine (proj1 (base64_payloads_are_stored_as_sent
                   [(js "x.txt", js "hello")] _)).
  repeat constructor; vm_compute; done.
Defined.

(** ** The conversion run *)

(** X8. When a run that nothing interrupts is over, and no file name
    contains [<], the header of the list shows the number of results out of
    the number of files, the number of items with the done class is the
    number of results, and the number of items with the error class is the
    error count. *)
Theorem header_counts_the_results toLowerCase gateway single_gateway
    (w0 : world) :
  let fs := currentFiles (page_of w0) in
  let rs := replies gateway fs in
  let items := map status_of_reply rs in
  plain_names fs = true ->
  let w := run toLowerCase gateway single_gateway
               (replicate (length fs) (Answer (length (tasks w0))))
               (call_convertBulkWithProgress w0) in
  fileListContainer_content (page_of w)
  = Items (Some (ConvertedOf (length (omap converted_image rs))
                             (length fs))) items
  /\ length (List.filter is_done items) = length (omap converted_image rs)
  /\ length (List.filter is_error items)
     = length (List.filter is_failed rs)
  /\ tasks w !! length (tasks w0)
     = Some (BulkSettled (omap converted_image rs)
                         (length (List.filter is_failed rs))).
Proof.
  intros fs rs items Hplain w.
  assert (Hw : w = {| page_of := page_after_run gateway (page_of w0);
                      tasks := tasks w0
                               ++ [BulkSettled (omap converted_image rs)
                                     (length (List.filter is_failed rs))] |}).
  { apply quiet_call. }
  destruct (page_after_run_keeps gateway (page_of w0))
    as (_ & _ & _ & _ & _ & _ & _ & Hcontent & _).
  cbn zeta in Hcontent. fold fs in Hcontent. fold rs in Hcontent.
  destruct (status_counts rs) as [Hdone Herror].
  rewrite Hw. cbn [page_of tasks]. rewrite Hcontent. unfold content_of.
  rewrite Hplain, Hdone.
  split; [done|]. split; [done|]. split; [done|]. apply lookup_last_task.
Qed.

Lemma header_counts_the_results_witness :
  fileListContainer_content
    (page_of (run ascii_toLowerCase second_fails (fun _ => true)
                  (replicate 3 (Answer 0))
                  (call_convertBulkWithProgress
                     (selected [png_file; jpg_file; gif_file]))))
  = Items (Some (ConvertedOf 2 3)) [Status.done; Status.error; Status.done].
Proof.
  destruct (header_counts_the_results ascii_toLowerCase second_fails
              (fun _ => true) (selected [png_file; jpg_file; gif_file]))
    as (Hcontent & _).
  - vm_compute. reflexivity.
  - exact Hcontent.
Defined.

(** X9. A run that nothing interrupts reports that no image could be
    converted exactly when the gateway failed for every file. *)
Theorem nothing_converted_iff_all_failed toLowerCase gateway single_gateway
    (w0 : world) :
  let fs := currentFiles (page_of w0) in
  let w := run toLowerCase gateway single_gateway
               (replicate (length fs) (Answer (length (tasks w0))))
               (call_convertBulkWithProgress w0) in
  toasts (page_log (page_of w))
  = toasts (page_log (page_of w0)) ++ [NoImagesCouldBeConverted]
  <-> Forall (fun r => r = Failed) (replies gateway fs).
Proof.
  intros fs w.
  assert (Hw : page_of w = page_after_run gateway (page_of w0)).
  { unfold w, fs. by rewrite quiet_call. }
  rewrite Hw, toasts_after_run. fold fs.
  generalize (replies gateway fs). intros rs.
  assert (Hiff : omap converted_image rs = []
                 <-> Forall (fun r => r = Failed) rs).
  { induction rs as [|[r|] rs IH]; cbn.
    - split; [constructor | done].
    - split; [done | intros H; inversion H; done].
    - split.
      + intros H. constructor; [done | by apply IH].
      + intros H. inversion H; subst. by apply IH. }
  destruct (omap converted_image rs) as [|r rs'] eqn:Hres.
  - split; [intros _; by apply Hiff | done].
  - split.
    + intros H. apply app_inv_head in H.
      destruct (createZipFromBase64Images (r :: rs')); done.
    + intros Hall. apply Hiff in Hall. done.
Qed.

(** X10. One converted image whose payload is not valid base64 loses the
    whole archive of a run that nothing interrupts: the writer is called and
    throws, [convertImage] shows the error, the download button, the result
    text and the result container stay as they were, and the button is
    enabled again; and when no file name contains [<], every item of the
    list shows the status of its reply, done for each converted file, the one
    with the bad payload included. *)
Theorem one_bad_payload_loses_the_archive toLowerCase gateway single_gateway
    (w0 : world) :
  let fs := currentFiles (page_of w0) in
  let rs := replies gateway fs in
  let results := omap converted_image rs in
  Exists (fun img => atob (data img) = Throw InvalidCharacterError) results ->
  let w := run toLowerCase gateway single_gateway
               (replicate (length fs) (Answer (length (tasks w0))))
               (call_convertBulkWithProgress w0) in
  toasts (page_log (page_of w))
  = toasts (page_log (page_of w0))
    ++ [ErrorMessage (WriterError InvalidCharacterError)]
  /\ zip_calls (page_log (page_of w))
     = zip_calls (page_log (page_of w0)) ++ [results]
  /\ downloadBtn_target (page_of w) = downloadBtn_target (page_of w0)
  /\ resultInfo (page_of w) = resultInfo (page_of w0)
  /\ resultContainer_hidden (page_of w) = resultContainer_hidden (page_of w0)
  /\ convertBtn_disabled (page_of w) = false
  /\ (plain_names fs = true ->
      exists header,
        fileListContainer_content (page_of w)
        = Items header (map status_of_reply rs)).
Proof.
  intros fs rs results Hbad w.
  assert (Hw : page_of w = page_after_run gateway (page_of w0)).
  { unfold w, fs. by rewrite quiet_call. }
  pose proof (decode_images_bad_payload _ Hbad) as Hdec.
  assert (Hzip : createZipFromBase64Images results
                 = Throw InvalidCharacterError).
  { by rewrite createZipFromBase64Images_layout, Hdec. }
  assert (Hne : results <> []) by (intros E; rewrite E in Hbad; inversion Hbad).
  destruct (page_after_run_keeps gateway (page_of w0))
    as (_ & _ & _ & _ & _ & _ & Hbtn & Hcontent & _ & _ & Hcalls).
  destruct (result_without_archive gateway (page_of w0))
    as (Hdl & Hinfo & Hhidden); [right; by eexists|].
  cbn zeta in Hcontent, Hcalls. fold fs in Hcontent, Hcalls.
  fold rs in Hcontent, Hcalls. fold results in Hcalls.
  rewrite Hw. split; [|split; [|repeat (split; [done|])]].
  - rewrite toasts_after_run. fold fs. fold rs. fold results. rewrite Hzip.
    by destruct results.
  - rewrite Hcalls. by destruct results.
  - intros Hplain. rewrite Hcontent. unfold content_of. rewrite Hplain.
    by eexists.
Qed.

Lemma one_bad_payload_loses_the_archive_witness :
  toasts (page_log (page_of bad_payload_run))
  = [ErrorMessage (WriterError InvalidCharacterError)]
  /\ downloadBtn_target (page_of bad_payload_run) = None.
Proof.
  destruct (one_bad_payload_loses_the_archive ascii_toLowerCase bad_second
              (fun _ => true) (selected [png_file; jpg_file]))
    as (Htoasts & _ & Hdl & _).
  - apply Exists_cons_tl, Exists_cons_hd. vm_compute. reflexivity.
  - exact (conj Htoasts Hdl).
Defined.

(** X18. Whatever the page is given to handle, and in whatever order: if
    the gateway fails every request and no run that is waiting holds a
    result, the ZIP writer is never called. *)
Theorem failing_gateway_never_reaches_the_writer toLowerCase gateway
    single_gateway (inputs : list input) (w0 : world) :
  (forall i f, gateway i f = Failed) ->
  no_result_pending w0 ->
  zip_calls (page_log (page_of (run toLowerCase gateway single_gateway
                                    inputs w0)))
  = zip_calls (page_log (page_of w0))
  /\ no_result_pending (run toLowerCase gateway single_gateway inputs w0).
Proof.
  intros Hfails Hno.
  destruct (no_result_after_run toLowerCase gateway single_gateway Hfails
              inputs w0 Hno) as [Hno' Hz].
  by split.
Qed.

Lemma failing_gateway_never_reaches_the_writer_witness :
  zip_calls
    (page_log
       (page_of (run ascii_toLowerCase never_converts (fun _ => true)
                     [Click; Answer 0; Remove 1; Answer 0;
                      Drop [png_file; gif_file]; Click; Answer 1; Answer 0;
                      Answer 1]
                     (selected [png_file; jpg_file; gif_file]))))
  = [].
Proof.
  refine (proj1 (failing_gateway_never_reaches_the_writer ascii_toLowerCase
                   never_converts (fun _ => true) _ _ _ _)).
  - done.
  - intros id i f res err H. vm_compute in H.
    destruct id; discriminate H.
Defined.

(** ** The page around the conversion *)

(** X11. Every turn of the event loop keeps the page in step with the
    selection (without files the preview and the list are hidden and the
    convert button is disabled; with one file the preview is shown; with
    more the list is shown, with one item per file when the names are text),
    but for the answer to a request that arrives when nothing is selected
    any more. *)
Theorem handlers_keep_the_view_in_step toLowerCase gateway single_gateway
    (inp : input) (w : world) :
  view_matches_selection (page_of w) ->
  (forall id, inp = Answer id -> currentFiles (page_of w) <> []) ->
  view_matches_selection
    (page_of (step toLowerCase gateway single_gateway inp w)).
Proof. apply view_after_step. Qed.

Lemma handlers_keep_the_view_in_step_witness :
  view_matches_selection
    (page_of (step ascii_toLowerCase always_converts (fun _ => true)
                   (Drop [png_file; text_file; jpg_file]) empty_world)).
Proof.
  apply handlers_keep_the_view_in_step; [vm_compute; done | done].
Defined.

(** X12. A reset while a conversion waits for an answer breaks that: when
    the answer arrives nothing is selected, the call returns, and its
    [finally] enables the convert button, so that the page is left with no
    file and an enabled button. *)
Theorem reset_during_a_conversion_enables_the_button toLowerCase gateway
    single_gateway (w : world) (id : nat) (t : task) :
  tasks w !! id = Some t -> is_awaiting t = true ->
  currentFiles
    (page_of (run toLowerCase gateway single_gateway [Reset; Answer id] w))
  = []
  /\ convertBtn_disabled
       (page_of (run toLowerCase gateway single_gateway [Reset; Answer id] w))
     = false
  /\ ~ view_matches_selection
        (page_of (run toLowerCase gateway single_gateway
                      [Reset; Answer id] w)).
Proof.
  intros Ht Hwait.
  destruct (reset_then_answer toLowerCase gateway single_gateway w id t Ht
              Hwait) as (Hfiles & Hbtn & _).
  cbn zeta in Hfiles, Hbtn. split; [exact Hfiles|]. split; [exact Hbtn|].
  unfold view_matches_selection. rewrite Hfiles, Hbtn.
  intros (_ & _ & _ & H). discriminate H.
Qed.

Lemma reset_during_a_conversion_enables_the_button_witness :
  convertBtn_disabled
    (page_of (run ascii_toLowerCase always_converts (fun _ => true)
                  [Reset; Answer 0]
                  (step ascii_toLowerCase always_converts (fun _ => true)
                        Click (selected [png_file]))))
  = false.
Proof.
  refine (proj1 (proj2 (reset_during_a_conversion_enables_the_button
                          ascii_toLowerCase always_converts (fun _ => true)
                          _ 0%nat (SingleAwaiting png_file) _ _))).
  - vm_compute. reflexivity.
  - reflexivity.
Defined.

(** X13. Once a format has been chosen, the quality slider is shown exactly
    for jpg, jpeg and webp, and nothing the page handles later, in whatever
    order, breaks that. *)
Theorem quality_slider_follows_the_format toLowerCase gateway single_gateway
    (format : jsstring) (inputs : list input) (w : world) :
  quality_matches_format
    (page_of (run toLowerCase gateway single_gateway inputs
                  (step toLowerCase gateway single_gateway
                        (ChooseFormat format) w))).
Proof. apply quality_after_run, quality_after_selectFormat. Qed.

(** X14. [convertImage], followed by the answers to its requests and by
    nothing else, sends every selected file to an endpoint exactly once, in
    order, and nothing else; it leaves the selection as it is; with files
    selected it ends with the convert button enabled; and it calls the ZIP
    writer only in a bulk run that has results, never for a single file. *)
Theorem convertImage_sends_each_file_once toLowerCase gateway single_gateway
    (w0 : world) :
  let fs := currentFiles (page_of w0) in
  let results := omap converted_image (replies gateway fs) in
  let w := run toLowerCase gateway single_gateway
               (replicate (length fs) (Answer (length (tasks w0))))
               (convertImage w0) in
  requested (page_log (page_of w)) = requested (page_log (page_of w0)) ++ fs
  /\ currentFiles (page_of w) = fs
  /\ convertBtn_disabled (page_of w)
     = match fs with
       | [] => convertBtn_disabled (page_of w0)
       | _ :: _ => false
       end
  /\ zip_calls (page_log (page_of w))
     = zip_calls (page_log (page_of w0))
       ++ match fs with
          | _ :: _ :: _ => if results is [] then [] else [results]
          | _ => []
          end.
Proof. apply convertImage_run. Qed.

(** X15. A drop followed by a conversion that nothing interrupts sends the
    valid files of the drop, in the order of the drop, and no other; when
    the drop has no valid file the earlier selection is converted. *)
Theorem only_valid_files_are_sent toLowerCase gateway single_gateway
    (files : list file) (w0 : world) :
  let w1 := on_page (handleFiles toLowerCase files) w0 in
  let w := run toLowerCase gateway single_gateway
               (replicate (length (currentFiles (page_of w1)))
                          (Answer (length (tasks w1))))
               (convertImage w1) in
  requested (page_log (page_of w))
  = requested (page_log (page_of w0))
    ++ match List.filter (is_valid_file toLowerCase) files with
       | [] => currentFiles (page_of w0)
       | valid => valid
       end.
Proof.
  intros w1 w.
  destruct (convertImage_run toLowerCase gateway single_gateway w1)
    as (Hreq & _).
  cbn zeta in Hreq. fold w in Hreq. rewrite Hreq.
  destruct (handleFiles_selection toLowerCase files (page_of w0))
    as [Hsel Hlog].
  cbn zeta in Hsel, Hlog. unfold w1. cbn [on_page page_of].
  by rewrite Hsel, Hlog.
Qed.

(** X16. [autoSelectFormat] selects png or jpg, with the quality slider shown
    for jpg only; unless the extension is .heic or .heif, the format it
    selects is not the subtype of the MIME type of the file. *)
Theorem auto_selected_format_differs_from_input
    (mimeType ext : jsstring) (pg : page) :
  let pg' := autoSelectFormat mimeType ext pg in
  (selectedFormat pg' = js "png" /\ qualityContainer_hidden pg' = true
   \/ selectedFormat pg' = js "jpg" /\ qualityContainer_hidden pg' = false)
  /\ (ext = js ".heic" \/ ext = js ".heif"
      \/ currentFormat_of mimeType <> Some (selectedFormat pg')).
Proof.
  unfold autoSelectFormat.
  destruct (bool_decide_reflect (ext = js ".heic")) as [Hh|Hh];
    [split; [by left | by left]|].
  destruct (bool_decide_reflect (ext = js ".heif")) as [Hf|Hf];
    [split; [by left | by right; left]|].
  cbn [orb].
  destruct (bool_decide_reflect (currentFormat_of mimeType = Some (js "jpeg")))
    as [Hj|Hj].
  - split; [by left|]. right; right. rewrite Hj. cbn. discriminate.
  - destruct (bool_decide_reflect
                (currentFormat_of mimeType = Some (js "jpg"))) as [Hg|Hg].
    + split; [by left|]. right; right. rewrite Hg. cbn. discriminate.
    + split; [by right|]. right; right. exact Hg.
Qed.


(** ** From the replies to the archive *)

(** X17. The whole way: when the bulk endpoint answers the converted files
    with the standard base64 encoding of their bytes, and the entries fit the
    fields, a run that nothing interrupts ends with an archive behind the
    download button from which a reader that does not verify checksums
    recovers exactly the converted files, their names in UTF-8 and their
    bytes, in the order of the input; the failed files are counted and left
    out. *)
Theorem run_delivers_the_converted_files toLowerCase gateway single_gateway
    (w0 : world) (sent : list (jsstring * list Z)) :
  let fs := currentFiles (page_of w0) in
  let rs := replies gateway fs in
  omap converted_image rs = map sent_image sent ->
  sent <> [] ->
  Forall (fun f => Forall is_byte f.2) sent ->
  fits_the_fields (map sent_entry sent) ->
  let w := run toLowerCase gateway single_gateway
               (replicate (length fs) (Answer (length (tasks w0))))
               (call_convertBulkWithProgress w0) in
  exists zipBlob,
    downloadBtn_target (page_of w) = Some (ZipArchive zipBlob)
    /\ resultInfo (page_of w)
       = Some (BulkResult (length sent) (length (List.filter is_failed rs)))
    /\ resultContainer_hidden (page_of w) = false
    /\ ZipReader.read false zipBlob
       = inr (map (fun f => ZipReader.Member (TextEncoder_encode f.1) 0 f.2)
                  sent).
Proof.
  intros fs rs Hres Hne Hbytes Hfits w.
  assert (Hw : page_of w = page_after_run gateway (page_of w0)).
  { unfold w, fs. by rewrite quiet_call. }
  exists (archive_of (map sent_entry sent)).
  assert (Hzip : createZipFromBase64Images (omap converted_image rs)
                 = Ok (archive_of (map sent_entry sent))).
  { rewrite Hres, createZipFromBase64Images_layout.
    by rewrite decode_sent_images. }
  assert (Hsome : omap converted_image rs <> []).
  { rewrite Hres. by destruct sent. }
  rewrite Hw.
  rewrite (page_after_run_archive gateway (page_of w0) _ Hsome Hzip).
  fold fs. fold rs. rewrite Hres, length_map.
  split; [done|]. split; [done|]. split; [done|].
  rewrite (read_archive_of _ Hfits false). cbn [andb]. f_equal.
  clear. induction sent as [|f fs IH]; [done|]. cbn [map]. by rewrite IH.
Qed.

Lemma run_delivers_the_converted_files_witness :
  exists zipBlob,
    downloadBtn_target
      (page_of (run ascii_toLowerCase second_fails (fun _ => true)
                    (replicate 3 (Answer 0))
                    (call_convertBulkWithProgress
                       (selected [png_file; jpg_file; gif_file]))))
    = Some (ZipArchive zipBlob)
    /\ ZipReader.read false zipBlob
       = inr [ZipReader.Member (js "x.txt") 0 (js "hello");
              ZipReader.Member (js "y.txt") 0 (js "world!")].
Proof.
  destruct (run_delivers_the_converted_files ascii_toLowerCase second_fails
              (fun _ => true) (selected [png_file; jpg_file; gif_file])
              [(js "x.txt", js "hello"); (js "y.txt", js "world!")])
    as (zipBlob & Hdl & _ & _ & Hread).
  - vm_compute. reflexivity.
  - discriminate.
  - repeat constructor; vm_compute; done.
  - split; [vm_compute; reflexivity|].
    split; [vm_compute; reflexivity|].
    repeat constructor.
  - exists zipBlob. split; [exact Hdl | exact Hread].
Defined.
